(** * Bullpen usage table: the alignment and aggregation core of pitchcount.py

    A shallow embedding of the pure part of [pitchcount.py] (the game filter,
    the per-game timeline builder, the start-count sort, the calendar padder,
    the trailing sums and the date labels), followed by the properties the
    specification states about them.

    Conventions of the embedding.
    - Python [int] is [Z].  A player or game identifier is a [Z].
    - A [datetime] obtained from [strptime(s, "%Y-%m-%d")] is a midnight
      instant; it is represented by its day ordinal (a [Z]), so that
      [(b - a).days] is [b - a] and [a + timedelta(days=1)] is [a + 1].
    - A Python [dict] keeps insertion order; it is an association list with
      pairwise distinct keys, assignment replacing in place or appending.
    - A Python [str] is the [string] of its UTF-8 encoding; its length and
      its slices count characters, not bytes.
    - A raised exception is the [Raise] case of [result].
    - A [while] loop whose trip count is not syntactically bounded runs on
      fuel: [None] means the fuel ran out, never that the loop ended. *)

From Stdlib Require Import Ascii String DecimalString.
From Stdlib Require Import ZArith List Lia Bool Sorted Permutation.
Import ListNotations.

Local Open Scope string_scope.
Local Open Scope list_scope.
Local Open Scope Z_scope.

(** ** Python runtime fragments *)

Module Py.

Inductive exn : Type :=
| KeyError
| IndexError
| ValueError
| Exception (msg : string).

Inductive result (A : Type) : Type :=
| Ok (a : A)
| Raise (e : exn).

Arguments Ok {A} a.
Arguments Raise {A} e.

Definition bind {A B : Type} (r : result A) (k : A -> result B) : result B :=
  match r with
  | Ok a => k a
  | Raise e => Raise e
  end.

(** [for x in xs: st = body(st, x)], stopping at the first exception. *)
Fixpoint for_each {A S : Type} (body : S -> A -> result S) (xs : list A) (st : S)
  : result S :=
  match xs with
  | [] => Ok st
  | x :: xs' => bind (body st x) (for_each body xs')
  end.

(** [[f(x) for x in xs]], stopping at the first exception. *)
Fixpoint comprehension {A B : Type} (f : A -> result B) (xs : list A)
  : result (list B) :=
  match xs with
  | [] => Ok []
  | x :: xs' =>
      bind (f x) (fun y => bind (comprehension f xs') (fun ys => Ok (y :: ys)))
  end.

(** [str(n)] for an [int]. *)
Definition str (n : Z) : string := NilZero.string_of_int (Z.to_int n).

(** *** Insertion-ordered dictionaries with integer keys *)

Definition dict (V : Type) : Type := list (Z * V).

Definition keys {V : Type} (d : dict V) : list Z := map fst d.

Fixpoint get {V : Type} (k : Z) (d : dict V) : option V :=
  match d with
  | [] => None
  | (k', v) :: d' => if k' =? k then Some v else get k d'
  end.

(** [k in d] *)
Definition mem {V : Type} (k : Z) (d : dict V) : bool :=
  match get k d with
  | Some _ => true
  | None => false
  end.

(** [d[k]], raising [KeyError] on a missing key. *)
Definition item {V : Type} (k : Z) (d : dict V) : result V :=
  match get k d with
  | Some v => Ok v
  | None => Raise KeyError
  end.

(** [d[k] = v]: an existing key keeps its place, a new one goes last. *)
Fixpoint set {V : Type} (k : Z) (v : V) (d : dict V) : dict V :=
  match d with
  | [] => [(k, v)]
  | (k', v') :: d' => if k' =? k then (k', v) :: d' else (k', v') :: set k v d'
  end.

(** [d[k] = f(d[k])] (as in [d[k] += 1] or [d[k].append(x)]), raising
    [KeyError] on a missing key. *)
Definition update {V : Type} (k : Z) (f : V -> V) (d : dict V) : result (dict V) :=
  bind (item k d) (fun v => Ok (set k (f v) d)).

(** *** Lists *)

(** [l.insert(i, x)] for [i >= 0]: past the end it appends. *)
Definition insert {A : Type} (i : nat) (x : A) (l : list A) : list A :=
  firstn i l ++ x :: skipn i l.

(** [l[i] = f(l[i])] for an index in range. *)
Fixpoint adjust {A : Type} (i : nat) (f : A -> A) (l : list A) : list A :=
  match l, i with
  | [], _ => []
  | x :: l', O => f x :: l'
  | x :: l', S i' => x :: adjust i' f l'
  end.

(** [sorted(xs, key=...)] on keys already computed: ascending and stable
    (an element goes in front of the first one whose key is not smaller,
    and the elements are inserted from the last to the first). *)
Fixpoint insert_by_key {A : Type} (x : Z * A) (l : list (Z * A)) : list (Z * A) :=
  match l with
  | [] => [x]
  | y :: l' => if fst x <=? fst y then x :: y :: l' else y :: insert_by_key x l'
  end.

Fixpoint sort_by_key {A : Type} (l : list (Z * A)) : list (Z * A) :=
  match l with
  | [] => []
  | x :: l' => insert_by_key x (sort_by_key l')
  end.

(** [sorted(xs, key=key)]: the key is computed once per element and may
    raise. *)
Definition sorted {A : Type} (key : A -> result Z) (xs : list A) : result (list A) :=
  bind (comprehension (fun x => bind (key x) (fun k => Ok (k, x))) xs)
       (fun decorated => Ok (map snd (sort_by_key decorated))).

End Py.

Import Py.

Notation "x <- c1 ;; c2" := (Py.bind c1 (fun x => c2))
  (at level 61, c1 at next level, right associativity).

(** ** Configuration constants of the script *)

Definition INCLUDE_CURRENT : bool := true.
Definition LAST_SHORT : Z := 3.
Definition LAST_LONG : Z := 5.

(** ** Timeline cells

    A cell of a pitcher's timeline is either an [int] pitch count or the
    marker [NO_PITCHES] (the string ["-"]). *)

Inductive cell : Type :=
| Pitches (n : Z)
| NO_PITCHES.

(** ** sum_recents *)

(** The [while i < len(pitch_counts)] loop; [steps] is [len(pitch_counts) - i],
    the number of iterations left.  [type(pitch_counts[i]) is int] holds of a
    [Pitches] cell and of no other. *)
Fixpoint sum_recents_loop (steps : nat) (pitch_counts : list cell) (i : nat) (pitches : Z)
  : result Z :=
  match steps with
  | O => Ok pitches
  | S steps' =>
      match nth_error pitch_counts i with
      | Some (Pitches n) => sum_recents_loop steps' pitch_counts (i + 1) (pitches + n)
      | Some NO_PITCHES => sum_recents_loop steps' pitch_counts (i + 1) pitches
      | None => Raise IndexError
      end
  end.

Definition sum_recents (pitch_counts : list cell) (n_days : Z) : result Z :=
  if n_days <? 1 then
    Raise (Exception "n_days must be greater than zero")
  else if n_days >? Z.of_nat (length pitch_counts) then
    Raise (Exception "Cannot sum more games than available in player data pull")
  else
    let i := Z.to_nat (Z.of_nat (length pitch_counts) - n_days) in
    sum_recents_loop (length pitch_counts - i) pitch_counts i 0.

(** The sum of the integer cells of a list of cells. *)
Fixpoint int_cells_sum (l : list cell) : Z :=
  match l with
  | [] => 0
  | Pitches n :: l' => n + int_cells_sum l'
  | NO_PITCHES :: l' => int_cells_sum l'
  end.

(** The last [n] entries of a list. *)
Definition last_entries {A : Type} (n : nat) (l : list A) : list A :=
  skipn (length l - n) l.

(** A sentinel cell replaced by the integer 0. *)
Definition sentinel_to_zero (c : cell) : cell :=
  match c with
  | Pitches n => Pitches n
  | NO_PITCHES => Pitches 0
  end.

(** ** get_games

    [schedule] is what [statsapi.schedule] returned for the team and the
    date interval; the flag is the global [INCLUDE_CURRENT]. *)

Record schedule_game : Type := {
  status : string;
  game_id : Z;
  game_date : string;
  game_num : Z
}.

Definition get_games (include_current : bool) (schedule : list schedule_game)
  : dict (string * Z) :=
  fold_left
    (fun games game =>
       if (status game =? "Final")%string || include_current then
         set (game_id game) (game_date game, game_num game) games
       else games)
    schedule [].

(** ** get_pitch_counts

    [boxscore_data] is [statsapi.boxscore_data]; [int] is Python's [int] on
    the text of the pitch-count column. *)

Record box_pitcher : Type := {
  personId : Z;
  p : string
}.

Record boxscore : Type := {
  away_id : Z;
  home_id : Z;
  awayPitchers : list box_pitcher;
  homePitchers : list box_pitcher
}.

Section BoxScores.

Variable boxscore_data : Z -> boxscore.
Variable int : string -> result Z.

Definition team_pitchers (team_id game : Z) (box : boxscore)
  : result (list box_pitcher) :=
  if away_id box =? team_id then Ok (awayPitchers box)
  else if home_id box =? team_id then Ok (homePitchers box)
  else Raise (Exception ("Team ID not found in game " ++ str game)%string).

Definition add_pitcher (game : Z) (games_pitches : dict (list (Z * Z)))
           (pitcher : box_pitcher) : result (dict (list (Z * Z))) :=
  let player_id := personId pitcher in
  if negb (personId pitcher =? 0) then
    n_pitches <- int (p pitcher) ;;
    update game (fun l => l ++ [(player_id, n_pitches)]) games_pitches
  else Ok games_pitches.

Definition get_pitch_counts (team_id : Z) (games : dict (string * Z))
  : result (dict (list (Z * Z))) :=
  for_each
    (fun games_pitches game =>
       box_pitchers <- team_pitchers team_id game (boxscore_data game) ;;
       for_each (add_pitcher game) box_pitchers (set game [] games_pitches))
    (keys games) [].

End BoxScores.

(** ** sort_pitcher_table *)

Definition sort_pitcher_table (pitcher_games : dict (list cell)) (pitcher_starts : dict Z)
  : result (dict (list cell) * dict Z) :=
  pitchers_sorted <- sorted (fun p => item p pitcher_starts) (keys pitcher_games) ;;
  for_each
    (fun (acc : dict (list cell) * dict Z) pitcher =>
       timeline <- item pitcher pitcher_games ;;
       starts <- item pitcher pitcher_starts ;;
       Ok (set pitcher timeline (fst acc), set pitcher starts (snd acc)))
    pitchers_sorted ([], []).

(** ** build_pitcher_table *)

(** The two tables and a counter: [nth] inside a game, [counter] across
    games. *)
Definition tables : Type := (dict (list cell) * dict Z * Z)%type.

(** [pitcher_games[pitcher] = []; pitcher_starts[pitcher] = 0] for each
    pitcher. *)
Definition init_tables (pitchers : list Z) : dict (list cell) * dict Z :=
  fold_left
    (fun acc pitcher => (set pitcher [] (fst acc), set pitcher 0 (snd acc)))
    pitchers ([], []).

(** One pass of [for item in games_pitches[game]]. *)
Definition record_item (st : tables) (it : Z * Z) : result tables :=
  let '(pitcher_games, pitcher_starts, nth) := st in
  let pitcher := fst it in
  let np := snd it in
  if mem pitcher pitcher_games then
    pitcher_games' <- update pitcher (fun tl => tl ++ [Pitches np]) pitcher_games ;;
    pitcher_starts' <- (if nth =? 0
                        then update pitcher (fun n => n + 1) pitcher_starts
                        else Ok pitcher_starts) ;;
    Ok (pitcher_games', pitcher_starts', nth + 1)
  else Ok (pitcher_games, pitcher_starts, nth + 1).

(** [for pitcher in pitcher_games: if len(...) == counter: append NO_PITCHES] *)
Definition record_absent (counter : Z) (pitcher_games : dict (list cell))
  : dict (list cell) :=
  map (fun entry =>
         if Z.of_nat (length (snd entry)) =? counter
         then (fst entry, snd entry ++ [NO_PITCHES])
         else entry)
      pitcher_games.

(** One pass of [for game in games_pitches]; the dictionary is walked entry
    by entry, [snd game] being [games_pitches[game]]. *)
Definition process_game (st : tables) (game : Z * list (Z * Z)) : result tables :=
  let '(pitcher_games, pitcher_starts, counter) := st in
  st' <- for_each record_item (snd game) (pitcher_games, pitcher_starts, 0) ;;
  Ok (record_absent counter (fst (fst st')), snd (fst st'), counter + 1).

(** The tables after the games of [games_pitches] were processed, before
    the sort. *)
Definition process_games (pitchers : list Z) (games_pitches : dict (list (Z * Z)))
  : result tables :=
  for_each process_game games_pitches
           (fst (init_tables pitchers), snd (init_tables pitchers), 0).

Definition build_pitcher_table (pitchers : list Z) (games_pitches : dict (list (Z * Z)))
  : result (dict (list cell) * dict Z) :=
  st <- process_games pitchers games_pitches ;;
  sort_pitcher_table (fst (fst st)) (snd (fst st)).

(** ** pad_dates and label_dates

    [strptime s] is [datetime.strptime(s, "%Y-%m-%d")] as a day ordinal
    ([ValueError] on a malformed date); [strftime d] is [d.strftime("%m-%d")]. *)

Section Dates.

Variable strptime : string -> result Z.
Variable strftime : Z -> string.

(** The [while i < (len(dates) - 1)] loop; the loop test keeps both indices
    in range. *)
Fixpoint pad_loop (fuel : nat) (i : nat) (dates : list Z)
         (pitcher_dates : dict (list cell))
  : option (result (list Z * dict (list cell))) :=
  if Z.of_nat i <? Z.of_nat (length dates) - 1 then
    match fuel with
    | O => None
    | S fuel' =>
        match nth_error dates (i + 1), nth_error dates i with
        | Some next, Some this =>
            let diff := next - this in
            if diff >? 1 then
              let new_date := this + 1 in
              pad_loop fuel' (i + 1)
                       (insert (i + 1) new_date dates)
                       (map (fun entry =>
                               (fst entry, insert (i + 1) NO_PITCHES (snd entry)))
                            pitcher_dates)
            else pad_loop fuel' (i + 1) dates pitcher_dates
        | _, _ => Some (Raise IndexError)
        end
    end
  else Some (Ok (dates, pitcher_dates)).

Definition pad_dates (fuel : nat) (games : dict (string * Z))
           (pitcher_games : dict (list cell))
  : option (result (list Z * dict (list cell))) :=
  match comprehension (fun game => strptime (fst (snd game))) games with
  | Raise e => Some (Raise e)
  | Ok gamedays => pad_loop fuel 0 gamedays pitcher_games
  end.

(** One pass of [for i in range(len(labels))]; the first test keeps both
    indices in range, so the reads cannot fail. *)
Definition label_step (dates : list Z) (labels : list string) (i : nat)
  : list string :=
  if Z.of_nat i <? Z.of_nat (length dates) - 1 then
    match nth_error dates i, nth_error dates (i + 1) with
    | Some this, Some next =>
        if this =? next then
          adjust (i + 1) (fun s => (s ++ "(2)")%string)
                 (adjust i (fun s => (s ++ "(1)")%string) labels)
        else labels
    | _, _ => labels
    end
  else labels.

Definition label_dates (dates : list Z) : list string :=
  let labels := map strftime dates in
  fold_left (label_step dates) (seq 0 (length labels)) labels.

End Dates.

(** ** get_position

    A row of the roster [statsapi] returns: [player['position']['code']],
    [player['person']['id']] and [player['person']['fullName']]. *)

Record roster_player : Type := {
  position_code : string;
  person_id : Z;
  person_fullName : string
}.

Definition get_position (roster : list roster_player) (position_id : string)
  : list Z * dict string :=
  fold_left
    (fun acc player =>
       if (position_code player =? position_id)%string then
         let player_id := person_id player in
         (fst acc ++ [player_id], set player_id (person_fullName player) (snd acc))
       else acc)
    roster ([], []).

(** ** format_none *)

Definition format_none (n : Z) : cell :=
  if n =? 0 then NO_PITCHES else Pitches n.

(** ** print_pitches

    What [print] writes is a list of lines; a computation that prints is
    the pair of the lines written so far and its outcome, so that the lines
    written before an exception are kept. *)

Definition VERT_BREAK : string := "  ".

(** A value of a row: an [int] or a [str]. *)
Inductive value : Type :=
| Int (n : Z)
| Text (s : string).

(** A timeline cell as a value: the count, or the string ["-"]. *)
Definition cell_value (c : cell) : value :=
  match c with
  | Pitches n => Int n
  | NO_PITCHES => Text "-"
  end.

Definition printing (A : Type) : Type := (list string * result A)%type.

Definition and_then {A B : Type} (m : printing A) (k : A -> printing B) : printing B :=
  match snd m with
  | Ok a => (fst m ++ fst (k a), snd (k a))
  | Raise e => (fst m, Raise e)
  end.

Definition computed {A : Type} (r : result A) : printing A := ([], r).

Definition print (line : string) : printing unit := ([line], Ok tt).

Notation "x <~ c1 ;; c2" := (and_then c1 (fun x => c2))
  (at level 61, c1 at next level, right associativity).

(** [for x in xs: st = body(st, x)] for a body that prints. *)
Fixpoint printing_each {A S : Type} (body : S -> A -> printing S) (xs : list A) (st : S)
  : printing S :=
  match xs with
  | [] => ([], Ok st)
  | x :: xs' => and_then (body st x) (printing_each body xs')
  end.

(** [c * n] for a one-character string [c]. *)
Fixpoint times (c : ascii) (n : nat) : string :=
  match n with
  | O => EmptyString
  | S n' => String c (times c n')
  end.

(** A [str] is held as its UTF-8 encoding, and Python counts its characters,
    not its bytes: a character is a byte that is not a continuation byte
    ([10xxxxxx]), followed by its continuation bytes. *)
Definition continuation (c : ascii) : bool :=
  match c with
  | Ascii _ _ _ _ _ _ b6 b7 => b7 && negb b6
  end.

(** [len(s)]. *)
Fixpoint len (s : string) : nat :=
  match s with
  | EmptyString => O
  | String c s' => if continuation c then len s' else S (len s')
  end.

(** [s[:n]]: the first [n] characters, each with its continuation bytes. *)
Fixpoint slice_to (n : nat) (s : string) : string :=
  match s with
  | EmptyString => EmptyString
  | String c s' =>
      if continuation c then String c (slice_to n s')
      else match n with
           | O => EmptyString
           | S n' => String c (slice_to n' s')
           end
  end.

(** [format(v, "<" + str(width))]: the text of the value, then spaces up to
    the width, counted in characters. *)
Definition format_left (width : nat) (v : value) : string :=
  let text := match v with Int n => str n | Text s => s end in
  (text ++ times " " (width - len text))%string.

(** The replacement fields of [format_str], in order, each with its
    positional argument; an argument that is missing raises [IndexError],
    arguments left over are ignored. *)
Fixpoint format_fields (widths : list nat) (args : list value) : result (list string) :=
  match widths with
  | [] => Ok []
  | width :: widths' =>
      match args with
      | [] => Raise IndexError
      | v :: args' =>
          fields <- format_fields widths' args' ;;
          Ok (format_left width v :: fields)
      end
  end.

(** [" ".join(format_str).format( *args)] for the fields ["{:<w}"] of the
    widths given. *)
Definition format (widths : list nat) (args : list value) : result string :=
  fields <- format_fields widths args ;;
  Ok (String.concat " " fields).

Section Printing.

Variable strftime : Z -> string.

Definition sum_labels : list string :=
  [("Last " ++ str LAST_SHORT)%string] ++ [("Last " ++ str LAST_LONG)%string].

Definition col_labels (date_labels : list string) : list value :=
  [Text "Pitcher"] ++ map Text date_labels ++ [Text VERT_BREAK] ++ map Text sum_labels.

Definition format_str (date_labels : list string) : list nat :=
  [20%nat] ++ map (fun _ => 8%nat) date_labels ++ [1%nat]
           ++ map (fun _ => 6%nat) sum_labels.

Definition row_breaks (date_labels : list string) : list value :=
  [Text (times "-" 20)] ++ map (fun _ => Text (times "-" 8)) date_labels
                        ++ [Text VERT_BREAK]
                        ++ map (fun _ => Text (times "-" 6)) sum_labels.

(** One pass of [for pitcher in pitcher_dates]; [snd entry] is
    [pitcher_dates[pitcher]]. *)
Definition print_row (date_labels : list string)
           (pitcher_starts : dict Z) (pitcher_names : dict string)
           (starter : Z) (entry : Z * list cell) : printing Z :=
  let pitcher := fst entry in
  full_name <~ computed (item pitcher pitcher_names) ;;
  let name := slice_to 20 full_name in
  let pitch_counts := snd entry in
  short <~ computed (sum_recents pitch_counts LAST_SHORT) ;;
  long <~ computed (sum_recents pitch_counts LAST_LONG) ;;
  let row_data :=
    [Text name] ++ map cell_value pitch_counts ++ [Text VERT_BREAK]
                ++ [cell_value (format_none short)]
                ++ [cell_value (format_none long)] in
  starter' <~ (if starter =? 0 then
                 starts <~ computed (item pitcher pitcher_starts) ;;
                 if starts >? 0 then
                   line <~ computed (format (format_str date_labels)
                                            (row_breaks date_labels)) ;;
                   _ <~ print line ;;
                   ([], Ok 1)
                 else ([], Ok starter)
               else ([], Ok starter)) ;;
  line <~ computed (format (format_str date_labels) row_data) ;;
  _ <~ print line ;;
  ([], Ok starter').

Definition print_pitches (dates : list Z) (pitcher_dates : dict (list cell))
           (pitcher_starts : dict Z) (pitcher_names : dict string)
  : printing Z :=
  let date_labels := label_dates strftime dates in
  line <~ computed (format (format_str date_labels) (col_labels date_labels)) ;;
  _ <~ print line ;;
  line <~ computed (format (format_str date_labels) (row_breaks date_labels)) ;;
  _ <~ print line ;;
  printing_each (print_row date_labels pitcher_starts pitcher_names) pitcher_dates 0.

End Printing.

(** ** Vocabulary of the properties *)

(** The pitch counts a pitcher threw in one game, in lineup order. *)
Definition appearances (pitcher : Z) (items : list (Z * Z)) : list Z :=
  map snd (filter (fun it => fst it =? pitcher) items).

(** The pitcher is at lineup position 0 of the game. *)
Definition started (pitcher : Z) (items : list (Z * Z)) : bool :=
  match items with
  | [] => false
  | it :: _ => fst it =? pitcher
  end.

(** The number of games the pitcher started. *)
Definition games_started (pitcher : Z) (games_pitches : dict (list (Z * Z))) : Z :=
  Z.of_nat (length (filter (fun game => started pitcher (snd game)) games_pitches)).

(** The pitch counts a pitcher threw over the games, in game order. *)
Definition all_appearances (pitcher : Z) (games_pitches : dict (list (Z * Z)))
  : list Z :=
  flat_map (fun game => appearances pitcher (snd game)) games_pitches.

(** The cell a game contributes for a pitcher listed at most once: the
    pitch count of the appearance, or the sentinel. *)
Definition new_cell (pitcher : Z) (items : list (Z * Z)) : cell :=
  match appearances pitcher items with
  | [] => NO_PITCHES
  | np :: _ => Pitches np
  end.

(** A timeline after one pass of the game loop at [counter]. *)
Definition after_game (counter pitcher : Z) (items : list (Z * Z)) (timeline : list cell)
  : list cell :=
  let grown := timeline ++ map Pitches (appearances pitcher items) in
  if Z.of_nat (length grown) =? counter then grown ++ [NO_PITCHES] else grown.

(** A timeline after the passes of the game loop over [games_pitches],
    the first of them at [counter]. *)
Fixpoint after_games (counter pitcher : Z) (games_pitches : dict (list (Z * Z)))
         (timeline : list cell) : list cell :=
  match games_pitches with
  | [] => timeline
  | game :: games' =>
      after_games (counter + 1) pitcher games'
                  (after_game counter pitcher (snd game) timeline)
  end.

(** The start count recorded for a pitcher, 0 for a pitcher without one. *)
Definition starts_of (pitcher_starts : dict Z) (pitcher : Z) : Z :=
  match get pitcher pitcher_starts with
  | Some n => n
  | None => 0
  end.

(** The timeline recorded for a pitcher, empty for a pitcher without one. *)
Definition timeline_of (pitcher_games : dict (list cell)) (pitcher : Z) : list cell :=
  match get pitcher pitcher_games with
  | Some timeline => timeline
  | None => []
  end.

(** The pitchers in the order [sorted] gives them. *)
Definition sorted_roster (pitcher_starts : dict Z) (pitchers : list Z) : list Z :=
  map snd (sort_by_key (map (fun k => (starts_of pitcher_starts k, k)) pitchers)).

(** The order [sorted] sorts the decorated elements by. *)
Definition key_le {A : Type} (x y : Z * A) : Prop := fst x <= fst y.

(** The integer cells of a timeline, in order. *)
Fixpoint int_cells (l : list cell) : list Z :=
  match l with
  | [] => []
  | Pitches n :: l' => n :: int_cells l'
  | NO_PITCHES :: l' => int_cells l'
  end.

(** The entries of [l] at the slots [mask] flags as real ([false]); a slot
    flagged [true] is a synthetic gap day. *)
Fixpoint real_slots {A : Type} (mask : list bool) (l : list A) : list A :=
  match mask, l with
  | false :: mask', x :: l' => x :: real_slots mask' l'
  | true :: mask', _ :: l' => real_slots mask' l'
  | _, _ => []
  end.

(** The [n] days that follow day [a]. *)
Fixpoint days_after (n : nat) (a : Z) : list Z :=
  match n with
  | O => []
  | S n' => (a + 1) :: days_after n' (a + 1)
  end.

(** The slots that follow a slot dated [a] once the rest of the calendar is
    padded, each with its flag: the missing days up to the next game (flag
    [true]), that game (flag [false]), and so on. *)
Fixpoint fill_after (a : Z) (rest : list Z) : list (bool * Z) :=
  match rest with
  | [] => []
  | b :: rest' =>
      map (pair true) (days_after (Z.to_nat (b - a - 1)) a)
          ++ (false, b) :: fill_after b rest'
  end.

Definition padded (dates : list Z) : list (bool * Z) :=
  match dates with
  | [] => []
  | a :: rest => (false, a) :: fill_after a rest
  end.

(** The number of passes the [while] loop of [pad_dates] makes. *)
Definition pad_fuel (dates : list Z) : nat := length (padded dates).

(** A timeline with a sentinel put at every slot flagged [true]; cells left
    over when the mask ends stay, sentinels left over when the timeline
    ends go last. *)
Fixpoint expand (mask : list bool) (timeline : list cell) : list cell :=
  match mask with
  | [] => timeline
  | true :: mask' => NO_PITCHES :: expand mask' timeline
  | false :: mask' =>
      match timeline with
      | [] => expand mask' []
      | c :: timeline' => c :: expand mask' timeline'
      end
  end.

(** [after] is [before] with sentinels put in: every cell of [before] is
    kept, in order, and every cell put in is the sentinel. *)
Inductive sentinels_added : list cell -> list cell -> Prop :=
| sentinels_added_nil : sentinels_added [] []
| sentinels_added_keep (c : cell) (before after : list cell) :
    sentinels_added before after -> sentinels_added (c :: before) (c :: after)
| sentinels_added_put (before after : list cell) :
    sentinels_added before after -> sentinels_added before (NO_PITCHES :: after).

(** A timeline whose entries from index [k] on are expanded along [mask]. *)
Definition expand_from (k : nat) (mask : list bool) (timeline : list cell)
  : list cell :=
  firstn k timeline ++ expand mask (skipn k timeline).

(** Adjacent distinct dates are one day apart. *)
Definition dense (dates : list Z) : Prop :=
  forall (j : nat) (x y : Z),
    nth_error dates j = Some x -> nth_error dates (S j) = Some y ->
    x <> y -> y - x = 1.

(** Every slot flagged as added ([true]) lies in a gap of the days played:
    it is dated the day after the slot before it, and a later day follows
    it; the first slot is never an added one. *)
Definition added_in_gaps (mask : list bool) (dates : list Z) : Prop :=
  nth_error mask 0 <> Some true
  /\ forall j, nth_error mask (S j) = Some true ->
               exists prev next,
                 nth_error dates j = Some prev
                 /\ nth_error dates (S j) = Some (prev + 1)
                 /\ nth_error dates (S (S j)) = Some next
                 /\ prev + 1 < next.

(** Slots [i] and [i + 1] carry the same date. *)
Definition same_at (dates : list Z) (i : nat) : bool :=
  match nth_error dates i, nth_error dates (S i) with
  | Some this, Some next => this =? next
  | _, _ => false
  end.

(** The label of slot [j], dated [d], once the passes [0 .. k - 1] of the
    labelling loop are done. *)
Definition label_after (strftime : Z -> string) (dates : list Z) (k j : nat) (d : Z)
  : string :=
  (strftime d
     ++ (if match j with
            | O => false
            | S j' => same_at dates j' && (j' <? k)%nat
            end
         then "(2)" else "")
     ++ (if same_at dates j && (j <? k)%nat then "(1)" else ""))%string.

(** The schedule has at most two games on a date: a game is number 1 or 2
    of its date, so no three games share one. *)
Definition at_most_two_per_date (gamedays : list Z) : Prop :=
  forall (i j k : nat) (d : Z),
    (i < j)%nat -> (j < k)%nat ->
    nth_error gamedays i = Some d -> nth_error gamedays j = Some d ->
    nth_error gamedays k = Some d -> False.

(** The last element of a list. *)
Fixpoint last_error {A : Type} (l : list A) : option A :=
  match l with
  | [] => None
  | [x] => Some x
  | _ :: l' => last_error l'
  end.

(** ** A provider double for the examples

    [strptime] and [strftime] on the days of May 2024 (2024-05-01 has the
    ordinal 739007). *)

Module Fixture.

Definition digit (c : Ascii.ascii) : option Z :=
  let n := Z.of_nat (Ascii.nat_of_ascii c) - 48 in
  if (0 <=? n) && (n <=? 9) then Some n else None.

Definition strptime (s : string) : result Z :=
  match s with
  | String "2"%char (String "0"%char (String "2"%char (String "4"%char
      (String "-"%char (String "0"%char (String "5"%char (String "-"%char
         (String c1 (String c2 EmptyString))))))))) =>
      match digit c1, digit c2 with
      | Some a, Some b =>
          let day := 10 * a + b in
          if (1 <=? day) && (day <=? 31) then Ok (739006 + day)
          else Raise ValueError
      | _, _ => Raise ValueError
      end
  | _ => Raise ValueError
  end.

Definition strftime (d : Z) : string :=
  let day := d - 739006 in
  ("05-" ++ String (Ascii.ascii_of_nat (Z.to_nat (48 + day / 10)))
                   (String (Ascii.ascii_of_nat (Z.to_nat (48 + day mod 10)))
                           EmptyString))%string.

(** The ordinal of a day of May 2024. *)
Definition may (day : Z) : Z := 739006 + day.

(** A game of the schedule on a day of May 2024. *)
Definition game (id : Z) (date : string) (num : Z) : Z * (string * Z) :=
  (id, (date, num)).

End Fixture.

(** The line [format] gives when no argument is missing. *)
Definition line_of (widths : list nat) (args : list value) : string :=
  String.concat " " (map (fun wv => format_left (fst wv) (snd wv)) (combine widths args)).

(** The name recorded for a pitcher, empty for a pitcher without one. *)
Definition name_of (pitcher_names : dict string) (pitcher : Z) : string :=
  match get pitcher pitcher_names with
  | Some name => name
  | None => EmptyString
  end.

(** The values of the row of a pitcher: the name cut at 20 characters, the
    cells of the timeline, the break and the two trailing sums as shown. *)
Definition row_values (pitcher_names : dict string) (entry : Z * list cell)
  : list value :=
  [Text (slice_to 20 (name_of pitcher_names (fst entry)))]
    ++ map cell_value (snd entry) ++ [Text VERT_BREAK]
    ++ [cell_value (format_none
                      (int_cells_sum (last_entries (Z.to_nat LAST_SHORT) (snd entry))))]
    ++ [cell_value (format_none
                      (int_cells_sum (last_entries (Z.to_nat LAST_LONG) (snd entry))))].

(** A cell that is not a negative pitch count. *)
Definition nonneg_cell (c : cell) : Prop :=
  match c with
  | Pitches n => 0 <= n
  | NO_PITCHES => True
  end.

(** A cell that stands for no pitch thrown: the sentinel or the count 0. *)
Definition idle_cell (c : cell) : Prop := c = NO_PITCHES \/ c = Pitches 0.

(** ** A box-score double for the examples

    Game 101 is played by team 120 at team 147; every other game by team 111
    at team 147.  The first row of a pitcher list is the heading of the
    table, with the identifier 0. *)

Module BoxFixture.

Fixpoint digits (s : string) (acc : Z) : result Z :=
  match s with
  | EmptyString => Ok acc
  | String c s' =>
      match Fixture.digit c with
      | Some d => digits s' (10 * acc + d)
      | None => Raise ValueError
      end
  end.

(** [int] on the decimal numerals without sign. *)
Definition int (s : string) : result Z :=
  match s with
  | EmptyString => Raise ValueError
  | _ => digits s 0
  end.

Definition heading : box_pitcher := {| personId := 0; p := "P" |}.

Definition boxscore_data (game : Z) : boxscore :=
  {| away_id := if game =? 101 then 120 else 111;
     home_id := 147;
     awayPitchers := [heading; {| personId := 7; p := "88" |};
                      {| personId := 9; p := "14" |}];
     homePitchers := [heading; {| personId := 5; p := "101" |}] |}.

(** The pitch count of a row, 0 for a row without one. *)
Definition count (bp : box_pitcher) : Z :=
  match int (p bp) with
  | Ok n => n
  | Raise _ => 0
  end.

End BoxFixture.

(** * Properties *)

(** ** Trailing sums *)

Lemma sum_recents_loop_skipn (l : list cell) :
  forall (steps i : nat) (acc : Z),
    (i + steps = length l)%nat ->
    sum_recents_loop steps l i acc = Ok (acc + int_cells_sum (skipn i l)).
Proof.
  induction steps as [|steps IH]; intros i acc Hlen; simpl.
  - rewrite skipn_all2 by lia. simpl. f_equal. lia.
  - destruct (nth_error l i) as [c|] eqn:Hnth.
    + destruct (nth_error_split l i Hnth) as (l1 & l2 & -> & <-).
      assert (Hskip : skipn (length l1) (l1 ++ c :: l2) = c :: l2).
      { rewrite skipn_app, skipn_all, Nat.sub_diag. reflexivity. }
      assert (Hskip' : skipn (length l1 + 1) (l1 ++ c :: l2) = l2).
      { rewrite skipn_app, skipn_all2 by lia.
        replace (length l1 + 1 - length l1)%nat with 1%nat by lia. reflexivity. }
      rewrite Hskip.
      destruct c; rewrite IH by lia; rewrite Hskip'; simpl; f_equal; lia.
    + apply nth_error_None in Hnth. lia.
Qed.

Lemma int_cells_sum_sentinel_to_zero (l : list cell) :
  int_cells_sum (map sentinel_to_zero l) = int_cells_sum l.
Proof.
  induction l as [|[n|] l IH]; simpl; rewrite ?IH; reflexivity.
Qed.

Lemma sum_recents_in_range (l : list cell) (n_days : Z) :
  1 <= n_days <= Z.of_nat (length l) ->
  sum_recents l n_days = Ok (int_cells_sum (last_entries (Z.to_nat n_days) l)).
Proof.
  intros [Hlo Hhi]. unfold sum_recents, last_entries.
  destruct (n_days <? 1) eqn:E1; [apply Z.ltb_lt in E1; lia|].
  destruct (n_days >? Z.of_nat (length l)) eqn:E2; [apply Z.gtb_lt in E2; lia|].
  cbv zeta.
  replace (Z.to_nat (Z.of_nat (length l) - n_days))
    with (length l - Z.to_nat n_days)%nat by lia.
  rewrite sum_recents_loop_skipn by lia. reflexivity.
Qed.

(** C3. For a window [1 <= N <= len(timeline)], [sum_recents] returns the sum
    of the integer cells among the last [N] entries; the window has exactly
    [N] entries whatever the cells are; and the timeline with every sentinel
    replaced by the integer 0 gives the same result. *)
Theorem sum_recents_skips_sentinels (timeline : list cell) (N : Z) :
  1 <= N <= Z.of_nat (length timeline) ->
  sum_recents timeline N
    = Ok (int_cells_sum (last_entries (Z.to_nat N) timeline))
  /\ Z.of_nat (length (last_entries (Z.to_nat N) timeline)) = N
  /\ sum_recents (map sentinel_to_zero timeline) N = sum_recents timeline N.
Proof.
  intros HN. split; [|split].
  - apply sum_recents_in_range; exact HN.
  - unfold last_entries. rewrite length_skipn. lia.
  - rewrite (sum_recents_in_range timeline N HN).
    rewrite sum_recents_in_range by (rewrite length_map; exact HN).
    unfold last_entries. rewrite length_map, skipn_map.
    rewrite int_cells_sum_sentinel_to_zero. reflexivity.
Qed.

Lemma sum_recents_skips_sentinels_witness :
  sum_recents [Pitches 20; NO_PITCHES; Pitches 15; Pitches 7] 3 = Ok 22
  /\ sum_recents [Pitches 20; Pitches 0; Pitches 15; Pitches 7] 3 = Ok 22.
Proof.
  pose proof (sum_recents_skips_sentinels
                [Pitches 20; NO_PITCHES; Pitches 15; Pitches 7] 3) as H.
  destruct H as (H1 & _ & H3); [simpl; lia|].
  split.
  - rewrite H1. reflexivity.
  - simpl map in H3. rewrite H3, H1. reflexivity.
Defined.

(** Scenario C of the specification: the sentinel inside the short window
    adds nothing to the sum; the long window does not fit in four entries. *)
Example sum_recents_short_and_long :
  sum_recents [Pitches 20; NO_PITCHES; Pitches 15; Pitches 7] LAST_SHORT = Ok 22
  /\ sum_recents [Pitches 20; NO_PITCHES; Pitches 15; Pitches 7] LAST_LONG
     = Raise (Exception "Cannot sum more games than available in player data pull").
Proof. split; reflexivity. Qed.

(** C4. A window larger than the timeline makes [sum_recents] raise; no
    truncated sum is returned. *)
Theorem sum_recents_window_too_large (timeline : list cell) (N : Z) :
  N > Z.of_nat (length timeline) ->
  sum_recents timeline N
    = Raise (Exception "Cannot sum more games than available in player data pull").
Proof.
  intros HN. unfold sum_recents.
  destruct (N <? 1) eqn:E1; [apply Z.ltb_lt in E1; lia|].
  destruct (N >? Z.of_nat (length timeline)) eqn:E2; [reflexivity|].
  rewrite Z.gtb_ltb in E2. apply Z.ltb_ge in E2. lia.
Qed.

Lemma sum_recents_window_too_large_witness :
  sum_recents [Pitches 20; NO_PITCHES] 3
    = Raise (Exception "Cannot sum more games than available in player data pull").
Proof.
  apply sum_recents_window_too_large. simpl. lia.
Defined.

(** C10. A window smaller than one makes [sum_recents] raise; 0 is not
    returned. *)
Theorem sum_recents_window_not_positive (timeline : list cell) (N : Z) :
  N < 1 ->
  sum_recents timeline N = Raise (Exception "n_days must be greater than zero").
Proof.
  intros HN. unfold sum_recents.
  destruct (N <? 1) eqn:E1; [reflexivity|]. apply Z.ltb_ge in E1. lia.
Qed.

Lemma sum_recents_window_not_positive_witness :
  sum_recents [Pitches 20; NO_PITCHES] 0
    = Raise (Exception "n_days must be greater than zero").
Proof.
  apply sum_recents_window_not_positive. lia.
Defined.

(** ** The calendar padder *)

Lemma fill_after_near (a b : Z) (rest : list Z) :
  b - a <= 1 -> fill_after a (b :: rest) = (false, b) :: fill_after b rest.
Proof.
  intros H. simpl. replace (Z.to_nat (b - a - 1)) with 0%nat by lia. reflexivity.
Qed.

Lemma fill_after_gap (a b : Z) (rest : list Z) :
  b - a > 1 ->
  fill_after a (b :: rest) = (true, a + 1) :: fill_after (a + 1) (b :: rest).
Proof.
  intros H. simpl.
  replace (Z.to_nat (b - a - 1)) with (S (Z.to_nat (b - (a + 1) - 1))) by lia.
  reflexivity.
Qed.

(** The induction scheme that follows the passes of the loop. *)
Lemma fill_after_scheme (P : Z -> list Z -> list (bool * Z) -> Prop) :
  (forall a, P a [] []) ->
  (forall a b rest,
      b - a <= 1 -> P b rest (fill_after b rest) ->
      P a (b :: rest) ((false, b) :: fill_after b rest)) ->
  (forall a b rest,
      b - a > 1 -> P (a + 1) (b :: rest) (fill_after (a + 1) (b :: rest)) ->
      P a (b :: rest) ((true, a + 1) :: fill_after (a + 1) (b :: rest))) ->
  forall a rest, P a rest (fill_after a rest).
Proof.
  intros Hnil Hnear Hgap a rest. revert a.
  induction rest as [|b rest IH]; intros a; [apply Hnil|].
  remember (Z.to_nat (b - a - 1)) as n eqn:Hn. revert a Hn.
  induction n as [|n IHn]; intros a Hn.
  - rewrite fill_after_near by lia. apply Hnear; [lia|apply IH].
  - rewrite fill_after_gap by lia. apply Hgap; [lia|]. apply IHn. lia.
Qed.

Lemma insert_app_here {A : Type} (pre : list A) (x : A) (rest : list A) :
  insert (length pre) x (pre ++ rest) = pre ++ x :: rest.
Proof.
  unfold insert. rewrite firstn_app, skipn_app, Nat.sub_diag.
  rewrite firstn_all, skipn_all. simpl. rewrite app_nil_r. reflexivity.
Qed.

Lemma firstn_S_insert {A : Type} (k : nat) (x : A) (l : list A) :
  firstn (S k) (insert k x l) = firstn k l ++ [x].
Proof.
  unfold insert. rewrite firstn_app.
  destruct (Nat.le_gt_cases k (length l)) as [Hle|Hgt].
  - rewrite length_firstn, Nat.min_l by exact Hle.
    replace (S k - k)%nat with 1%nat by lia.
    rewrite (firstn_all2 (n := S k)) by (rewrite length_firstn; lia).
    reflexivity.
  - rewrite length_firstn, Nat.min_r by lia.
    rewrite (firstn_all2 (n := S k)) by (rewrite length_firstn; lia).
    rewrite skipn_all2 by lia. f_equal.
    destruct (S k - length l)%nat eqn:E; [lia|].
    simpl. rewrite firstn_nil. reflexivity.
Qed.

Lemma skipn_S_insert {A : Type} (k : nat) (x : A) (l : list A) :
  skipn (S k) (insert k x l) = skipn k l.
Proof.
  unfold insert. rewrite skipn_app.
  destruct (Nat.le_gt_cases k (length l)) as [Hle|Hgt].
  - rewrite length_firstn, Nat.min_l by exact Hle.
    replace (S k - k)%nat with 1%nat by lia.
    rewrite skipn_all2 by (rewrite length_firstn; lia). reflexivity.
  - rewrite length_firstn, Nat.min_r by lia.
    rewrite skipn_all2 by (rewrite length_firstn; lia).
    rewrite (skipn_all2 (n := k)) by lia.
    destruct (S k - length l)%nat eqn:E; [lia|]. simpl. apply skipn_nil.
Qed.

Lemma expand_from_nil (k : nat) (timeline : list cell) :
  expand_from k [] timeline = timeline.
Proof. unfold expand_from. simpl. apply firstn_skipn. Qed.

Lemma expand_from_real (k : nat) (mask : list bool) (timeline : list cell) :
  expand_from (S k) mask timeline = expand_from k (false :: mask) timeline.
Proof.
  unfold expand_from. revert timeline.
  induction k as [|k IH]; intros [|c timeline]; simpl; try reflexivity.
  - f_equal. specialize (IH timeline). simpl in IH.
    destruct timeline; exact IH.
Qed.

Lemma expand_from_synthetic (k : nat) (mask : list bool) (timeline : list cell) :
  expand_from (S k) mask (insert k NO_PITCHES timeline)
  = expand_from k (true :: mask) timeline.
Proof.
  unfold expand_from. rewrite firstn_S_insert, skipn_S_insert.
  rewrite <- app_assoc. reflexivity.
Qed.

Lemma expand_from_0 (mask : list bool) (timeline : list cell) :
  expand_from 1 mask timeline = expand (false :: mask) timeline.
Proof. rewrite expand_from_real. reflexivity. Qed.

Lemma pad_loop_exit (fuel i : nat) (dates : list Z) (pd : dict (list cell)) :
  (length dates <= i + 1)%nat ->
  pad_loop fuel i dates pd = Some (Ok (dates, pd)).
Proof.
  intros H.
  assert (E : (Z.of_nat i <? Z.of_nat (length dates) - 1) = false)
    by (apply Z.ltb_ge; lia).
  destruct fuel; simpl; rewrite E; reflexivity.
Qed.

Lemma pad_loop_pass (fuel : nat) (pre : list Z) (a b : Z) (rest : list Z)
      (pd : dict (list cell)) :
  pad_loop (S fuel) (length pre) (pre ++ a :: b :: rest) pd
  = if b - a >? 1 then
      pad_loop fuel (length (pre ++ [a])) ((pre ++ [a]) ++ (a + 1) :: b :: rest)
               (map (fun entry =>
                       (fst entry, insert (length pre + 1) NO_PITCHES (snd entry)))
                    pd)
    else pad_loop fuel (length (pre ++ [a])) ((pre ++ [a]) ++ b :: rest) pd.
Proof.
  assert (E : (Z.of_nat (length pre)
               <? Z.of_nat (length (pre ++ a :: b :: rest)) - 1) = true).
  { apply Z.ltb_lt. rewrite length_app. simpl. lia. }
  assert (Hi : nth_error (pre ++ a :: b :: rest) (length pre) = Some a).
  { rewrite nth_error_app2, Nat.sub_diag by lia. reflexivity. }
  assert (Hi1 : nth_error (pre ++ a :: b :: rest) (length pre + 1) = Some b).
  { rewrite nth_error_app2 by lia.
    replace (length pre + 1 - length pre)%nat with 1%nat by lia. reflexivity. }
  assert (Hlen : length (pre ++ [a]) = (length pre + 1)%nat).
  { rewrite length_app. reflexivity. }
  simpl pad_loop. rewrite E, Hi, Hi1, Hlen. cbv zeta.
  destruct (b - a >? 1).
  - f_equal. rewrite <- Hlen.
    replace (pre ++ a :: b :: rest) with ((pre ++ [a]) ++ b :: rest)
      by (rewrite <- app_assoc; reflexivity).
    apply insert_app_here.
  - f_equal. rewrite <- app_assoc. reflexivity.
Qed.

(** From a slot dated [a] at index [length pre], the loop pads the rest of
    the calendar and puts a sentinel in every timeline at each slot it
    adds. *)
Lemma pad_loop_fill (a : Z) (rest : list Z) :
  forall (pre : list Z) (pd : dict (list cell)) (extra : nat),
    pad_loop (length (fill_after a rest) + extra) (length pre) (pre ++ a :: rest) pd
    = Some (Ok (pre ++ a :: map snd (fill_after a rest),
                map (fun entry =>
                       (fst entry,
                        expand_from (length pre + 1)
                                    (map fst (fill_after a rest)) (snd entry)))
                    pd)).
Proof.
  apply (fill_after_scheme
           (fun a rest slots =>
              forall pre pd extra,
                pad_loop (length slots + extra) (length pre) (pre ++ a :: rest) pd
                = Some (Ok (pre ++ a :: map snd slots,
                            map (fun entry =>
                                   (fst entry,
                                    expand_from (length pre + 1)
                                                (map fst slots) (snd entry)))
                                pd)))).
  - clear. intros a pre pd extra.
    rewrite pad_loop_exit by (rewrite length_app; simpl; lia).
    simpl. do 3 f_equal.
    rewrite <- (map_id pd) at 1. apply map_ext. intros [k tl]. simpl.
    rewrite expand_from_nil. reflexivity.
  - clear. intros a b rest Hnear IH pre pd extra.
    simpl length. simpl Nat.add. rewrite pad_loop_pass.
    destruct (b - a >? 1) eqn:E; [apply Z.gtb_lt in E; lia|].
    rewrite IH. simpl. rewrite <- app_assoc. simpl. do 3 f_equal.
    apply map_ext. intros [k tl]. simpl.
    rewrite length_app. simpl.
    replace (length pre + 1 + 1)%nat with (S (length pre + 1)) by lia.
    f_equal. apply expand_from_real.
  - clear. intros a b rest Hgap IH pre pd extra.
    simpl length. simpl Nat.add. rewrite pad_loop_pass.
    destruct (b - a >? 1) eqn:E;
      [|rewrite Z.gtb_ltb in E; apply Z.ltb_ge in E; lia].
    rewrite IH. simpl. rewrite <- app_assoc. simpl. do 3 f_equal.
    rewrite map_map. apply map_ext. intros [k tl]. simpl.
    rewrite length_app. simpl.
    replace (length pre + 1 + 1)%nat with (S (length pre + 1)) by lia.
    f_equal. apply expand_from_synthetic.
Qed.

(** The whole loop: enough fuel gives the padded calendar and the expanded
    timelines. *)
Lemma pad_loop_padded (dates : list Z) (pd : dict (list cell)) (fuel : nat) :
  (pad_fuel dates <= fuel)%nat ->
  pad_loop fuel 0 dates pd
  = Some (Ok (map snd (padded dates),
              map (fun entry =>
                     (fst entry, expand (map fst (padded dates)) (snd entry)))
                  pd)).
Proof.
  intros Hfuel. destruct dates as [|a rest].
  - rewrite pad_loop_exit by (simpl; lia). simpl. do 3 f_equal.
    rewrite <- (map_id pd) at 1. apply map_ext. intros [k tl]. reflexivity.
  - unfold pad_fuel in Hfuel. simpl in Hfuel.
    replace fuel with (length (fill_after a rest) + (fuel - length (fill_after a rest)))%nat
      by lia.
    rewrite (pad_loop_fill a rest [] pd). simpl. do 3 f_equal.
    apply map_ext. intros [k tl]. simpl. f_equal. apply expand_from_0.
Qed.

Lemma real_slots_fill_after (a : Z) (rest : list Z) :
  real_slots (map fst (fill_after a rest)) (map snd (fill_after a rest)) = rest.
Proof.
  apply (fill_after_scheme
           (fun _ rest slots => real_slots (map fst slots) (map snd slots) = rest)).
  - reflexivity.
  - intros ? b ? _ IH. simpl. rewrite IH. reflexivity.
  - intros ? b ? _ IH. simpl. exact IH.
Qed.

Lemma real_slots_padded (dates : list Z) :
  real_slots (map fst (padded dates)) (map snd (padded dates)) = dates.
Proof.
  destruct dates as [|a rest]; simpl; [reflexivity|].
  rewrite real_slots_fill_after. reflexivity.
Qed.

(** A timeline with one cell per real slot, expanded along the mask. *)
Lemma expand_aligned {A : Type} (mask : list bool) :
  forall (slots : list A) (timeline : list cell),
    length mask = length slots ->
    length (real_slots mask slots) = length timeline ->
    length (expand mask timeline) = length mask
    /\ real_slots mask (expand mask timeline) = timeline
    /\ (forall j, nth_error mask j = Some true ->
                  nth_error (expand mask timeline) j = Some NO_PITCHES).
Proof.
  induction mask as [|[|] mask IH]; intros [|x slots] timeline Hlen Hreal;
    simpl in *; try discriminate.
  - destruct timeline; [|discriminate]. repeat split.
    intros [|j]; discriminate.
  - destruct (IH slots timeline) as (H1 & H2 & H3); [lia|exact Hreal|].
    repeat split; [lia|exact H2|]. intros [|j]; simpl; [reflexivity|apply H3].
  - destruct timeline as [|c timeline]; [discriminate|]. simpl in *.
    destruct (IH slots timeline) as (H1 & H2 & H3); [lia|lia|].
    repeat split; [lia|rewrite H2; reflexivity|].
    intros [|j]; simpl; [discriminate|apply H3].
Qed.

Lemma dense_single (a : Z) : dense [a].
Proof. intros [|[|j]] x y H1 H2; discriminate. Qed.

Lemma dense_cons (x y : Z) (l : list Z) :
  (x <> y -> y - x = 1) -> dense (y :: l) -> dense (x :: y :: l).
Proof.
  intros Hxy Hd [|j] u v Hu Hv Hne.
  - simpl in Hu, Hv. injection Hu as <-. injection Hv as <-. auto.
  - apply (Hd j u v); assumption.
Qed.

Lemma dense_fill_after (a : Z) (rest : list Z) :
  Sorted Z.le (a :: rest) -> dense (a :: map snd (fill_after a rest)).
Proof.
  apply (fill_after_scheme
           (fun a rest slots => Sorted Z.le (a :: rest) -> dense (a :: map snd slots))).
  - intros ? _. apply dense_single.
  - intros x b r Hnear IH Hs. simpl.
    apply Sorted_inv in Hs. destruct Hs as [Hs Hhd].
    apply HdRel_inv in Hhd.
    apply dense_cons; [lia|apply IH; exact Hs].
  - intros x b r Hgap IH Hs. simpl.
    apply Sorted_inv in Hs. destruct Hs as [Hs Hhd].
    apply dense_cons; [lia|]. apply IH.
    constructor; [exact Hs|]. constructor. lia.
Qed.

Lemma dense_padded (dates : list Z) :
  Sorted Z.le dates -> dense (map snd (padded dates)).
Proof.
  destruct dates as [|a rest]; simpl.
  - intros _ [|j] x y H; discriminate.
  - apply dense_fill_after.
Qed.

Lemma pad_dates_padded (strptime : string -> result Z) (games : dict (string * Z))
      (pitcher_games : dict (list cell)) (gamedays : list Z) (fuel : nat) :
  comprehension (fun game => strptime (fst (snd game))) games = Ok gamedays ->
  (pad_fuel gamedays <= fuel)%nat ->
  pad_dates strptime fuel games pitcher_games
  = Some (Ok (map snd (padded gamedays),
              map (fun entry =>
                     (fst entry, expand (map fst (padded gamedays)) (snd entry)))
                  pitcher_games)).
Proof.
  intros Hparse Hfuel. unfold pad_dates. rewrite Hparse.
  apply pad_loop_padded. exact Hfuel.
Qed.

Lemma comprehension_length {A B : Type} (f : A -> result B) (xs : list A) :
  forall ys, comprehension f xs = Ok ys -> length ys = length xs.
Proof.
  induction xs as [|x xs IH]; simpl; intros ys H.
  - injection H as <-. reflexivity.
  - destruct (f x); [|discriminate]. simpl in H.
    destruct (comprehension f xs) as [ys'|]; [|discriminate].
    simpl in H. injection H as <-. simpl. f_equal. apply IH. reflexivity.
Qed.

Lemma added_in_gaps_fill_after (a : Z) (rest : list Z) :
  forall j, nth_error (map fst (fill_after a rest)) j = Some true ->
            exists prev next,
              nth_error (a :: map snd (fill_after a rest)) j = Some prev
              /\ nth_error (map snd (fill_after a rest)) j = Some (prev + 1)
              /\ nth_error (map snd (fill_after a rest)) (S j) = Some next
              /\ prev + 1 < next.
Proof.
  apply (fill_after_scheme
           (fun a _ slots =>
              forall j, nth_error (map fst slots) j = Some true ->
                        exists prev next,
                          nth_error (a :: map snd slots) j = Some prev
                          /\ nth_error (map snd slots) j = Some (prev + 1)
                          /\ nth_error (map snd slots) (S j) = Some next
                          /\ prev + 1 < next)).
  - intros ? [|j]; discriminate.
  - intros x b r _ IH [|j] Hj; [discriminate|].
    simpl in Hj. destruct (IH j Hj) as (prev & next & H1 & H2 & H3 & H4).
    exists prev, next. simpl. auto.
  - intros x b r Hgap IH [|j] Hj.
    + exists x.
      destruct (Z_le_gt_dec (b - (x + 1)) 1) as [Hnear|Hfar].
      * rewrite (fill_after_near (x + 1) b r Hnear). simpl.
        exists b. repeat split. lia.
      * rewrite (fill_after_gap (x + 1) b r Hfar). simpl.
        exists (x + 1 + 1). repeat split. lia.
    + simpl in Hj. destruct (IH j Hj) as (prev & next & H1 & H2 & H3 & H4).
      exists prev, next. simpl. auto.
Qed.

Lemma added_in_gaps_padded (dates : list Z) :
  added_in_gaps (map fst (padded dates)) (map snd (padded dates)).
Proof.
  destruct dates as [|a rest]; split.
  - discriminate.
  - intros j H. destruct j; discriminate.
  - discriminate.
  - intros j Hj. simpl in Hj. destruct (added_in_gaps_fill_after a rest j Hj)
      as (prev & next & H1 & H2 & H3 & H4).
    exists prev, next. simpl. auto.
Qed.

(** C2. When the dates of the games are in chronological (non-decreasing)
    order, [pad_dates] returns a calendar that holds the dates of the games,
    in order, at the slots it did not add ([mask] flags the added ones);
    every added slot is dated the day after the slot before it and lies
    before a later day; and any two adjacent distinct dates of the calendar
    are exactly one day apart, whatever the size of the gaps in the
    input. *)
Theorem pad_dates_calendar_dense
        (strptime : string -> result Z) (games : dict (string * Z))
        (pitcher_games : dict (list cell)) (gamedays : list Z) :
  comprehension (fun game => strptime (fst (snd game))) games = Ok gamedays ->
  Sorted Z.le gamedays ->
  exists dates pitcher_dates mask,
    (forall fuel, (pad_fuel gamedays <= fuel)%nat ->
                  pad_dates strptime fuel games pitcher_games
                  = Some (Ok (dates, pitcher_dates)))
    /\ length mask = length dates
    /\ real_slots mask dates = gamedays
    /\ added_in_gaps mask dates
    /\ dense dates.
Proof.
  intros Hparse Hsorted.
  exists (map snd (padded gamedays)),
    (map (fun entry => (fst entry, expand (map fst (padded gamedays)) (snd entry)))
         pitcher_games),
    (map fst (padded gamedays)).
  split; [|split; [|split; [|split]]].
  - intros fuel Hfuel. apply (pad_dates_padded _ _ _ _ _ Hparse Hfuel).
  - rewrite !length_map. reflexivity.
  - apply real_slots_padded.
  - apply added_in_gaps_padded.
  - apply dense_padded. exact Hsorted.
Qed.

(** C1. When every timeline has one cell per game, [pad_dates] returns a
    calendar and timelines of one common length: the slots it added to the
    calendar (flagged in [mask]) hold a sentinel in every timeline, and the
    other slots hold the dates and the cells of the input, in order. *)
Theorem pad_dates_keeps_alignment
        (strptime : string -> result Z) (games : dict (string * Z))
        (pitcher_games : dict (list cell)) (gamedays : list Z) :
  comprehension (fun game => strptime (fst (snd game))) games = Ok gamedays ->
  (forall pitcher timeline,
      In (pitcher, timeline) pitcher_games -> length timeline = length games) ->
  exists dates pitcher_dates mask,
    (forall fuel, (pad_fuel gamedays <= fuel)%nat ->
                  pad_dates strptime fuel games pitcher_games
                  = Some (Ok (dates, pitcher_dates)))
    /\ (forall pitcher timeline,
           In (pitcher, timeline) pitcher_dates -> length timeline = length dates)
    /\ length mask = length dates
    /\ real_slots mask dates = gamedays
    /\ Forall2 (fun before after =>
                  fst after = fst before
                  /\ real_slots mask (snd after) = snd before
                  /\ forall j, nth_error mask j = Some true ->
                               nth_error (snd after) j = Some NO_PITCHES)
               pitcher_games pitcher_dates.
Proof.
  intros Hparse Hlen.
  pose proof (comprehension_length _ _ _ Hparse) as Hdays.
  set (mask := map fst (padded gamedays)).
  set (dates := map snd (padded gamedays)).
  assert (Hmask : length mask = length dates)
    by (unfold mask, dates; rewrite !length_map; reflexivity).
  assert (Hreal : real_slots mask dates = gamedays) by apply real_slots_padded.
  assert (Hexp : forall pitcher timeline,
             In (pitcher, timeline) pitcher_games ->
             length (expand mask timeline) = length mask
             /\ real_slots mask (expand mask timeline) = timeline
             /\ (forall j, nth_error mask j = Some true ->
                           nth_error (expand mask timeline) j = Some NO_PITCHES)).
  { intros pitcher timeline Hin. apply (expand_aligned mask dates); [exact Hmask|].
    rewrite Hreal, Hdays. symmetry. apply (Hlen pitcher). exact Hin. }
  exists dates,
    (map (fun entry => (fst entry, expand mask (snd entry))) pitcher_games), mask.
  split; [|split; [|split; [|split]]].
  - intros fuel Hfuel. apply (pad_dates_padded _ _ _ _ _ Hparse Hfuel).
  - intros pitcher timeline Hin. apply in_map_iff in Hin.
    destruct Hin as ([k tl] & Heq & Hin). simpl in Heq. injection Heq as <- <-.
    destruct (Hexp k tl Hin) as (H1 & _). lia.
  - exact Hmask.
  - exact Hreal.
  - clear Hlen. induction pitcher_games as [|[k tl] rest IH]; simpl; constructor.
    + simpl. destruct (Hexp k tl (or_introl eq_refl)) as (_ & H2 & H3).
      repeat split; assumption.
    + apply IH. intros pitcher timeline Hin. apply (Hexp pitcher). right. exact Hin.
Qed.

(** ** The date labels *)

Lemma string_app_assoc (s t u : string) :
  ((s ++ t) ++ u = s ++ t ++ u)%string.
Proof. induction s as [|c s IH]; simpl; [reflexivity|rewrite IH; reflexivity]. Qed.

Lemma string_app_empty (s : string) : (s ++ "" = s)%string.
Proof. induction s as [|c s IH]; simpl; [reflexivity|rewrite IH; reflexivity]. Qed.

Lemma nth_error_adjust {A : Type} (f : A -> A) (l : list A) :
  forall i j,
    nth_error (adjust i f l) j
    = if (j =? i)%nat then option_map f (nth_error l j) else nth_error l j.
Proof.
  induction l as [|x l IH]; intros [|i] [|j]; simpl; try reflexivity.
  - destruct (j =? i)%nat; reflexivity.
  - apply IH.
Qed.

Lemma label_step_same_at (dates : list Z) (labels : list string) (i : nat) :
  label_step dates labels i
  = if same_at dates i then
      adjust (i + 1) (fun s => (s ++ "(2)")%string)
             (adjust i (fun s => (s ++ "(1)")%string) labels)
    else labels.
Proof.
  unfold label_step, same_at. rewrite Nat.add_1_r.
  destruct (Z.of_nat i <? Z.of_nat (length dates) - 1) eqn:E.
  - destruct (nth_error dates i), (nth_error dates (S i)); reflexivity.
  - apply Z.ltb_ge in E.
    assert (H : nth_error dates (S i) = None) by (apply nth_error_None; lia).
    rewrite H. destruct (nth_error dates i); reflexivity.
Qed.

(** The labels after [k] passes of the loop. *)
Lemma label_passes (strftime : Z -> string) (dates : list Z) :
  forall k j d,
    nth_error dates j = Some d ->
    nth_error (fold_left (label_step dates) (seq 0 k) (map strftime dates)) j
    = Some (label_after strftime dates k j d).
Proof.
  induction k as [|k IH]; intros j d Hj.
  - simpl. rewrite nth_error_map, Hj. simpl. unfold label_after.
    assert (H0 : forall n, (n <? 0)%nat = false) by reflexivity.
    rewrite H0, andb_false_r.
    destruct j as [|j']; [|rewrite H0, andb_false_r];
      simpl; rewrite string_app_empty; reflexivity.
  - rewrite seq_S, fold_left_app. simpl.
    rewrite label_step_same_at.
    specialize (IH j d Hj).
    destruct (same_at dates k) eqn:Hk.
    + rewrite !nth_error_adjust, IH. unfold label_after.
      destruct (Nat.eq_dec j (k + 1)) as [->|Hne1];
        [|destruct (Nat.eq_dec j k) as [->|Hne]].
      * rewrite Nat.eqb_refl.
        replace (k + 1 =? k)%nat with false by (symmetry; apply Nat.eqb_neq; lia).
        rewrite Nat.add_1_r. simpl option_map. cbv beta. f_equal.
        rewrite Hk.
        replace (k <? k)%nat with false by (symmetry; apply Nat.ltb_ge; lia).
        replace (k <? S k)%nat with true by (symmetry; apply Nat.ltb_lt; lia).
        replace (S k <? k)%nat with false by (symmetry; apply Nat.ltb_ge; lia).
        replace (S k <? S k)%nat with false by (symmetry; apply Nat.ltb_ge; lia).
        rewrite !andb_false_r. simpl. rewrite !string_app_empty. reflexivity.
      * replace (k =? k + 1)%nat with false by (symmetry; apply Nat.eqb_neq; lia).
        rewrite Nat.eqb_refl. simpl option_map. cbv beta. f_equal.
        rewrite Hk.
        replace (k <? k)%nat with false by (symmetry; apply Nat.ltb_ge; lia).
        replace (k <? S k)%nat with true by (symmetry; apply Nat.ltb_lt; lia).
        simpl. rewrite string_app_empty.
        destruct k as [|k'].
        -- apply string_app_assoc.
        -- replace (k' <? S k')%nat with true by (symmetry; apply Nat.ltb_lt; lia).
           replace (k' <? S (S k'))%nat with true by (symmetry; apply Nat.ltb_lt; lia).
           apply string_app_assoc.
      * replace (j =? k + 1)%nat with false by (symmetry; apply Nat.eqb_neq; lia).
        replace (j =? k)%nat with false by (symmetry; apply Nat.eqb_neq; lia).
        f_equal. f_equal.
        assert (E1 : (j <? k)%nat = (j <? S k)%nat).
        { destruct (Nat.ltb_spec j k), (Nat.ltb_spec j (S k)); try reflexivity; lia. }
        rewrite E1. f_equal.
        destruct j as [|j']; [reflexivity|].
        assert (E2 : (j' <? k)%nat = (j' <? S k)%nat).
        { destruct (Nat.ltb_spec j' k), (Nat.ltb_spec j' (S k)); try reflexivity; lia. }
        rewrite E2. reflexivity.
    + rewrite IH. unfold label_after. f_equal. f_equal.
      assert (E1 : same_at dates j && (j <? k)%nat
                   = same_at dates j && (j <? S k)%nat).
      { destruct (Nat.eq_dec j k) as [->|Hne]; [rewrite Hk; reflexivity|].
        destruct (Nat.ltb_spec j k), (Nat.ltb_spec j (S k)); try reflexivity; lia. }
      rewrite E1. f_equal.
      destruct j as [|j']; [reflexivity|].
      assert (E2 : same_at dates j' && (j' <? k)%nat
                   = same_at dates j' && (j' <? S k)%nat).
      { destruct (Nat.eq_dec j' k) as [->|Hne]; [rewrite Hk; reflexivity|].
        destruct (Nat.ltb_spec j' k), (Nat.ltb_spec j' (S k)); try reflexivity; lia. }
      rewrite E2. reflexivity.
Qed.

(** The label of a slot: its date, then ["(2)"] when the slot before has the
    same date, then ["(1)"] when the slot after has the same date. *)
Lemma label_dates_nth (strftime : Z -> string) (dates : list Z) (j : nat) (d : Z) :
  nth_error dates j = Some d ->
  nth_error (label_dates strftime dates) j
  = Some (strftime d
            ++ (if match j with O => false | S j' => same_at dates j' end
                then "(2)" else "")
            ++ (if same_at dates j then "(1)" else ""))%string.
Proof.
  intros Hj. unfold label_dates. cbv zeta. rewrite length_map.
  rewrite (label_passes strftime dates (length dates) j d Hj).
  unfold label_after. f_equal.
  assert (Hlt : (j < length dates)%nat) by (apply nth_error_Some; congruence).
  replace (j <? length dates)%nat with true by (symmetry; apply Nat.ltb_lt; lia).
  rewrite andb_true_r.
  destruct j as [|j']; [reflexivity|].
  replace (j' <? length dates)%nat with true by (symmetry; apply Nat.ltb_lt; lia).
  rewrite andb_true_r. reflexivity.
Qed.

(** ** Doubleheaders *)

Lemma fill_after_app (l1 : list Z) :
  forall (a b : Z) (l2 : list Z),
    fill_after a (l1 ++ b :: l2) = fill_after a (l1 ++ [b]) ++ fill_after b l2.
Proof.
  induction l1 as [|x l1 IH]; intros a b l2; simpl.
  - rewrite <- app_assoc. reflexivity.
  - rewrite IH, <- app_assoc. reflexivity.
Qed.

Lemma last_error_snoc {A : Type} (l : list A) (x : A) :
  last_error (l ++ [x]) = Some x.
Proof.
  induction l as [|y l IH]; [reflexivity|].
  simpl. rewrite IH. destruct (l ++ [x]) eqn:E; [|reflexivity].
  destruct l; discriminate.
Qed.

(** The slots in front of the last game of a calendar: they hold the games
    before it, and the last of them is not dated like that game unless the
    game before it is. *)
Lemma fill_after_snoc (a : Z) (games : list Z) :
  forall rest d,
    games = rest ++ [d] ->
    exists slots,
      fill_after a games = slots ++ [(false, d)]
      /\ real_slots (map fst slots) (map snd slots) = rest
      /\ (last_error (a :: rest) <> Some d ->
          last_error (a :: map snd slots) <> Some d).
Proof.
  apply (fill_after_scheme
           (fun a games filled =>
              forall rest d,
                games = rest ++ [d] ->
                exists slots,
                  filled = slots ++ [(false, d)]
                  /\ real_slots (map fst slots) (map snd slots) = rest
                  /\ (last_error (a :: rest) <> Some d ->
                      last_error (a :: map snd slots) <> Some d))).
  - intros ? [|? ?] ? H; discriminate.
  - intros x b r _ IH rest d Heq.
    destruct rest as [|b' rest]; simpl in Heq.
    + injection Heq as -> ->. exists []. simpl. repeat split. auto.
    + injection Heq as <- ->.
      destruct (IH rest d eq_refl) as (slots & Hfill & Hreal & Hlast).
      exists ((false, b) :: slots). rewrite Hfill. simpl map.
      repeat split.
      * simpl. rewrite Hreal. reflexivity.
      * exact Hlast.
  - intros x b r Hgap IH rest d Heq.
    destruct (IH rest d Heq) as (slots & Hfill & Hreal & Hlast).
    exists ((true, x + 1) :: slots). rewrite Hfill. simpl map.
    repeat split; [exact Hreal|].
    intros Hx. change (last_error (x + 1 :: map snd slots) <> Some d).
    apply Hlast. destruct rest as [|b' rest].
    + simpl in Heq. injection Heq as -> ->. simpl. intros H. injection H as H. lia.
    + exact Hx.
Qed.

Lemma padded_split (before : list Z) (d : Z) (after : list Z) :
  exists slots,
    padded (before ++ d :: after) = slots ++ (false, d) :: fill_after d after
    /\ real_slots (map fst slots) (map snd slots) = before
    /\ (last_error before <> Some d -> last_error (map snd slots) <> Some d).
Proof.
  destruct before as [|a rest].
  - exists []. simpl. repeat split. auto.
  - simpl app. unfold padded. rewrite fill_after_app.
    destruct (fill_after_snoc a (rest ++ [d]) rest d eq_refl)
      as (slots & Hfill & Hreal & Hlast).
    exists ((false, a) :: slots). rewrite Hfill. simpl map.
    repeat split.
    + simpl. rewrite <- app_assoc. reflexivity.
    + simpl. rewrite Hreal. reflexivity.
    + exact Hlast.
Qed.

Lemma expand_app {A : Type} (m1 : list bool) :
  forall (o1 : list A) (t1 : list cell) (m' : list bool) (t' : list cell),
    length m1 = length o1 ->
    length (real_slots m1 o1) = length t1 ->
    expand (m1 ++ m') (t1 ++ t') = expand m1 t1 ++ expand m' t'
    /\ length (expand m1 t1) = length m1.
Proof.
  induction m1 as [|[|] m1 IH]; intros [|x o1] t1 m' t' Hlen Hreal;
    simpl in *; try discriminate.
  - destruct t1; [|discriminate]. split; reflexivity.
  - destruct (IH o1 t1 m' t') as [H1 H2]; [lia|exact Hreal|].
    rewrite H1, H2. split; reflexivity.
  - destruct t1 as [|c t1]; [discriminate|]. simpl in *.
    destruct (IH o1 t1 m' t') as [H1 H2]; [lia|lia|].
    rewrite H1, H2. split; reflexivity.
Qed.

Lemma hd_error_fill_after (d : Z) (after : list Z) :
  hd_error after <> Some d -> hd_error (map snd (fill_after d after)) <> Some d.
Proof.
  destruct after as [|y r]; [simpl; discriminate|].
  intros Hy. destruct (Z_le_gt_dec (y - d) 1) as [Hnear|Hgap].
  - rewrite fill_after_near by exact Hnear. exact Hy.
  - rewrite fill_after_gap by exact Hgap. simpl. intros H. injection H as H. lia.
Qed.

(** Two games that follow each other on one date stay next to each other
    in the calendar [pad_dates] returns: the slots in front of them hold the
    games before them, the slots behind them the games after them, and in
    every timeline the cells of the two games sit at the two slots, in the
    order of the input.  When neither the game before nor the game after is
    on that date, [label_dates] labels the two slots with the date followed
    by ["(1)"] and by ["(2)"]. *)
Lemma same_date_pair_kept
        (strptime : string -> result Z) (strftime : Z -> string)
        (games : dict (string * Z)) (pitcher_games : dict (list cell))
        (before : list Z) (d : Z) (after : list Z) :
  comprehension (fun game => strptime (fst (snd game))) games
  = Ok (before ++ d :: d :: after) ->
  exists dates pitcher_dates o1 o2 m1 m2,
    (forall fuel, (pad_fuel (before ++ d :: d :: after) <= fuel)%nat ->
                  pad_dates strptime fuel games pitcher_games
                  = Some (Ok (dates, pitcher_dates)))
    /\ dates = o1 ++ d :: d :: o2
    /\ length m1 = length o1 /\ real_slots m1 o1 = before
    /\ length m2 = length o2 /\ real_slots m2 o2 = after
    /\ Forall2 (fun entry entry' =>
                  fst entry' = fst entry
                  /\ forall t1 c1 c2 t2,
                      snd entry = t1 ++ c1 :: c2 :: t2 ->
                      length t1 = length before ->
                      exists u1 u2,
                        snd entry' = u1 ++ c1 :: c2 :: u2
                        /\ length u1 = length o1)
               pitcher_games pitcher_dates
    /\ (last_error before <> Some d -> hd_error after <> Some d ->
        nth_error (label_dates strftime dates) (length o1)
        = Some (strftime d ++ "(1)")%string
        /\ nth_error (label_dates strftime dates) (S (length o1))
           = Some (strftime d ++ "(2)")%string).
Proof.
  intros Hparse.
  destruct (padded_split before d (d :: after)) as (slots & Hpad & Hreal & Hlast).
  rewrite fill_after_near in Hpad by lia.
  set (o1 := map snd slots). set (m1 := map fst slots).
  set (o2 := map snd (fill_after d after)).
  set (m2 := map fst (fill_after d after)).
  assert (Hdates : map snd (padded (before ++ d :: d :: after)) = o1 ++ d :: d :: o2).
  { rewrite Hpad, map_app. reflexivity. }
  assert (Hmask : map fst (padded (before ++ d :: d :: after))
                  = m1 ++ false :: false :: m2).
  { rewrite Hpad, map_app. reflexivity. }
  assert (Hlen1 : length m1 = length o1)
    by (unfold m1, o1; rewrite !length_map; reflexivity).
  assert (Hreal1 : real_slots m1 o1 = before) by exact Hreal.
  assert (Hlast1 : last_error before <> Some d -> last_error o1 <> Some d)
    by exact Hlast.
  clearbody o1 m1. clear Hreal Hlast Hpad.
  exists (o1 ++ d :: d :: o2),
    (map (fun entry => (fst entry, expand (m1 ++ false :: false :: m2) (snd entry)))
         pitcher_games), o1, o2, m1, m2.
  split; [|split; [|split; [|split; [|split; [|split; [|split]]]]]].
  - intros fuel Hfuel.
    rewrite (pad_dates_padded _ _ _ _ _ Hparse Hfuel), Hdates, Hmask. reflexivity.
  - reflexivity.
  - exact Hlen1.
  - exact Hreal1.
  - unfold m2, o2. rewrite !length_map. reflexivity.
  - apply real_slots_fill_after.
  - induction pitcher_games as [|[k tl] rest IH]; simpl; constructor; [|exact IH].
    simpl. split; [reflexivity|].
    intros t1 c1 c2 t2 -> Ht1.
    destruct (expand_app m1 o1 t1 (false :: false :: m2) (c1 :: c2 :: t2))
      as [Happ Hlen]; [exact Hlen1|rewrite Hreal1; symmetry; exact Ht1|].
    exists (expand m1 t1), (expand m2 t2). split; [rewrite Happ; reflexivity|lia].
  - intros Hbefore Hafter.
    assert (Hfirst : nth_error (o1 ++ d :: d :: o2) (length o1) = Some d).
    { rewrite nth_error_app2, Nat.sub_diag by lia. reflexivity. }
    assert (Hsecond : nth_error (o1 ++ d :: d :: o2) (S (length o1)) = Some d).
    { rewrite nth_error_app2 by lia.
      replace (S (length o1) - length o1)%nat with 1%nat by lia. reflexivity. }
    assert (Hpair : same_at (o1 ++ d :: d :: o2) (length o1) = true).
    { unfold same_at. rewrite Hfirst, Hsecond. apply Z.eqb_refl. }
    assert (Hnext : same_at (o1 ++ d :: d :: o2) (S (length o1)) = false).
    { unfold same_at. rewrite Hsecond.
      destruct (nth_error (o1 ++ d :: d :: o2) (S (S (length o1)))) as [y|] eqn:E;
        [|reflexivity].
      rewrite nth_error_app2 in E by lia.
      replace (S (S (length o1)) - length o1)%nat with 2%nat in E by lia.
      simpl in E. apply Z.eqb_neq. intros <-.
      apply (hd_error_fill_after d after Hafter). fold o2.
      destruct o2; [discriminate|]. simpl in *. exact E. }
    assert (Hprev : match length o1 with
                    | O => false
                    | S j' => same_at (o1 ++ d :: d :: o2) j'
                    end = false).
    { assert (Hcases : o1 = [] \/ exists o1' x, o1 = o1' ++ [x]).
      { destruct o1 as [|z r]; [left; reflexivity|right].
        destruct (exists_last (l := z :: r)) as (o1' & x & Ho1); [discriminate|].
        exists o1', x. exact Ho1. }
      destruct Hcases as [Ho1|(o1' & x & Ho1)]; [rewrite Ho1; reflexivity|].
      - rewrite Ho1, last_length. unfold same_at.
        rewrite <- app_assoc. simpl app.
        assert (Hx : nth_error (o1' ++ x :: d :: d :: o2) (length o1') = Some x).
        { rewrite nth_error_app2, Nat.sub_diag by lia. reflexivity. }
        assert (Hd : nth_error (o1' ++ x :: d :: d :: o2) (S (length o1')) = Some d).
        { rewrite nth_error_app2 by lia.
          replace (S (length o1') - length o1')%nat with 1%nat by lia. reflexivity. }
        rewrite Hx, Hd.
        apply Z.eqb_neq. intros ->. apply (Hlast1 Hbefore).
        rewrite Ho1. apply last_error_snoc. }
    split.
    + rewrite (label_dates_nth strftime _ _ d Hfirst), Hprev, Hpair. reflexivity.
    + rewrite (label_dates_nth strftime _ _ d Hsecond), Hpair, Hnext.
      simpl. reflexivity.
Qed.

Lemma sorted_nth_error_le (l : list Z) :
  Sorted Z.le l ->
  forall i j x y,
    (i < j)%nat -> nth_error l i = Some x -> nth_error l j = Some y -> x <= y.
Proof.
  intros Hs. apply Sorted_StronglySorted in Hs; [|intros a b c; apply Z.le_trans].
  induction Hs as [|a l Hs IH Hall]; intros i j x y Hij Hi Hj.
  - destruct i; discriminate.
  - destruct j as [|j]; [lia|]. destruct i as [|i]; simpl in *.
    + injection Hi as <-. rewrite Forall_forall in Hall.
      apply Hall. apply (nth_error_In _ _ Hj).
    + apply (IH i j); [lia|assumption|assumption].
Qed.

Lemma skipn_nth_error {A : Type} (l : list A) :
  forall n x, nth_error l n = Some x -> skipn n l = x :: skipn (S n) l.
Proof.
  induction l as [|y l IH]; intros [|n] x H; try discriminate.
  - injection H as <-. reflexivity.
  - simpl in H. exact (IH n x H).
Qed.

Lemma split_at_pair {A : Type} (l : list A) (i : nat) (x y : A) :
  nth_error l i = Some x -> nth_error l (S i) = Some y ->
  l = firstn i l ++ x :: y :: skipn (S (S i)) l.
Proof.
  intros Hx Hy.
  rewrite <- (skipn_nth_error l (S i) y Hy), <- (skipn_nth_error l i x Hx).
  symmetry. apply firstn_skipn.
Qed.

Lemma last_error_nth_error {A : Type} (l : list A) :
  forall x, last_error l = Some x ->
            exists n, length l = S n /\ nth_error l n = Some x.
Proof.
  induction l as [|y l IH]; intros x H; [discriminate|].
  destruct l as [|z l].
  - injection H as <-. exists 0%nat. split; reflexivity.
  - destruct (IH x H) as (n & Hlen & Hn).
    exists (S n). split; [simpl in *; lia|exact Hn].
Qed.

(** In a chronological schedule with at most two games on a date, two games
    of one date follow each other, and neither the game before them nor the
    game after them is on that date. *)
Lemma doubleheader_adjacent (gamedays : list Z) (i j : nat) (d : Z) :
  Sorted Z.le gamedays -> at_most_two_per_date gamedays ->
  (i < j)%nat -> nth_error gamedays i = Some d -> nth_error gamedays j = Some d ->
  j = S i
  /\ last_error (firstn i gamedays) <> Some d
  /\ hd_error (skipn (S j) gamedays) <> Some d.
Proof.
  intros Hsorted Hmodel Hij Hi Hj.
  assert (Hlen : (j < length gamedays)%nat)
    by (apply nth_error_Some; rewrite Hj; discriminate).
  split; [|split].
  - destruct (Nat.eq_dec j (S i)) as [Heq|Hne]; [exact Heq|exfalso].
    destruct (nth_error gamedays (S i)) as [x|] eqn:Hx.
    + assert (d <= x) by (apply (sorted_nth_error_le _ Hsorted i (S i)); auto).
      assert (x <= d) by (apply (sorted_nth_error_le _ Hsorted (S i) j); auto; lia).
      assert (x = d) by lia. subst x.
      apply (Hmodel i (S i) j d); auto; lia.
    + apply nth_error_None in Hx. lia.
  - intros Hlast. apply last_error_nth_error in Hlast.
    destruct Hlast as (n & Hn & Hnth).
    rewrite length_firstn in Hn. rewrite nth_error_firstn in Hnth.
    destruct (Nat.ltb_spec n i) as [Hlt|Hge]; [|discriminate].
    apply (Hmodel n i j d); auto.
  - rewrite hd_error_skipn. intros Hnext.
    apply (Hmodel i j (S j) d); auto.
Qed.

(** C7. In a chronological schedule with at most two games on a date (the
    games of a doubleheader are numbered 1 and 2), any two games that share
    a date follow each other, and [pad_dates] puts no slot between them: in
    the calendar it returns the two slots dated with their day are next to
    each other, the slots in front of them hold the games before the first
    of them, the slots behind them the games after the second, and in every
    timeline the cells of the two games sit at the two slots, in the order
    of the input.  [label_dates] labels the two slots with the date followed
    by ["(1)"] and by ["(2)"], in that order. *)
Theorem doubleheader_slots_and_labels
        (strptime : string -> result Z) (strftime : Z -> string)
        (games : dict (string * Z)) (pitcher_games : dict (list cell))
        (gamedays : list Z) :
  comprehension (fun game => strptime (fst (snd game))) games = Ok gamedays ->
  Sorted Z.le gamedays ->
  at_most_two_per_date gamedays ->
  exists dates pitcher_dates,
    (forall fuel, (pad_fuel gamedays <= fuel)%nat ->
                  pad_dates strptime fuel games pitcher_games
                  = Some (Ok (dates, pitcher_dates)))
    /\ forall (i j : nat) (d : Z),
        (i < j)%nat ->
        nth_error gamedays i = Some d -> nth_error gamedays j = Some d ->
        j = S i
        /\ exists o1 o2 m1 m2,
            dates = o1 ++ d :: d :: o2
            /\ length m1 = length o1 /\ real_slots m1 o1 = firstn i gamedays
            /\ length m2 = length o2 /\ real_slots m2 o2 = skipn (S j) gamedays
            /\ Forall2 (fun entry entry' =>
                          fst entry' = fst entry
                          /\ forall ci cj,
                              nth_error (snd entry) i = Some ci ->
                              nth_error (snd entry) j = Some cj ->
                              nth_error (snd entry') (length o1) = Some ci
                              /\ nth_error (snd entry') (S (length o1)) = Some cj)
                       pitcher_games pitcher_dates
            /\ nth_error (label_dates strftime dates) (length o1)
               = Some (strftime d ++ "(1)")%string
            /\ nth_error (label_dates strftime dates) (S (length o1))
               = Some (strftime d ++ "(2)")%string.
Proof.
  intros Hparse Hsorted Hmodel.
  exists (map snd (padded gamedays)),
    (map (fun entry => (fst entry, expand (map fst (padded gamedays)) (snd entry)))
         pitcher_games).
  split; [intros fuel Hfuel; apply (pad_dates_padded _ _ _ _ _ Hparse Hfuel)|].
  intros i j d Hij Hi Hj.
  destruct (doubleheader_adjacent gamedays i j d Hsorted Hmodel Hij Hi Hj)
    as (-> & Hbefore & Hafter).
  split; [reflexivity|].
  pose proof (split_at_pair gamedays i d d Hi Hj) as Hsplit.
  assert (Hleni : length (firstn i gamedays) = i).
  { rewrite length_firstn. apply Nat.min_l.
    assert (i < length gamedays)%nat
      by (apply nth_error_Some; rewrite Hi; discriminate).
    lia. }
  destruct (same_date_pair_kept strptime strftime games pitcher_games
                                (firstn i gamedays) d (skipn (S (S i)) gamedays))
    as (dates' & pitcher_dates' & o1 & o2 & m1 & m2
        & Hrun & Hdates & Hm1 & Hr1 & Hm2 & Hr2 & Hcells & Hlabels).
  { rewrite <- Hsplit. exact Hparse. }
  rewrite <- Hsplit in Hrun.
  specialize (Hrun (pad_fuel gamedays) (le_n _)).
  rewrite (pad_dates_padded _ _ _ _ _ Hparse (le_n _)) in Hrun.
  injection Hrun as Hd Hp. rewrite Hd, Hp.
  destruct (Hlabels Hbefore Hafter) as [Hl1 Hl2].
  exists o1, o2, m1, m2.
  split; [exact Hdates|]. split; [exact Hm1|]. split; [exact Hr1|].
  split; [exact Hm2|]. split; [exact Hr2|]. split; [|split; assumption].
  eapply Forall2_impl; [|exact Hcells].
  intros entry entry' [Hkey Hpair]. split; [exact Hkey|].
  intros ci cj Hci Hcj.
  destruct (Hpair (firstn i (snd entry)) ci cj (skipn (S (S i)) (snd entry)))
    as (u1 & u2 & Hentry & Hu1).
  - apply split_at_pair; assumption.
  - rewrite Hleni, length_firstn. apply Nat.min_l.
    assert (i < length (snd entry))%nat
      by (apply nth_error_Some; rewrite Hci; discriminate).
    lia.
  - rewrite Hentry, <- Hu1. split.
    + rewrite nth_error_app2, Nat.sub_diag by lia. reflexivity.
    + rewrite nth_error_app2 by lia.
      replace (S (length u1) - length u1)%nat with 1%nat by lia. reflexivity.
Qed.

(** ** The padder on examples *)

Lemma pad_dates_calendar_dense_witness :
  exists dates pitcher_dates mask,
    (forall fuel,
        (pad_fuel [Fixture.may 1; Fixture.may 4] <= fuel)%nat ->
        pad_dates Fixture.strptime fuel
                  [Fixture.game 1 "2024-05-01" 1; Fixture.game 2 "2024-05-04" 1]
                  [(10, [Pitches 12; NO_PITCHES])]
        = Some (Ok (dates, pitcher_dates)))
    /\ length mask = length dates
    /\ real_slots mask dates = [Fixture.may 1; Fixture.may 4]
    /\ added_in_gaps mask dates
    /\ dense dates.
Proof.
  apply (pad_dates_calendar_dense
           Fixture.strptime _ _ [Fixture.may 1; Fixture.may 4]).
  - reflexivity.
  - repeat constructor. unfold Fixture.may. lia.
Defined.

Lemma pad_dates_keeps_alignment_witness :
  exists dates pitcher_dates mask,
    (forall fuel,
        (pad_fuel [Fixture.may 1; Fixture.may 4] <= fuel)%nat ->
        pad_dates Fixture.strptime fuel
                  [Fixture.game 1 "2024-05-01" 1; Fixture.game 2 "2024-05-04" 1]
                  [(10, [Pitches 12; NO_PITCHES]); (11, [NO_PITCHES; Pitches 30])]
        = Some (Ok (dates, pitcher_dates)))
    /\ (forall pitcher timeline,
           In (pitcher, timeline) pitcher_dates -> length timeline = length dates)
    /\ length mask = length dates
    /\ real_slots mask dates = [Fixture.may 1; Fixture.may 4]
    /\ Forall2 (fun before after =>
                  fst after = fst before
                  /\ real_slots mask (snd after) = snd before
                  /\ forall j, nth_error mask j = Some true ->
                               nth_error (snd after) j = Some NO_PITCHES)
               [(10, [Pitches 12; NO_PITCHES]); (11, [NO_PITCHES; Pitches 30])]
               pitcher_dates.
Proof.
  apply (pad_dates_keeps_alignment
           Fixture.strptime _ _ [Fixture.may 1; Fixture.may 4]).
  - reflexivity.
  - simpl. intros pitcher timeline [H|[H|[]]]; injection H as _ <-; reflexivity.
Defined.

(** Scenario A of the specification: five games over a week with one rest
    day in the middle give a calendar of six slots, and every timeline has a
    sentinel at the rest day. *)
Example pad_dates_one_rest_day :
  pad_dates Fixture.strptime 6
            [Fixture.game 1 "2024-05-01" 1; Fixture.game 2 "2024-05-02" 1;
             Fixture.game 3 "2024-05-03" 1; Fixture.game 4 "2024-05-05" 1;
             Fixture.game 5 "2024-05-06" 1]
            [(10, [Pitches 9; NO_PITCHES; Pitches 21; Pitches 4; NO_PITCHES]);
             (11, [NO_PITCHES; Pitches 33; NO_PITCHES; NO_PITCHES; Pitches 18])]
  = Some (Ok ([Fixture.may 1; Fixture.may 2; Fixture.may 3; Fixture.may 4;
               Fixture.may 5; Fixture.may 6],
              [(10, [Pitches 9; NO_PITCHES; Pitches 21; NO_PITCHES; Pitches 4;
                     NO_PITCHES]);
               (11, [NO_PITCHES; Pitches 33; NO_PITCHES; NO_PITCHES; NO_PITCHES;
                     Pitches 18])])).
Proof. reflexivity. Qed.

(** A gap of three days is closed one day at a time. *)
Example pad_dates_long_gap :
  pad_dates Fixture.strptime 5
            [Fixture.game 1 "2024-05-01" 1; Fixture.game 2 "2024-05-05" 1]
            [(10, [Pitches 9; Pitches 4])]
  = Some (Ok ([Fixture.may 1; Fixture.may 2; Fixture.may 3; Fixture.may 4;
               Fixture.may 5],
              [(10, [Pitches 9; NO_PITCHES; NO_PITCHES; NO_PITCHES; Pitches 4])])).
Proof. reflexivity. Qed.

Lemma doubleheader_slots_and_labels_witness :
  exists dates pitcher_dates,
    (forall fuel,
        (pad_fuel [Fixture.may 1; Fixture.may 3; Fixture.may 3; Fixture.may 4]
         <= fuel)%nat ->
        pad_dates Fixture.strptime fuel
                  [Fixture.game 1 "2024-05-01" 1; Fixture.game 2 "2024-05-03" 1;
                   Fixture.game 3 "2024-05-03" 2; Fixture.game 4 "2024-05-04" 1]
                  [(10, [Pitches 9; Pitches 14; Pitches 21; NO_PITCHES])]
        = Some (Ok (dates, pitcher_dates)))
    /\ forall (i j : nat) (d : Z),
        (i < j)%nat ->
        nth_error [Fixture.may 1; Fixture.may 3; Fixture.may 3; Fixture.may 4] i
        = Some d ->
        nth_error [Fixture.may 1; Fixture.may 3; Fixture.may 3; Fixture.may 4] j
        = Some d ->
        j = S i
        /\ exists o1 o2 m1 m2,
            dates = o1 ++ d :: d :: o2
            /\ length m1 = length o1
            /\ real_slots m1 o1
               = firstn i [Fixture.may 1; Fixture.may 3; Fixture.may 3; Fixture.may 4]
            /\ length m2 = length o2
            /\ real_slots m2 o2
               = skipn (S j)
                       [Fixture.may 1; Fixture.may 3; Fixture.may 3; Fixture.may 4]
            /\ Forall2 (fun entry entry' =>
                          fst entry' = fst entry
                          /\ forall ci cj,
                              nth_error (snd entry) i = Some ci ->
                              nth_error (snd entry) j = Some cj ->
                              nth_error (snd entry') (length o1) = Some ci
                              /\ nth_error (snd entry') (S (length o1)) = Some cj)
                       [(10, [Pitches 9; Pitches 14; Pitches 21; NO_PITCHES])]
                       pitcher_dates
            /\ nth_error (label_dates Fixture.strftime dates) (length o1)
               = Some (Fixture.strftime d ++ "(1)")%string
            /\ nth_error (label_dates Fixture.strftime dates) (S (length o1))
               = Some (Fixture.strftime d ++ "(2)")%string.
Proof.
  apply (doubleheader_slots_and_labels
           Fixture.strptime Fixture.strftime _ _
           [Fixture.may 1; Fixture.may 3; Fixture.may 3; Fixture.may 4]).
  - reflexivity.
  - repeat constructor; unfold Fixture.may; lia.
  - intros i j k d Hij Hjk Hi Hj Hk.
    assert (Hk4 : (k < length [Fixture.may 1; Fixture.may 3; Fixture.may 3;
                               Fixture.may 4])%nat)
      by (apply nth_error_Some; rewrite Hk; discriminate).
    unfold Fixture.may in *.
    destruct i as [|[|[|[|i]]]]; destruct j as [|[|[|[|j]]]];
      destruct k as [|[|[|[|k]]]]; simpl in *; try lia; congruence.
Defined.

(** The doubleheader of 3 May on the run: no slot comes between its two
    games, and 2 May, a day without a game, is added in front of them. *)
Example pad_dates_doubleheader :
  pad_dates Fixture.strptime 5
            [Fixture.game 1 "2024-05-01" 1; Fixture.game 2 "2024-05-03" 1;
             Fixture.game 3 "2024-05-03" 2; Fixture.game 4 "2024-05-04" 1]
            [(10, [Pitches 9; Pitches 14; Pitches 21; NO_PITCHES])]
  = Some (Ok ([Fixture.may 1; Fixture.may 2; Fixture.may 3; Fixture.may 3;
               Fixture.may 4],
              [(10, [Pitches 9; NO_PITCHES; Pitches 14; Pitches 21; NO_PITCHES])])).
Proof. reflexivity. Qed.

(** Scenario B of the specification: a doubleheader on the third day. *)
Example label_dates_doubleheader :
  label_dates Fixture.strftime
              [Fixture.may 1; Fixture.may 2; Fixture.may 3; Fixture.may 3;
               Fixture.may 4]
  = ["05-01"; "05-02"; "05-03(1)"; "05-03(2)"; "05-04"].
Proof. reflexivity. Qed.

(** A schedule with three games on one date is not one with at most two
    games on a date; on it the calendar keeps the three slots, and the
    labelling loop, which looks at pairs of slots, gives the second slot
    both suffixes. *)
Example three_games_on_a_date :
  pad_dates Fixture.strptime 3
            [Fixture.game 1 "2024-05-03" 1; Fixture.game 2 "2024-05-03" 2;
             Fixture.game 3 "2024-05-03" 3]
            []
  = Some (Ok ([Fixture.may 3; Fixture.may 3; Fixture.may 3], []))
  /\ label_dates Fixture.strftime [Fixture.may 3; Fixture.may 3; Fixture.may 3]
     = ["05-03(1)"; "05-03(2)(1)"; "05-03(2)"]
  /\ nth_error (label_dates Fixture.strftime
                            [Fixture.may 3; Fixture.may 3; Fixture.may 3]) 1
     <> Some (Fixture.strftime (Fixture.may 3) ++ "(1)")%string.
Proof.
  split; [reflexivity|split; [reflexivity|]].
  intros H. vm_compute in H. discriminate H.
Qed.

(** ** Dictionaries *)

Lemma get_In_keys {V : Type} (k : Z) (d : dict V) :
  In k (keys d) <-> exists v, get k d = Some v.
Proof.
  induction d as [|[k' v'] d IH]; simpl.
  - split; [intros []|intros [v H]; discriminate].
  - destruct (Z.eqb_spec k' k) as [->|Hne].
    + split; [intros _; exists v'; reflexivity|intros _; left; reflexivity].
    + rewrite <- IH. split; [intros [H|H]; [contradiction|exact H]|intros H; right; exact H].
Qed.

Lemma mem_In_keys {V : Type} (k : Z) (d : dict V) :
  mem k d = true <-> In k (keys d).
Proof.
  rewrite get_In_keys. unfold mem. destruct (get k d) as [v|].
  - split; [intros _; exists v; reflexivity|reflexivity].
  - split; [discriminate|intros [v H]; discriminate].
Qed.

Lemma map_value_absent {V : Type} (k : Z) (g : Z * V -> Z * V) (d : dict V) :
  ~ In k (keys d) -> map (fun e => if fst e =? k then g e else e) d = d.
Proof.
  induction d as [|[k' v'] d IH]; simpl; intros Hk; [reflexivity|].
  destruct (Z.eqb_spec k' k) as [->|Hne]; [exfalso; apply Hk; left; reflexivity|].
  rewrite IH; [reflexivity|]. intros H. apply Hk. right. exact H.
Qed.

(** On a dictionary, an update of the value at a key present is an update
    of its entry, in place. *)
Lemma update_present {V : Type} (k : Z) (f : V -> V) (d : dict V) :
  NoDup (keys d) -> In k (keys d) ->
  update k f d = Ok (map (fun e => if fst e =? k then (fst e, f (snd e)) else e) d).
Proof.
  unfold update, item.
  induction d as [|[k' v'] d IH]; simpl; intros Hnd Hin; [contradiction|].
  apply NoDup_cons_iff in Hnd. destruct Hnd as [Hnotin Hnd].
  destruct (Z.eqb_spec k' k) as [->|Hne].
  - simpl. rewrite ?Z.eqb_refl.
    rewrite (map_value_absent k (fun e => (fst e, f (snd e))) d Hnotin). reflexivity.
  - destruct Hin as [Heq|Hin]; [contradiction|].
    specialize (IH Hnd Hin). destruct (get k d) as [v|]; simpl in *.
    + rewrite ?(proj2 (Z.eqb_neq _ _) Hne). injection IH as IH. rewrite IH.
      reflexivity.
    + discriminate.
Qed.

Lemma set_absent {V : Type} (k : Z) (v : V) (d : dict V) :
  ~ In k (keys d) -> set k v d = d ++ [(k, v)].
Proof.
  induction d as [|[k' v'] d IH]; simpl; intros Hk; [reflexivity|].
  destruct (Z.eqb_spec k' k) as [->|Hne]; [exfalso; apply Hk; left; reflexivity|].
  rewrite IH; [reflexivity|]. intros H. apply Hk. right. exact H.
Qed.

Lemma keys_set_present {V : Type} (k : Z) (v : V) (d : dict V) :
  In k (keys d) -> keys (set k v d) = keys d.
Proof.
  induction d as [|[k' v'] d IH]; simpl; intros Hk; [contradiction|].
  destruct (Z.eqb_spec k' k) as [->|Hne]; [reflexivity|].
  simpl. f_equal. apply IH. destruct Hk as [H|H]; [contradiction|exact H].
Qed.

Lemma keys_set {V : Type} (k : Z) (v : V) (d : dict V) :
  keys (set k v d) = if mem k d then keys d else keys d ++ [k].
Proof.
  destruct (mem k d) eqn:E.
  - apply keys_set_present, mem_In_keys, E.
  - rewrite set_absent.
    + unfold keys. rewrite map_app. reflexivity.
    + intros H. apply mem_In_keys in H. congruence.
Qed.

Lemma get_map_value {V W : Type} (g : Z -> V -> W) (k : Z) (d : dict V) :
  get k (map (fun e => (fst e, g (fst e) (snd e))) d) = option_map (g k) (get k d).
Proof.
  induction d as [|[k' v'] d IH]; simpl; [reflexivity|].
  destruct (Z.eqb_spec k' k) as [->|Hne]; [reflexivity|exact IH].
Qed.

Lemma keys_map_value {V W : Type} (h : Z * V -> W) (d : dict V) :
  keys (map (fun e => (fst e, h e)) d) = keys d.
Proof. unfold keys. rewrite map_map. reflexivity. Qed.

(** ** The timeline builder *)

Lemma for_each_app {A S : Type} (body : S -> A -> result S) (xs ys : list A) :
  forall st, for_each body (xs ++ ys) st = bind (for_each body xs st) (for_each body ys).
Proof.
  induction xs as [|x xs IH]; intros st; simpl; [reflexivity|].
  destruct (body st x) as [st'|e]; simpl; [apply IH|reflexivity].
Qed.

Lemma Forall_set {V : Type} (P : Z * V -> Prop) (k : Z) (v : V) (d : dict V) :
  Forall P d -> (forall k', P (k', v)) -> Forall P (set k v d).
Proof.
  intros Hd Hv. induction d as [|[k' v'] d IH]; simpl.
  - constructor; [apply Hv|constructor].
  - apply Forall_cons_iff in Hd. destruct Hd as [Hhd Htl].
    destruct (k' =? k); constructor; auto.
Qed.

Lemma NoDup_keys_set {V : Type} (k : Z) (v : V) (d : dict V) :
  NoDup (keys d) -> NoDup (keys (set k v d)).
Proof.
  intros Hnd. rewrite keys_set. destruct (mem k d) eqn:E; [exact Hnd|].
  apply NoDup_app_remove_l with (l := []). simpl.
  apply (Permutation_NoDup (l := k :: keys d)).
  - apply Permutation_cons_append.
  - constructor; [|exact Hnd]. intros H. apply mem_In_keys in H. congruence.
Qed.

(** The tables before the first game: one entry per pitcher of the roster,
    an empty timeline and no start. *)
Lemma init_tables_spec (pitchers : list Z) :
  let pitcher_games := fst (init_tables pitchers) in
  let pitcher_starts := snd (init_tables pitchers) in
  keys pitcher_starts = keys pitcher_games
  /\ NoDup (keys pitcher_games)
  /\ (forall k, In k (keys pitcher_games) <-> In k pitchers)
  /\ Forall (fun e => snd e = []) pitcher_games
  /\ Forall (fun e => snd e = 0) pitcher_starts.
Proof.
  unfold init_tables.
  assert (H : forall (acc : dict (list cell) * dict Z),
             keys (snd acc) = keys (fst acc) ->
             NoDup (keys (fst acc)) ->
             Forall (fun e => snd e = []) (fst acc) ->
             Forall (fun e => snd e = 0) (snd acc) ->
             let r := fold_left
                        (fun acc pitcher =>
                           (set pitcher [] (fst acc), set pitcher 0 (snd acc)))
                        pitchers acc in
             keys (snd r) = keys (fst r)
             /\ NoDup (keys (fst r))
             /\ (forall k, In k (keys (fst r)) <-> In k (keys (fst acc)) \/ In k pitchers)
             /\ Forall (fun e => snd e = []) (fst r)
             /\ Forall (fun e => snd e = 0) (snd r)).
  { induction pitchers as [|q pitchers IH]; intros acc Hkeys Hnd Hg Hs; simpl.
    - repeat split; try assumption; [intros Hk; left; exact Hk|intros [Hk|[]]; exact Hk].
    - destruct (IH (set q [] (fst acc), set q 0 (snd acc)))
        as (H1 & H2 & H3 & H4 & H5); simpl.
      + rewrite !keys_set. unfold mem.
        assert (E : (exists v, get q (snd acc) = Some v)
                    <-> (exists v, get q (fst acc) = Some v)).
        { rewrite <- !get_In_keys, Hkeys. reflexivity. }
        destruct (get q (snd acc)) as [n|], (get q (fst acc)) as [tl|];
          rewrite Hkeys; try reflexivity.
        * destruct (proj1 E (ex_intro _ n eq_refl)); discriminate.
        * destruct (proj2 E (ex_intro _ tl eq_refl)); discriminate.
      + apply NoDup_keys_set, Hnd.
      + apply Forall_set; [exact Hg|reflexivity].
      + apply Forall_set; [exact Hs|reflexivity].
      + repeat split; try assumption.
        * intros Hk. apply H3 in Hk. simpl in Hk. rewrite keys_set in Hk.
          destruct Hk as [Hk|Hk]; [|right; right; exact Hk].
          destruct (mem q (fst acc)); [left; exact Hk|].
          apply in_app_or in Hk. destruct Hk as [Hk|[Hk|[]]];
            [left; exact Hk|right; left; exact Hk].
        * intros Hk. apply H3. simpl. rewrite keys_set.
          destruct Hk as [Hk|[Hk|Hk]]; [| |right; exact Hk].
          -- left. destruct (mem q (fst acc)); [exact Hk|].
             apply in_or_app. left. exact Hk.
          -- left. subst k. destruct (mem q (fst acc)) eqn:E.
             ++ apply mem_In_keys, E.
             ++ apply in_or_app. right. left. reflexivity. }
  destruct (H ([], []) eq_refl (NoDup_nil _) (Forall_nil _) (Forall_nil _))
    as (H1 & H2 & H3 & H4 & H5).
  cbv zeta. split; [exact H1|split; [exact H2|split; [|split; assumption]]].
  intros k. rewrite H3. simpl. tauto.
Qed.

Lemma tables_eq (pg pg' : dict (list cell)) (ps ps' : dict Z) (n n' : Z) :
  pg = pg' -> ps = ps' -> n = n' -> Ok (pg, ps, n) = Ok (pg', ps', n').
Proof. intros -> -> ->. reflexivity. Qed.

(** One appearance: the pitch count goes to the pitcher's timeline, and the
    first appearance of a game counts as a start. *)
Lemma record_item_spec (pitcher_games : dict (list cell)) (pitcher_starts : dict Z)
      (nth : Z) (it : Z * Z) :
  NoDup (keys pitcher_games) ->
  keys pitcher_starts = keys pitcher_games ->
  record_item (pitcher_games, pitcher_starts, nth) it
  = Ok (map (fun e =>
               (fst e,
                snd e ++ (if fst it =? fst e then [Pitches (snd it)] else [])))
            pitcher_games,
        map (fun e =>
               (fst e, snd e + (if (nth =? 0) && (fst it =? fst e) then 1 else 0)))
            pitcher_starts,
        nth + 1).
Proof.
  intros Hnd Hkeys. unfold record_item.
  assert (Hnd' : NoDup (keys pitcher_starts)) by (rewrite Hkeys; exact Hnd).
  destruct (mem (fst it) pitcher_games) eqn:E.
  - apply mem_In_keys in E.
    rewrite (update_present _ _ _ Hnd E). simpl.
    replace (if nth =? 0
             then update (fst it) (fun n => n + 1) pitcher_starts
             else Ok pitcher_starts)
      with (Ok (map (fun e =>
                       (fst e,
                        snd e + (if (nth =? 0) && (fst it =? fst e) then 1 else 0)))
                    pitcher_starts)).
    + simpl. apply tables_eq; [|reflexivity|reflexivity].
      apply map_ext. intros [k tl]. simpl.
      rewrite (Z.eqb_sym k). destruct (fst it =? k); [reflexivity|].
      rewrite app_nil_r. reflexivity.
    + destruct (nth =? 0); simpl.
      * rewrite update_present by (rewrite ?Hkeys; assumption). apply f_equal.
        apply map_ext. intros [k n]. simpl.
        rewrite (Z.eqb_sym k). destruct (fst it =? k); [reflexivity|].
        f_equal. lia.
      * apply f_equal. rewrite <- (map_id pitcher_starts) at 2.
        apply map_ext. intros [k n]. simpl. f_equal. lia.
  - assert (Hout : ~ In (fst it) (keys pitcher_games)).
    { intros H. apply mem_In_keys in H. congruence. }
    apply tables_eq; [| |reflexivity].
    + rewrite <- (map_id pitcher_games) at 1. apply map_ext_in.
      intros [k tl] Hin. simpl.
      destruct (Z.eqb_spec (fst it) k) as [Heq|Hne].
      * exfalso. apply Hout. rewrite Heq. apply (in_map fst _ _ Hin).
      * rewrite app_nil_r. reflexivity.
    + rewrite <- (map_id pitcher_starts) at 1. apply map_ext_in.
      intros [k n] Hin. simpl.
      destruct (Z.eqb_spec (fst it) k) as [Heq|Hne].
      * exfalso. apply Hout. rewrite Heq, <- Hkeys. apply (in_map fst _ _ Hin).
      * rewrite andb_false_r. f_equal. lia.
Qed.

Lemma appearances_cons (k : Z) (it : Z * Z) (items : list (Z * Z)) :
  appearances k (it :: items)
  = (if fst it =? k then [snd it] else []) ++ appearances k items.
Proof. unfold appearances. simpl. destruct (fst it =? k); reflexivity. Qed.

(** The appearances of one game. *)
Lemma record_items_spec (items : list (Z * Z)) :
  forall (pitcher_games : dict (list cell)) (pitcher_starts : dict Z) (nth : Z),
    0 <= nth ->
    NoDup (keys pitcher_games) ->
    keys pitcher_starts = keys pitcher_games ->
    for_each record_item items (pitcher_games, pitcher_starts, nth)
    = Ok (map (fun e => (fst e, snd e ++ map Pitches (appearances (fst e) items)))
              pitcher_games,
          map (fun e =>
                 (fst e,
                  snd e + (if (nth =? 0) && started (fst e) items then 1 else 0)))
              pitcher_starts,
          nth + Z.of_nat (length items)).
Proof.
  induction items as [|it items IH]; intros pg ps nth Hnth Hnd Hkeys.
  - simpl. apply tables_eq.
    + rewrite <- (map_id pg) at 1. apply map_ext. intros [k tl]. simpl.
      rewrite app_nil_r. reflexivity.
    + rewrite <- (map_id ps) at 1. apply map_ext. intros [k n]. simpl.
      rewrite andb_false_r. f_equal. lia.
    + lia.
  - change (for_each record_item (it :: items) (pg, ps, nth))
      with (bind (record_item (pg, ps, nth) it) (for_each record_item items)).
    rewrite (record_item_spec _ _ _ _ Hnd Hkeys). unfold bind at 1.
    rewrite IH.
    + apply tables_eq.
      * rewrite map_map. apply map_ext. intros [k tl]. simpl.
        rewrite appearances_cons, map_app, <- app_assoc.
        destruct (fst it =? k); reflexivity.
      * rewrite map_map. apply map_ext. intros [k n]. simpl. f_equal.
        replace (nth + 1 =? 0) with false by (symmetry; apply Z.eqb_neq; lia).
        simpl. apply Z.add_0_r.
      * change (length (it :: items)) with (S (length items)). lia.
    + lia.
    + rewrite keys_map_value. exact Hnd.
    + rewrite !keys_map_value. exact Hkeys.
Qed.

(** One pass of the game loop. *)
Lemma process_game_spec (pitcher_games : dict (list cell)) (pitcher_starts : dict Z)
      (counter : Z) (game : Z * list (Z * Z)) :
  NoDup (keys pitcher_games) ->
  keys pitcher_starts = keys pitcher_games ->
  process_game (pitcher_games, pitcher_starts, counter) game
  = Ok (map (fun e => (fst e, after_game counter (fst e) (snd game) (snd e)))
            pitcher_games,
        map (fun e =>
               (fst e, snd e + (if started (fst e) (snd game) then 1 else 0)))
            pitcher_starts,
        counter + 1).
Proof.
  intros Hnd Hkeys. unfold process_game.
  rewrite record_items_spec by (try lia; assumption). simpl.
  apply tables_eq; [|reflexivity|reflexivity].
  unfold record_absent. rewrite map_map.
  apply map_ext. intros [k tl]. simpl. unfold after_game. cbv zeta.
  destruct (Z.of_nat (length (tl ++ map Pitches (appearances k (snd game))))
            =? counter); reflexivity.
Qed.

(** The game loop. *)
Lemma process_loop_spec (games_pitches : dict (list (Z * Z))) :
  forall (pitcher_games : dict (list cell)) (pitcher_starts : dict Z) (counter : Z),
    NoDup (keys pitcher_games) ->
    keys pitcher_starts = keys pitcher_games ->
    for_each process_game games_pitches (pitcher_games, pitcher_starts, counter)
    = Ok (map (fun e => (fst e, after_games counter (fst e) games_pitches (snd e)))
              pitcher_games,
          map (fun e => (fst e, snd e + games_started (fst e) games_pitches))
              pitcher_starts,
          counter + Z.of_nat (length games_pitches)).
Proof.
  induction games_pitches as [|game games IH]; intros pg ps counter Hnd Hkeys.
  - simpl. apply tables_eq.
    + rewrite <- (map_id pg) at 1. apply map_ext. intros [k tl]. reflexivity.
    + rewrite <- (map_id ps) at 1. apply map_ext. intros [k n]. simpl.
      unfold games_started. simpl. f_equal. lia.
    + lia.
  - change (for_each process_game (game :: games) (pg, ps, counter))
      with (bind (process_game (pg, ps, counter) game) (for_each process_game games)).
    rewrite (process_game_spec _ _ _ _ Hnd Hkeys). unfold bind at 1.
    rewrite IH.
    + apply tables_eq.
      * rewrite map_map. apply map_ext. intros [k tl]. reflexivity.
      * rewrite map_map. apply map_ext. intros [k n]. simpl. f_equal.
        unfold games_started. simpl.
        destruct (started k (snd game)); simpl length; lia.
      * change (length (game :: games)) with (S (length games)). lia.
    + rewrite keys_map_value. exact Hnd.
    + rewrite !keys_map_value. exact Hkeys.
Qed.

Lemma process_games_spec (pitchers : list Z) (games_pitches : dict (list (Z * Z))) :
  process_games pitchers games_pitches
  = Ok (map (fun e => (fst e, after_games 0 (fst e) games_pitches []))
            (fst (init_tables pitchers)),
        map (fun e => (fst e, games_started (fst e) games_pitches))
            (snd (init_tables pitchers)),
        Z.of_nat (length games_pitches)).
Proof.
  destruct (init_tables_spec pitchers) as (Hkeys & Hnd & _ & Hg & Hs).
  unfold process_games. rewrite (process_loop_spec _ _ _ _ Hnd Hkeys).
  apply tables_eq; [| |lia].
  - apply map_ext_in. intros [k tl] Hin. simpl.
    rewrite Forall_forall in Hg. specialize (Hg _ Hin). simpl in Hg. subst tl.
    reflexivity.
  - apply map_ext_in. intros [k n] Hin. simpl.
    rewrite Forall_forall in Hs. specialize (Hs _ Hin). simpl in Hs. subst n.
    reflexivity.
Qed.

(** ** The stable sort *)

Section SortByKey.

Context {A : Type}.

Lemma insert_by_key_perm (x : Z * A) (l : list (Z * A)) :
  Permutation (insert_by_key x l) (x :: l).
Proof.
  induction l as [|y l IH]; simpl; [reflexivity|].
  destruct (fst x <=? fst y); [reflexivity|].
  rewrite IH. apply perm_swap.
Qed.

Lemma sort_by_key_perm (l : list (Z * A)) : Permutation (sort_by_key l) l.
Proof.
  induction l as [|x l IH]; simpl; [reflexivity|].
  rewrite insert_by_key_perm, IH. reflexivity.
Qed.

Lemma insert_by_key_sorted (x : Z * A) (l : list (Z * A)) :
  StronglySorted key_le l -> StronglySorted key_le (insert_by_key x l).
Proof.
  induction l as [|y l IH]; simpl; intros Hs.
  - constructor; constructor.
  - apply StronglySorted_inv in Hs. destruct Hs as [Hs Hall].
    destruct (Z.leb_spec (fst x) (fst y)) as [Hle|Hgt].
    + constructor; [constructor; assumption|].
      constructor; [exact Hle|].
      apply (Forall_impl (P := key_le y)); [|exact Hall].
      intros z Hz. unfold key_le in *. lia.
    + constructor; [apply IH, Hs|].
      apply (Permutation_Forall (x := x :: l)).
      * symmetry. apply insert_by_key_perm.
      * constructor; [unfold key_le; lia|exact Hall].
Qed.

Lemma sort_by_key_sorted (l : list (Z * A)) : StronglySorted key_le (sort_by_key l).
Proof.
  induction l as [|x l IH]; simpl; [constructor|].
  apply insert_by_key_sorted, IH.
Qed.

(** Stability: the elements of one key keep their order. *)
Lemma insert_by_key_filter (n : Z) (x : Z * A) (l : list (Z * A)) :
  filter (fun e => fst e =? n) (insert_by_key x l)
  = filter (fun e => fst e =? n) (x :: l).
Proof.
  induction l as [|y l IH]; [reflexivity|].
  simpl insert_by_key.
  destruct (Z.leb_spec (fst x) (fst y)) as [Hle|Hgt]; [reflexivity|].
  change (filter (fun e => fst e =? n) (y :: insert_by_key x l))
    with (if fst y =? n
          then y :: filter (fun e => fst e =? n) (insert_by_key x l)
          else filter (fun e => fst e =? n) (insert_by_key x l)).
  rewrite IH. simpl.
  destruct (Z.eqb_spec (fst y) n) as [Hy|Hy],
           (Z.eqb_spec (fst x) n) as [Hx|Hx]; try reflexivity.
  lia.
Qed.

Lemma sort_by_key_filter (n : Z) (l : list (Z * A)) :
  filter (fun e => fst e =? n) (sort_by_key l) = filter (fun e => fst e =? n) l.
Proof.
  induction l as [|x l IH]; [reflexivity|].
  simpl sort_by_key. rewrite insert_by_key_filter. simpl. rewrite IH. reflexivity.
Qed.

(** A sorted list is left as it is. *)
Lemma sort_by_key_id (l : list (Z * A)) :
  StronglySorted key_le l -> sort_by_key l = l.
Proof.
  induction l as [|x l IH]; [reflexivity|]. intros Hs.
  apply StronglySorted_inv in Hs. destruct Hs as [Hs Hall].
  simpl. rewrite (IH Hs). destruct l as [|y l]; [reflexivity|].
  simpl. apply Forall_inv in Hall. unfold key_le in Hall.
  destruct (Z.leb_spec (fst x) (fst y)); [reflexivity|lia].
Qed.

End SortByKey.

Lemma StronglySorted_nth_error {A : Type} (R : A -> A -> Prop) (l : list A) :
  StronglySorted R l ->
  forall i j a b,
    nth_error l i = Some a -> nth_error l j = Some b -> (i < j)%nat -> R a b.
Proof.
  induction 1 as [|x l Hs IH Hall]; intros i j a b Hi Hj Hlt.
  - destruct i; discriminate.
  - destruct j as [|j]; [lia|]. simpl in Hj. destruct i as [|i]; simpl in Hi.
    + injection Hi as <-. rewrite Forall_forall in Hall. apply Hall.
      apply (nth_error_In _ _ Hj).
    + apply (IH i j); [assumption|assumption|lia].
Qed.

Lemma StronglySorted_weaken {A : Type} (R R' : A -> A -> Prop) (l : list A) :
  StronglySorted R l ->
  (forall a b, In a l -> In b l -> R a b -> R' a b) ->
  StronglySorted R' l.
Proof.
  induction 1 as [|x l Hs IH Hall]; intros Himp; constructor.
  - apply IH. intros a b Ha Hb. apply Himp; right; assumption.
  - rewrite Forall_forall in *. intros y Hy.
    apply Himp; [left; reflexivity|right; exact Hy|apply Hall, Hy].
Qed.

Lemma comprehension_total {A B : Type} (f : A -> result B) (g : A -> B) (xs : list A) :
  (forall x, In x xs -> f x = Ok (g x)) -> comprehension f xs = Ok (map g xs).
Proof.
  induction xs as [|x xs IH]; intros H; simpl; [reflexivity|].
  rewrite (H x (or_introl eq_refl)). simpl.
  rewrite IH by (intros y Hy; apply H; right; exact Hy). reflexivity.
Qed.

Lemma item_starts_of (pitcher_starts : dict Z) (k : Z) :
  In k (keys pitcher_starts) -> item k pitcher_starts = Ok (starts_of pitcher_starts k).
Proof.
  intros Hin. apply get_In_keys in Hin. destruct Hin as [n Hn].
  unfold item, starts_of. rewrite Hn. reflexivity.
Qed.

Lemma item_timeline_of (pitcher_games : dict (list cell)) (k : Z) :
  In k (keys pitcher_games) -> item k pitcher_games = Ok (timeline_of pitcher_games k).
Proof.
  intros Hin. apply get_In_keys in Hin. destruct Hin as [n Hn].
  unfold item, timeline_of. rewrite Hn. reflexivity.
Qed.

Lemma sorted_roster_perm (pitcher_starts : dict Z) (pitchers : list Z) :
  Permutation (sorted_roster pitcher_starts pitchers) pitchers.
Proof.
  unfold sorted_roster. rewrite sort_by_key_perm, map_map. simpl.
  rewrite map_id. reflexivity.
Qed.

Lemma decorated_sorted (f : Z -> Z) (l : list (Z * Z)) :
  Forall (fun e => fst e = f (snd e)) l ->
  StronglySorted (fun x y => fst x <= fst y) l ->
  StronglySorted (fun a b => f a <= f b) (map snd l).
Proof.
  intros Hdec Hs. induction Hs as [|x l Hs IH Hall]; simpl; constructor.
  - apply IH. apply Forall_inv_tail in Hdec. exact Hdec.
  - apply Forall_map. rewrite Forall_forall in *. intros y Hy.
    rewrite <- (Hdec x (or_introl eq_refl)), <- (Hdec y (or_intror Hy)).
    apply Hall, Hy.
Qed.

Lemma decorated_Forall (f : Z -> Z) (pitchers : list Z) :
  Forall (fun e => fst e = f (snd e)) (sort_by_key (map (fun k => (f k, k)) pitchers)).
Proof.
  apply (Permutation_Forall (x := map (fun k => (f k, k)) pitchers)).
  - symmetry. apply sort_by_key_perm.
  - apply Forall_map. apply Forall_forall. reflexivity.
Qed.

Lemma sorted_roster_sorted (pitcher_starts : dict Z) (pitchers : list Z) :
  StronglySorted (fun a b => starts_of pitcher_starts a <= starts_of pitcher_starts b)
                 (sorted_roster pitcher_starts pitchers).
Proof.
  unfold sorted_roster. apply decorated_sorted.
  - apply decorated_Forall.
  - apply (sort_by_key_sorted (A := Z)).
Qed.

Lemma sorted_roster_stable (pitcher_starts : dict Z) (pitchers : list Z) (n : Z) :
  filter (fun k => starts_of pitcher_starts k =? n) (sorted_roster pitcher_starts pitchers)
  = filter (fun k => starts_of pitcher_starts k =? n) pitchers.
Proof.
  unfold sorted_roster.
  set (f := starts_of pitcher_starts).
  assert (Hmap : forall l : list (Z * Z),
             Forall (fun e => fst e = f (snd e)) l ->
             filter (fun k => f k =? n) (map snd l)
             = map snd (filter (fun e => fst e =? n) l)).
  { induction l as [|e l IH]; intros Hdec; [reflexivity|].
    simpl. rewrite (Forall_inv Hdec), (IH (Forall_inv_tail Hdec)).
    destruct (f (snd e) =? n); reflexivity. }
  rewrite Hmap by apply decorated_Forall.
  rewrite sort_by_key_filter.
  rewrite <- Hmap by (apply Forall_map, Forall_forall; reflexivity).
  rewrite map_map, map_id. reflexivity.
Qed.

Lemma sorted_roster_id (pitcher_starts : dict Z) (pitchers : list Z) :
  StronglySorted (fun a b => starts_of pitcher_starts a <= starts_of pitcher_starts b)
                 pitchers ->
  sorted_roster pitcher_starts pitchers = pitchers.
Proof.
  intros Hs. unfold sorted_roster. rewrite sort_by_key_id.
  - rewrite map_map, map_id. reflexivity.
  - induction Hs as [|x l Hs IH Hall]; simpl; constructor; [exact IH|].
    apply Forall_map. exact Hall.
Qed.

(** ** sort_pitcher_table *)

Lemma get_map_keys {V : Type} (g : Z -> V) (k : Z) (l : list Z) :
  get k (map (fun k' => (k', g k')) l) = if in_dec Z.eq_dec k l then Some (g k) else None.
Proof.
  induction l as [|k' l IH]; simpl; [reflexivity|].
  destruct (Z.eqb_spec k' k) as [->|Hne].
  - destruct (Z.eq_dec k k); [reflexivity|contradiction].
  - rewrite IH. destruct (Z.eq_dec k' k); [contradiction|].
    destruct (in_dec Z.eq_dec k l); reflexivity.
Qed.

Lemma keys_map_keys {V : Type} (g : Z -> V) (l : list Z) :
  keys (map (fun k => (k, g k)) l) = l.
Proof. unfold keys. rewrite map_map. simpl. apply map_id. Qed.

(** The loop that fills the two sorted tables. *)
Lemma rebuild_tables (pitcher_games : dict (list cell)) (pitcher_starts : dict Z)
      (pitchers_sorted : list Z) :
  forall (acc : dict (list cell) * dict Z),
    NoDup pitchers_sorted ->
    (forall k, In k pitchers_sorted ->
               In k (keys pitcher_games) /\ In k (keys pitcher_starts)) ->
    (forall k, In k pitchers_sorted ->
               ~ In k (keys (fst acc)) /\ ~ In k (keys (snd acc))) ->
    for_each
      (fun (acc : dict (list cell) * dict Z) pitcher =>
         timeline <- item pitcher pitcher_games ;;
         starts <- item pitcher pitcher_starts ;;
         Ok (set pitcher timeline (fst acc), set pitcher starts (snd acc)))
      pitchers_sorted acc
    = Ok (fst acc ++ map (fun k => (k, timeline_of pitcher_games k)) pitchers_sorted,
          snd acc ++ map (fun k => (k, starts_of pitcher_starts k)) pitchers_sorted).
Proof.
  induction pitchers_sorted as [|k l IH]; intros [acc_g acc_s] Hnd Hin Hout.
  - simpl. rewrite !app_nil_r. reflexivity.
  - apply NoDup_cons_iff in Hnd. destruct Hnd as [Hk Hnd].
    destruct (Hin k (or_introl eq_refl)) as [Hg Hs].
    destruct (Hout k (or_introl eq_refl)) as [Hog Hos]. simpl in Hog, Hos.
    simpl for_each.
    rewrite (item_timeline_of _ _ Hg), (item_starts_of _ _ Hs). simpl bind.
    rewrite (set_absent _ _ _ Hog), (set_absent _ _ _ Hos).
    rewrite IH.
    + simpl. rewrite <- !app_assoc. reflexivity.
    + exact Hnd.
    + intros k' Hk'. apply Hin. right. exact Hk'.
    + intros k' Hk'. destruct (Hout k' (or_intror Hk')) as [H1 H2].
      simpl in *. unfold keys in *. rewrite !map_app. simpl.
      split; intros H; apply in_app_or in H;
        destruct H as [H|[H|[]]]; try contradiction; subst k'; contradiction.
Qed.

Lemma sort_pitcher_table_spec (pitcher_games : dict (list cell)) (pitcher_starts : dict Z) :
  NoDup (keys pitcher_games) ->
  (forall k, In k (keys pitcher_games) -> In k (keys pitcher_starts)) ->
  sort_pitcher_table pitcher_games pitcher_starts
  = Ok (map (fun k => (k, timeline_of pitcher_games k))
            (sorted_roster pitcher_starts (keys pitcher_games)),
        map (fun k => (k, starts_of pitcher_starts k))
            (sorted_roster pitcher_starts (keys pitcher_games))).
Proof.
  intros Hnd Hsub. unfold sort_pitcher_table, sorted.
  rewrite (comprehension_total _ (fun k => (starts_of pitcher_starts k, k))).
  - simpl bind. fold (sorted_roster pitcher_starts (keys pitcher_games)).
    pose proof (sorted_roster_perm pitcher_starts (keys pitcher_games)) as Hperm.
    rewrite (rebuild_tables pitcher_games pitcher_starts _ ([], [])).
    + reflexivity.
    + apply (Permutation_NoDup (l := keys pitcher_games));
        [symmetry; exact Hperm|exact Hnd].
    + intros k Hk. apply (Permutation_in _ Hperm) in Hk. split; [exact Hk|].
      apply Hsub, Hk.
    + intros k _. simpl. split; intros [].
  - intros k Hk. rewrite (item_starts_of _ _ (Hsub k Hk)). reflexivity.
Qed.

(** C6. On tables with the same pitchers, [sort_pitcher_table] returns the
    pitchers in ascending order of start count, pitchers of equal start
    count in the order of the input; so a pitcher without a start comes
    before every pitcher with one, each pitcher keeps its timeline and its
    start count, and sorting the result again gives the same tables. *)
Theorem sort_pitcher_table_stable
        (pitcher_games : dict (list cell)) (pitcher_starts : dict Z) :
  NoDup (keys pitcher_games) ->
  (forall k, In k (keys pitcher_games) -> In k (keys pitcher_starts)) ->
  exists games_sorted starts_sorted,
    sort_pitcher_table pitcher_games pitcher_starts = Ok (games_sorted, starts_sorted)
    /\ keys starts_sorted = keys games_sorted
    /\ Permutation (keys games_sorted) (keys pitcher_games)
    /\ (forall k, In k (keys pitcher_games) ->
                  get k games_sorted = get k pitcher_games
                  /\ get k starts_sorted = get k pitcher_starts)
    /\ StronglySorted
         (fun a b => starts_of pitcher_starts a <= starts_of pitcher_starts b)
         (keys games_sorted)
    /\ (forall n,
           filter (fun k => starts_of pitcher_starts k =? n) (keys games_sorted)
           = filter (fun k => starts_of pitcher_starts k =? n) (keys pitcher_games))
    /\ (forall i j a b,
           nth_error (keys games_sorted) i = Some a ->
           nth_error (keys games_sorted) j = Some b ->
           starts_of pitcher_starts a = 0 -> starts_of pitcher_starts b >= 1 ->
           (i < j)%nat)
    /\ sort_pitcher_table games_sorted starts_sorted = Ok (games_sorted, starts_sorted).
Proof.
  intros Hnd Hsub.
  set (roster := sorted_roster pitcher_starts (keys pitcher_games)).
  pose proof (sorted_roster_perm pitcher_starts (keys pitcher_games)) as Hperm.
  pose proof (sorted_roster_sorted pitcher_starts (keys pitcher_games)) as Hsorted.
  fold roster in Hperm, Hsorted.
  assert (Hnd' : NoDup roster).
  { apply (Permutation_NoDup (l := keys pitcher_games));
      [symmetry; exact Hperm|exact Hnd]. }
  assert (Hstarts : forall k, In k roster ->
                              starts_of (map (fun k => (k, starts_of pitcher_starts k)) roster) k
                              = starts_of pitcher_starts k).
  { intros k Hk. unfold starts_of at 1. rewrite get_map_keys.
    destruct (in_dec Z.eq_dec k roster); [reflexivity|contradiction]. }
  assert (Htimes : forall k, In k roster ->
                             timeline_of (map (fun k => (k, timeline_of pitcher_games k)) roster) k
                             = timeline_of pitcher_games k).
  { intros k Hk. unfold timeline_of at 1. rewrite get_map_keys.
    destruct (in_dec Z.eq_dec k roster); [reflexivity|contradiction]. }
  exists (map (fun k => (k, timeline_of pitcher_games k)) roster),
    (map (fun k => (k, starts_of pitcher_starts k)) roster).
  rewrite !keys_map_keys.
  split; [|split; [|split; [|split; [|split; [|split; [|split]]]]]].
  - apply sort_pitcher_table_spec; assumption.
  - reflexivity.
  - exact Hperm.
  - intros k Hk. rewrite !get_map_keys.
    assert (Hin : In k roster) by (apply (Permutation_in _ (Permutation_sym Hperm)), Hk).
    destruct (in_dec Z.eq_dec k roster); [|contradiction].
    pose proof (item_timeline_of _ _ Hk) as H1.
    pose proof (item_starts_of _ _ (Hsub k Hk)) as H2.
    unfold item in H1, H2.
    destruct (get k pitcher_games), (get k pitcher_starts); try discriminate.
    injection H1 as <-. injection H2 as <-. split; reflexivity.
  - exact Hsorted.
  - intros n. apply sorted_roster_stable.
  - intros i j a b Hi Hj Ha Hb.
    destruct (Nat.lt_trichotomy i j) as [Hlt|[Heq|Hgt]]; [exact Hlt| |].
    + subst j. rewrite Hi in Hj. injection Hj as ->. lia.
    + pose proof (StronglySorted_nth_error _ _ Hsorted j i b a Hj Hi Hgt) as Hle.
      simpl in Hle. lia.
  - rewrite sort_pitcher_table_spec.
    + rewrite !keys_map_keys.
      assert (Hid : sorted_roster (map (fun k => (k, starts_of pitcher_starts k)) roster)
                                  roster = roster).
      { apply sorted_roster_id.
        apply (StronglySorted_weaken _ _ _ Hsorted).
        intros a b Ha Hb Hab. rewrite (Hstarts a Ha), (Hstarts b Hb). exact Hab. }
      rewrite Hid. apply f_equal. apply f_equal2.
      * apply map_ext_in. intros k Hk. rewrite (Htimes k Hk). reflexivity.
      * apply map_ext_in. intros k Hk. rewrite (Hstarts k Hk). reflexivity.
    + rewrite keys_map_keys. exact Hnd'.
    + rewrite !keys_map_keys. auto.
Qed.

Lemma sort_pitcher_table_stable_witness :
  exists games_sorted starts_sorted,
    sort_pitcher_table [(1, [Pitches 90]); (2, [Pitches 12]); (3, [Pitches 85]);
                        (4, [NO_PITCHES])]
                       [(1, 1); (2, 0); (3, 1); (4, 0)]
    = Ok (games_sorted, starts_sorted)
    /\ keys games_sorted = [2; 4; 1; 3]
    /\ sort_pitcher_table games_sorted starts_sorted = Ok (games_sorted, starts_sorted).
Proof.
  destruct (sort_pitcher_table_stable
              [(1, [Pitches 90]); (2, [Pitches 12]); (3, [Pitches 85]);
               (4, [NO_PITCHES])]
              [(1, 1); (2, 0); (3, 1); (4, 0)])
    as (games_sorted & starts_sorted & Hsort & _ & _ & _ & _ & _ & _ & Hagain).
  - repeat constructor; simpl; intuition lia.
  - intros k Hk. exact Hk.
  - exists games_sorted, starts_sorted. split; [exact Hsort|split; [|exact Hagain]].
    vm_compute in Hsort. injection Hsort as <- _. reflexivity.
Defined.

Lemma sort_pitcher_table_lookup
      (pitcher_games : dict (list cell)) (pitcher_starts : dict Z) :
  NoDup (keys pitcher_games) ->
  (forall k, In k (keys pitcher_games) -> In k (keys pitcher_starts)) ->
  exists games_sorted starts_sorted,
    sort_pitcher_table pitcher_games pitcher_starts = Ok (games_sorted, starts_sorted)
    /\ (forall k, In k (keys pitcher_games) ->
                  get k games_sorted = get k pitcher_games
                  /\ get k starts_sorted = get k pitcher_starts).
Proof.
  intros Hnd Hsub. eexists. eexists. split.
  - apply sort_pitcher_table_spec; assumption.
  - intros k Hk. rewrite !get_map_keys.
    pose proof (sorted_roster_perm pitcher_starts (keys pitcher_games)) as Hperm.
    assert (Hin : In k (sorted_roster pitcher_starts (keys pitcher_games)))
      by (apply (Permutation_in _ (Permutation_sym Hperm)), Hk).
    destruct (in_dec Z.eq_dec k _); [|contradiction].
    pose proof (item_timeline_of _ _ Hk) as H1.
    pose proof (item_starts_of _ _ (Hsub k Hk)) as H2.
    unfold item in H1, H2.
    destruct (get k pitcher_games), (get k pitcher_starts); try discriminate.
    injection H1 as <-. injection H2 as <-. split; reflexivity.
Qed.

(** ** build_pitcher_table *)

Lemma int_cells_app (l1 l2 : list cell) :
  int_cells (l1 ++ l2) = int_cells l1 ++ int_cells l2.
Proof.
  induction l1 as [|[n|] l1 IH]; simpl; rewrite ?IH; reflexivity.
Qed.

Lemma int_cells_Pitches (l : list Z) : int_cells (map Pitches l) = l.
Proof. induction l as [|n l IH]; simpl; rewrite ?IH; reflexivity. Qed.

Lemma int_cells_after_game (counter k : Z) (items : list (Z * Z)) (tl : list cell) :
  int_cells (after_game counter k items tl) = int_cells tl ++ appearances k items.
Proof.
  unfold after_game. cbv zeta.
  destruct (Z.of_nat (length (tl ++ map Pitches (appearances k items))) =? counter);
    rewrite !int_cells_app, int_cells_Pitches; simpl; rewrite ?app_nil_r; reflexivity.
Qed.

Lemma int_cells_after_games (k : Z) (games : dict (list (Z * Z))) :
  forall (counter : Z) (tl : list cell),
    int_cells (after_games counter k games tl) = int_cells tl ++ all_appearances k games.
Proof.
  induction games as [|game games IH]; intros counter tl; simpl.
  - rewrite app_nil_r. reflexivity.
  - rewrite IH, int_cells_after_game, <- app_assoc. reflexivity.
Qed.

(** A pitcher listed at most once in a game gets exactly one more cell. *)
Lemma after_game_once (counter k : Z) (items : list (Z * Z)) (tl : list cell) :
  Z.of_nat (length tl) = counter ->
  (length (appearances k items) <= 1)%nat ->
  after_game counter k items tl = tl ++ [new_cell k items].
Proof.
  intros Hlen Honce. unfold after_game, new_cell. cbv zeta.
  destruct (appearances k items) as [|np [|np' rest]]; simpl in *.
  - rewrite app_nil_r. rewrite (proj2 (Z.eqb_eq _ _) Hlen). reflexivity.
  - replace (Z.of_nat (length (tl ++ [Pitches np])) =? counter) with false;
      [reflexivity|].
    symmetry. apply Z.eqb_neq. rewrite length_app. simpl. lia.
  - lia.
Qed.

Lemma after_games_app (k : Z) (games1 games2 : dict (list (Z * Z))) :
  forall (counter : Z) (tl : list cell),
    after_games counter k (games1 ++ games2) tl
    = after_games (counter + Z.of_nat (length games1)) k games2
                  (after_games counter k games1 tl).
Proof.
  induction games1 as [|game games1 IH]; intros counter tl.
  - simpl. rewrite Z.add_0_r. reflexivity.
  - change (after_games counter k ((game :: games1) ++ games2) tl)
      with (after_games (counter + 1) k (games1 ++ games2)
                        (after_game counter k (snd game) tl)).
    rewrite IH. change (length (game :: games1)) with (S (length games1)).
    replace (counter + 1 + Z.of_nat (length games1))
      with (counter + Z.of_nat (S (length games1))) by lia.
    reflexivity.
Qed.

Lemma after_games_length (k : Z) (games : dict (list (Z * Z))) :
  forall (counter : Z) (tl : list cell),
    Z.of_nat (length tl) = counter ->
    (forall game, In game games -> (length (appearances k (snd game)) <= 1)%nat) ->
    Z.of_nat (length (after_games counter k games tl))
    = counter + Z.of_nat (length games).
Proof.
  induction games as [|game games IH]; intros counter tl Hlen Honce.
  - simpl. lia.
  - change (after_games counter k (game :: games) tl)
      with (after_games (counter + 1) k games (after_game counter k (snd game) tl)).
    rewrite IH.
    + change (length (game :: games)) with (S (length games)). lia.
    + rewrite after_game_once by (try exact Hlen; apply Honce; left; reflexivity).
      rewrite length_app. simpl. lia.
    + intros g Hg. apply Honce. right. exact Hg.
Qed.

Lemma Forall2_map_in {A B : Type} (R : A -> B -> Prop) (f : A -> B) (l : list A) :
  (forall x, In x l -> R x (f x)) -> Forall2 R l (map f l).
Proof.
  induction l as [|x l IH]; intros H; simpl; constructor.
  - apply H. left. reflexivity.
  - apply IH. intros y Hy. apply H. right. exact Hy.
Qed.

Lemma In_keys_entry {V : Type} (k : Z) (v : V) (d : dict V) :
  In (k, v) d -> In k (keys d).
Proof. intros H. apply (in_map fst _ _ H). Qed.

(** C5 (as amended). When no pitcher of the roster is listed twice in one
    game, the pass of the game loop over a game adds exactly one cell to
    every timeline (the pitch count of the pitcher's appearance, or the
    sentinel), so that after [k] games every timeline has [k] cells. *)
Theorem timelines_grow_one_cell_per_game
        (pitchers : list Z) (done : dict (list (Z * Z))) (game : Z * list (Z * Z)) :
  (forall g k,
      In g (done ++ [game]) -> In k pitchers ->
      (length (appearances k (snd g)) <= 1)%nat) ->
  exists pitcher_games pitcher_starts pitcher_games' pitcher_starts',
    process_games pitchers done
    = Ok (pitcher_games, pitcher_starts, Z.of_nat (length done))
    /\ process_game (pitcher_games, pitcher_starts, Z.of_nat (length done)) game
       = Ok (pitcher_games', pitcher_starts', Z.of_nat (length done) + 1)
    /\ process_games pitchers (done ++ [game])
       = Ok (pitcher_games', pitcher_starts', Z.of_nat (length done) + 1)
    /\ (forall k, In k (keys pitcher_games) <-> In k pitchers)
    /\ (forall k tl, In (k, tl) pitcher_games -> length tl = length done)
    /\ Forall2 (fun e e' =>
                  fst e' = fst e
                  /\ snd e' = snd e ++ [new_cell (fst e) (snd game)])
               pitcher_games pitcher_games'
    /\ (forall k tl, In (k, tl) pitcher_games' -> length tl = S (length done)).
Proof.
  intros Honce.
  destruct (init_tables_spec pitchers) as (Hkeys & Hnd & Hroster & _ & _).
  cbv zeta in Hkeys, Hnd, Hroster.
  set (pg := map (fun e => (fst e, after_games 0 (fst e) done []))
                 (fst (init_tables pitchers))).
  set (ps := map (fun e => (fst e, games_started (fst e) done))
                 (snd (init_tables pitchers))).
  assert (Hdone : process_games pitchers done = Ok (pg, ps, Z.of_nat (length done)))
    by apply process_games_spec.
  assert (Hkpg : keys pg = keys (fst (init_tables pitchers)))
    by (unfold pg; apply keys_map_value).
  assert (Hkps : keys ps = keys pg)
    by (unfold ps; rewrite keys_map_value, Hkpg; exact Hkeys).
  assert (Hndpg : NoDup (keys pg)) by (rewrite Hkpg; exact Hnd).
  assert (Hlen : forall k tl, In (k, tl) pg -> length tl = length done).
  { intros k tl Hin. assert (Hk : In k pitchers).
    { apply Hroster. rewrite <- Hkpg. apply (In_keys_entry _ _ _ Hin). }
    unfold pg in Hin. apply in_map_iff in Hin.
    destruct Hin as ([k' tl'] & Heq & _). simpl in Heq. injection Heq as -> <-.
    apply Nat2Z.inj. rewrite after_games_length; [lia|reflexivity|].
    intros g Hg. apply Honce; [apply in_or_app; left; exact Hg|exact Hk]. }
  pose proof (process_game_spec pg ps (Z.of_nat (length done)) game Hndpg Hkps)
    as Hstep.
  eexists pg, ps, _, _.
  split; [exact Hdone|split; [exact Hstep|split; [|split; [|split; [exact Hlen|split]]]]].
  - unfold process_games. rewrite for_each_app.
    fold (process_games pitchers done). rewrite Hdone. unfold bind at 1.
    exact (f_equal (fun r => bind r (for_each process_game [])) Hstep).
  - intros k. rewrite Hkpg. apply Hroster.
  - apply Forall2_map_in. intros [k tl] Hin. simpl. split; [reflexivity|].
    apply after_game_once.
    + rewrite (Hlen k tl Hin). reflexivity.
    + apply Honce; [apply in_or_app; right; left; reflexivity|].
      apply Hroster. rewrite <- Hkpg. apply (In_keys_entry _ _ _ Hin).
  - intros k tl Hin. apply in_map_iff in Hin.
    destruct Hin as ([k' tl'] & Heq & Hin). simpl in Heq. injection Heq as <- <-.
    rewrite after_game_once.
    + rewrite length_app, (Hlen k' tl' Hin). simpl. lia.
    + rewrite (Hlen k' tl' Hin). reflexivity.
    + apply Honce; [apply in_or_app; right; left; reflexivity|].
      apply Hroster. rewrite <- Hkpg. apply (In_keys_entry _ _ _ Hin).
Qed.

(** C8. For a pitcher of the roster, [build_pitcher_table] returns a start
    count equal to the number of games whose first listed appearance is the
    pitcher's, and a timeline whose integer cells are the pitch counts of the
    pitcher's appearances, in order. *)
Theorem build_pitcher_table_counts
        (pitchers : list Z) (games_pitches : dict (list (Z * Z))) (k : Z) :
  In k pitchers ->
  exists pitcher_games pitcher_starts timeline,
    build_pitcher_table pitchers games_pitches = Ok (pitcher_games, pitcher_starts)
    /\ get k pitcher_starts = Some (games_started k games_pitches)
    /\ get k pitcher_games = Some timeline
    /\ int_cells timeline = all_appearances k games_pitches.
Proof.
  intros Hk.
  destruct (init_tables_spec pitchers) as (Hkeys & Hnd & Hroster & _ & _).
  cbv zeta in Hkeys, Hnd, Hroster.
  set (pg := map (fun e => (fst e, after_games 0 (fst e) games_pitches []))
                 (fst (init_tables pitchers))).
  set (ps := map (fun e => (fst e, games_started (fst e) games_pitches))
                 (snd (init_tables pitchers))).
  assert (Hkpg : keys pg = keys (fst (init_tables pitchers)))
    by (unfold pg; apply keys_map_value).
  assert (Hkps : keys ps = keys pg)
    by (unfold ps; rewrite keys_map_value, Hkpg; exact Hkeys).
  destruct (sort_pitcher_table_lookup pg ps) as (gs & ss & Hsort & Hget).
  - rewrite Hkpg. exact Hnd.
  - intros k' Hk'. rewrite Hkps. exact Hk'.
  - assert (Hin : In k (keys pg)) by (rewrite Hkpg; apply Hroster, Hk).
    destruct (Hget k Hin) as [Hg Hs].
    assert (Hin_g : In k (keys (fst (init_tables pitchers)))) by (apply Hroster, Hk).
    assert (Hin_s : In k (keys (snd (init_tables pitchers))))
      by (rewrite Hkeys; exact Hin_g).
    apply get_In_keys in Hin_g, Hin_s.
    destruct Hin_g as [tl0 Htl0]. destruct Hin_s as [n0 Hn0].
    exists gs, ss, (after_games 0 k games_pitches []).
    split; [|split; [|split]].
    + unfold build_pitcher_table. rewrite process_games_spec. simpl. exact Hsort.
    + rewrite Hs. unfold ps.
      rewrite (get_map_value (fun k _ => games_started k games_pitches)), Hn0.
      reflexivity.
    + rewrite Hg. unfold pg.
      rewrite (get_map_value (fun k _ => after_games 0 k games_pitches [])), Htl0.
      reflexivity.
    + apply int_cells_after_games.
Qed.

Lemma timelines_grow_one_cell_per_game_witness :
  exists pitcher_games pitcher_starts pitcher_games' pitcher_starts',
    process_games [1; 2] [(100, [(1, 50); (3, 10)])]
    = Ok (pitcher_games, pitcher_starts, 1)
    /\ process_game (pitcher_games, pitcher_starts, 1) (101, [(2, 20)])
       = Ok (pitcher_games', pitcher_starts', 2)
    /\ pitcher_games = [(1, [Pitches 50]); (2, [NO_PITCHES])]
    /\ pitcher_games' = [(1, [Pitches 50; NO_PITCHES]); (2, [NO_PITCHES; Pitches 20])].
Proof.
  destruct (timelines_grow_one_cell_per_game
              [1; 2] [(100, [(1, 50); (3, 10)])] (101, [(2, 20)]))
    as (pg & ps & pg' & ps' & Hdone & Hstep & Hall & _).
  - intros g k [<-|[<-|[]]] [<-|[<-|[]]]; simpl; lia.
  - exists pg, ps, pg', ps'.
    vm_compute in Hdone. injection Hdone as <- <-.
    vm_compute in Hall. injection Hall as <- <-.
    repeat split; reflexivity.
Defined.

(** A pitcher listed twice in a game: after that one game the timeline has
    two cells. *)
Lemma pitcher_listed_twice_grows_twice :
  process_games [1] [(100, [(1, 10); (1, 5)])]
  = Ok ([(1, [Pitches 10; Pitches 5])], [(1, 1)], 1)
  /\ build_pitcher_table [1] [(100, [(1, 10); (1, 5)])]
     = Ok ([(1, [Pitches 10; Pitches 5])], [(1, 1)])
  /\ ~ (forall pitcher_games pitcher_starts counter k timeline,
           process_games [1] [(100, [(1, 10); (1, 5)])]
           = Ok (pitcher_games, pitcher_starts, counter) ->
           In (k, timeline) pitcher_games -> length timeline = 1%nat).
Proof.
  split; [reflexivity|split; [reflexivity|]].
  intros H.
  specialize (H [(1, [Pitches 10; Pitches 5])] [(1, 1)] 1 1 [Pitches 10; Pitches 5]
                eq_refl (or_introl eq_refl)).
  discriminate H.
Qed.

Lemma build_pitcher_table_counts_witness :
  exists pitcher_games pitcher_starts timeline,
    build_pitcher_table [1; 2] [(100, [(1, 50); (2, 10)]); (101, [(2, 20); (1, 5)])]
    = Ok (pitcher_games, pitcher_starts)
    /\ get 1 pitcher_starts = Some 1
    /\ get 1 pitcher_games = Some timeline
    /\ int_cells timeline = [50; 5].
Proof.
  apply (build_pitcher_table_counts
           [1; 2] [(100, [(1, 50); (2, 10)]); (101, [(2, 20); (1, 5)])] 1).
  simpl. left. reflexivity.
Defined.

(** Scenario D of the specification: a pitcher of the roster who appears in
    no game has a timeline of sentinels and no start, and sorts first. *)
Example build_pitcher_table_idle_pitcher :
  build_pitcher_table [7; 8; 9]
                      [(100, [(7, 88); (9, 14)]); (101, [(7, 60); (9, 21)])]
  = Ok ([(8, [NO_PITCHES; NO_PITCHES]);
         (9, [Pitches 14; Pitches 21]);
         (7, [Pitches 88; Pitches 60])],
        [(8, 0); (9, 0); (7, 2)]).
Proof. reflexivity. Qed.

(** ** get_games *)

Lemma get_games_keys (include_current : bool) (schedule : list schedule_game) (k : Z) :
  In k (keys (get_games include_current schedule))
  <-> exists game,
      In game schedule /\ game_id game = k
      /\ (status game =? "Final")%string || include_current = true.
Proof.
  unfold get_games.
  assert (H : forall acc : dict (string * Z),
             In k (keys (fold_left
                           (fun games game =>
                              if (status game =? "Final")%string || include_current
                              then set (game_id game) (game_date game, game_num game)
                                       games
                              else games)
                           schedule acc))
             <-> In k (keys acc)
                 \/ exists game,
                   In game schedule /\ game_id game = k
                   /\ (status game =? "Final")%string || include_current = true).
  { induction schedule as [|g schedule IH]; intros acc; simpl.
    - split; [intros H; left; exact H|intros [H|(g & [] & _)]; exact H].
    - rewrite IH. clear IH.
      destruct ((status g =? "Final")%string || include_current) eqn:E.
      + rewrite keys_set. split.
        * intros [H|(g' & Hin & Hid & Hok)].
          -- destruct (mem (game_id g) acc); [left; exact H|].
             apply in_app_or in H. destruct H as [H|[H|[]]]; [left; exact H|].
             right. exists g. auto.
          -- right. exists g'. auto.
        * intros [H|(g' & [Heq|Hin] & Hid & Hok)].
          -- left. destruct (mem (game_id g) acc); [exact H|].
             apply in_or_app. left. exact H.
          -- left. subst g' k. destruct (mem (game_id g) acc) eqn:Em.
             ++ apply mem_In_keys, Em.
             ++ apply in_or_app. right. left. reflexivity.
          -- right. exists g'. auto.
      + split.
        * intros [H|(g' & Hin & Hid & Hok)]; [left; exact H|].
          right. exists g'. auto.
        * intros [H|(g' & [Heq|Hin] & Hid & Hok)];
            [left; exact H|subst g'; congruence|].
          right. exists g'. auto. }
  rewrite H. simpl. split; [intros [[]|H']; exact H'|intros H'; right; exact H'].
Qed.

(** X3. With the flag unset the games kept are the final ones. *)
Lemma get_games_final_only (schedule : list schedule_game) (k : Z) :
  In k (keys (get_games false schedule))
  <-> exists game, In game schedule /\ game_id game = k /\ status game = "Final".
Proof.
  rewrite get_games_keys. split; intros (g & Hin & Hid & Hok); exists g;
    (split; [exact Hin|split; [exact Hid|]]).
  - rewrite orb_false_r in Hok. apply String.eqb_eq, Hok.
  - rewrite orb_false_r. apply String.eqb_eq, Hok.
Qed.

(** X4. With the flag set every game of the schedule is kept, whatever its
    status. *)
Lemma get_games_flag_set_keeps_all (schedule : list schedule_game) (game : schedule_game) :
  In game schedule -> In (game_id game) (keys (get_games true schedule)).
Proof.
  intros Hin. apply get_games_keys. exists game.
  split; [exact Hin|split; [reflexivity|apply orb_true_r]].
Qed.

(** C9 (the code departs from it). With the flag as the script sets it, a
    game that is neither final nor in progress is returned. *)
Theorem get_games_keeps_scheduled_game :
  get_games INCLUDE_CURRENT
            [ {| status := "Final"; game_id := 1;
                 game_date := "2024-05-03"; game_num := 1 |};
              {| status := "Scheduled"; game_id := 2;
                 game_date := "2024-05-04"; game_num := 1 |};
              {| status := "Postponed"; game_id := 3;
                 game_date := "2024-05-02"; game_num := 1 |} ]
  = [ (1, ("2024-05-03", 1)); (2, ("2024-05-04", 1)); (3, ("2024-05-02", 1)) ].
Proof. reflexivity. Qed.

(** ** get_pitch_counts *)

(** The entry of a game lists the team's pitchers of the box score in
    order, the rows with the reserved identifier 0 left out; the first real
    pitcher is therefore at position 0. *)
Lemma get_pitch_counts_one_game
      (boxscore_data : Z -> boxscore) (int : string -> result Z)
      (team_id game : Z) (date : string) (num : Z)
      (box_pitchers : list box_pitcher) (count : box_pitcher -> Z) :
  team_pitchers team_id game (boxscore_data game) = Ok box_pitchers ->
  (forall bp, In bp box_pitchers -> personId bp <> 0 -> int (p bp) = Ok (count bp)) ->
  get_pitch_counts boxscore_data int team_id [(game, (date, num))]
  = Ok [(game,
         map (fun bp => (personId bp, count bp))
             (filter (fun bp => negb (personId bp =? 0)) box_pitchers))].
Proof.
  intros Hteam Hint. unfold get_pitch_counts. simpl. rewrite Hteam. simpl.
  assert (H : forall entries,
             for_each (add_pitcher int game) box_pitchers [(game, entries)]
             = Ok [(game,
                    entries
                      ++ map (fun bp => (personId bp, count bp))
                             (filter (fun bp => negb (personId bp =? 0))
                                     box_pitchers))]).
  { clear Hteam. revert Hint.
    induction box_pitchers as [|bp bps IH]; intros Hint entries; simpl.
    - rewrite app_nil_r. reflexivity.
    - assert (Hint' : forall bp', In bp' bps -> personId bp' <> 0 ->
                                  int (p bp') = Ok (count bp'))
        by (intros bp' Hin; apply Hint; right; exact Hin).
      unfold add_pitcher at 1.
      destruct (Z.eqb_spec (personId bp) 0) as [Hz|Hnz]; simpl.
      + apply (IH Hint').
      + rewrite (Hint bp (or_introl eq_refl) Hnz). simpl.
        unfold update, item. simpl. rewrite ?Z.eqb_refl. simpl.
        rewrite ?Z.eqb_refl. rewrite (IH Hint').
        rewrite <- app_assoc. reflexivity. }
  rewrite (H []). reflexivity.
Qed.

(** * Further properties of the script *)

(** ** Dictionary assignment and lookup *)

Lemma get_set_same {V : Type} (k : Z) (v : V) (d : dict V) :
  get k (set k v d) = Some v.
Proof.
  induction d as [|[k' v'] d IH]; simpl.
  - rewrite Z.eqb_refl. reflexivity.
  - destruct (Z.eqb_spec k' k) as [->|Hne]; simpl.
    + rewrite Z.eqb_refl. reflexivity.
    + rewrite (proj2 (Z.eqb_neq _ _) Hne). exact IH.
Qed.

Lemma get_set_other {V : Type} (k k' : Z) (v : V) (d : dict V) :
  k' <> k -> get k (set k' v d) = get k d.
Proof.
  intros Hne. induction d as [|[k0 v0] d IH]; simpl.
  - rewrite (proj2 (Z.eqb_neq _ _) Hne). reflexivity.
  - destruct (Z.eqb_spec k0 k') as [->|Hne0]; simpl.
    + rewrite (proj2 (Z.eqb_neq _ _) Hne). reflexivity.
    + destruct (k0 =? k); [reflexivity|exact IH].
Qed.

(** ** get_position *)

Lemma get_position_fold (position_id : string) (roster : list roster_player) :
  forall acc : list Z * dict string,
    let step := fun (acc : list Z * dict string) player =>
                  if (position_code player =? position_id)%string then
                    (fst acc ++ [person_id player],
                     set (person_id player) (person_fullName player) (snd acc))
                  else acc in
    let r := fold_left step roster acc in
    fst r = fst acc
              ++ map person_id
                     (filter (fun player => (position_code player =? position_id)%string)
                             roster)
    /\ (NoDup (keys (snd acc)) -> NoDup (keys (snd r)))
    /\ (forall k, In k (keys (snd r))
                  <-> In k (keys (snd acc))
                      \/ In k (map person_id
                                   (filter (fun player =>
                                              (position_code player =? position_id)%string)
                                           roster))).
Proof.
  induction roster as [|player roster IH]; intros acc; simpl.
  - rewrite app_nil_r. repeat split; auto. intros [H|[]]. exact H.
  - destruct (position_code player =? position_id)%string.
    + destruct (IH (fst acc ++ [person_id player],
                    set (person_id player) (person_fullName player) (snd acc)))
        as (H1 & H2 & H3). simpl in *.
      split; [rewrite H1, <- app_assoc; reflexivity|split].
      * intros Hnd. apply H2, NoDup_keys_set, Hnd.
      * intros k. rewrite H3, keys_set.
        destruct (mem (person_id player) (snd acc)) eqn:E.
        -- apply mem_In_keys in E. split.
           ++ intros [H|H]; [left; exact H|right; right; exact H].
           ++ intros [H|[H|H]]; [left; exact H|subst k; left; exact E|right; exact H].
        -- rewrite in_app_iff. simpl. tauto.
    + apply IH.
Qed.

(** X1. [get_position] lists the players of the position in the order of
    the roster, and the dictionary of names has exactly these players as
    keys, each once. *)
Theorem get_position_players (roster : list roster_player) (position_id : string) :
  fst (get_position roster position_id)
  = map person_id
        (filter (fun player => (position_code player =? position_id)%string) roster)
  /\ NoDup (keys (snd (get_position roster position_id)))
  /\ (forall k, In k (keys (snd (get_position roster position_id)))
                <-> In k (fst (get_position roster position_id))).
Proof.
  destruct (get_position_fold position_id roster ([], [])) as (H1 & H2 & H3).
  cbv zeta in *. simpl in *. unfold get_position.
  split; [exact H1|split; [apply H2; constructor|]].
  intros k. rewrite H3, H1. tauto.
Qed.

Lemma get_position_name_kept (position_id : string) (k : Z) (name : string)
      (roster : list roster_player) :
  forall acc : list Z * dict string,
    get k (snd acc) = Some name ->
    (forall player, In player roster ->
                    position_code player = position_id -> person_id player <> k) ->
    get k (snd (fold_left
                  (fun (acc : list Z * dict string) player =>
                     if (position_code player =? position_id)%string then
                       (fst acc ++ [person_id player],
                        set (person_id player) (person_fullName player) (snd acc))
                     else acc)
                  roster acc))
    = Some name.
Proof.
  induction roster as [|player roster IH]; intros acc Hget Hlater; simpl.
  - exact Hget.
  - apply IH.
    + destruct (String.eqb_spec (position_code player) position_id) as [Hpos|Hpos].
      * simpl. rewrite get_set_other; [exact Hget|].
        apply Hlater; [left; reflexivity|exact Hpos].
      * exact Hget.
    + intros q Hq. apply Hlater. right. exact Hq.
Qed.

(** X2. The name [get_position] records for a player is the one of the last
    row of the roster with that player at the position. *)
Theorem get_position_last_name
        (before : list roster_player) (player : roster_player)
        (after : list roster_player) :
  (forall later, In later after ->
                 position_code later = position_code player ->
                 person_id later <> person_id player) ->
  get (person_id player)
      (snd (get_position (before ++ player :: after) (position_code player)))
  = Some (person_fullName player).
Proof.
  intros Hlater. unfold get_position. rewrite fold_left_app. simpl.
  rewrite String.eqb_refl.
  apply get_position_name_kept; [|exact Hlater].
  simpl. apply get_set_same.
Qed.

Lemma get_position_last_name_witness :
  get 7 (snd (get_position
                [ {| position_code := "1"; person_id := 7; person_fullName := "A. Old" |};
                  {| position_code := "1"; person_id := 7; person_fullName := "A. New" |};
                  {| position_code := "2"; person_id := 7; person_fullName := "C. Other" |} ]
                "1"))
  = Some "A. New".
Proof.
  apply (get_position_last_name
           [ {| position_code := "1"; person_id := 7; person_fullName := "A. Old" |} ]
           {| position_code := "1"; person_id := 7; person_fullName := "A. New" |}
           [ {| position_code := "2"; person_id := 7; person_fullName := "C. Other" |} ]).
  intros later [<-|[]] Hpos. discriminate Hpos.
Defined.

(** ** get_games, continued *)

Lemma get_games_fold_NoDup (include_current : bool) (schedule : list schedule_game) :
  forall acc : dict (string * Z),
    NoDup (keys acc) ->
    NoDup (keys (fold_left
                   (fun games game =>
                      if (status game =? "Final")%string || include_current
                      then set (game_id game) (game_date game, game_num game) games
                      else games)
                   schedule acc)).
Proof.
  induction schedule as [|g schedule IH]; intros acc Hnd; simpl; [exact Hnd|].
  apply IH. destruct ((status g =? "Final")%string || include_current);
    [apply NoDup_keys_set|]; exact Hnd.
Qed.

Lemma get_games_fold_kept (include_current : bool) (k : Z) (v : string * Z)
      (schedule : list schedule_game) :
  forall acc : dict (string * Z),
    get k acc = Some v ->
    (forall g, In g schedule ->
               (status g =? "Final")%string || include_current = true ->
               game_id g <> k) ->
    get k (fold_left
             (fun games game =>
                if (status game =? "Final")%string || include_current
                then set (game_id game) (game_date game, game_num game) games
                else games)
             schedule acc)
    = Some v.
Proof.
  induction schedule as [|g schedule IH]; intros acc Hget Hlater; simpl; [exact Hget|].
  apply IH.
  - destruct ((status g =? "Final")%string || include_current) eqn:E; [|exact Hget].
    rewrite get_set_other; [exact Hget|]. apply Hlater; [left; reflexivity|exact E].
  - intros g' Hg'. apply Hlater. right. exact Hg'.
Qed.

(** X5. The dictionary [get_games] returns has each game identifier once,
    and a game that is kept and not followed by a kept game of the same
    identifier is recorded with its own date and game number. *)
Theorem get_games_last_row
        (include_current : bool)
        (before : list schedule_game) (game : schedule_game)
        (after : list schedule_game) :
  (status game =? "Final")%string || include_current = true ->
  (forall later, In later after ->
                 (status later =? "Final")%string || include_current = true ->
                 game_id later <> game_id game) ->
  NoDup (keys (get_games include_current (before ++ game :: after)))
  /\ get (game_id game) (get_games include_current (before ++ game :: after))
     = Some (game_date game, game_num game).
Proof.
  intros Hkept Hlater. split.
  - apply get_games_fold_NoDup. constructor.
  - unfold get_games. rewrite fold_left_app. simpl. rewrite Hkept.
    apply get_games_fold_kept; [apply get_set_same|exact Hlater].
Qed.

Lemma get_games_last_row_witness :
  NoDup (keys (get_games false
                 [ {| status := "Final"; game_id := 1;
                      game_date := "2024-05-03"; game_num := 1 |};
                   {| status := "Final"; game_id := 1;
                      game_date := "2024-05-04"; game_num := 2 |};
                   {| status := "Postponed"; game_id := 1;
                      game_date := "2024-05-05"; game_num := 1 |} ]))
  /\ get 1 (get_games false
              [ {| status := "Final"; game_id := 1;
                   game_date := "2024-05-03"; game_num := 1 |};
                {| status := "Final"; game_id := 1;
                   game_date := "2024-05-04"; game_num := 2 |};
                {| status := "Postponed"; game_id := 1;
                   game_date := "2024-05-05"; game_num := 1 |} ])
     = Some ("2024-05-04", 2).
Proof.
  apply (get_games_last_row
           false
           [ {| status := "Final"; game_id := 1;
                game_date := "2024-05-03"; game_num := 1 |} ]
           {| status := "Final"; game_id := 1;
              game_date := "2024-05-04"; game_num := 2 |}
           [ {| status := "Postponed"; game_id := 1;
                game_date := "2024-05-05"; game_num := 1 |} ]).
  - reflexivity.
  - intros later [<-|[]] Hkept. discriminate Hkept.
Defined.

Lemma get_games_flag_set_keeps_all_witness :
  In 2 (keys (get_games true
                [ {| status := "Final"; game_id := 1;
                     game_date := "2024-05-03"; game_num := 1 |};
                  {| status := "Pre-Game"; game_id := 2;
                     game_date := "2024-05-04"; game_num := 1 |} ])).
Proof.
  apply (get_games_flag_set_keeps_all
           _ {| status := "Pre-Game"; game_id := 2;
                game_date := "2024-05-04"; game_num := 1 |}).
  simpl. right. left. reflexivity.
Defined.

(** ** get_pitch_counts, continued *)

Lemma get_app_absent {V : Type} (k : Z) (d1 d2 : dict V) :
  ~ In k (keys d1) -> get k (d1 ++ d2) = get k d2.
Proof.
  induction d1 as [|[k' v'] d1 IH]; simpl; intros Hk; [reflexivity|].
  destruct (Z.eqb_spec k' k) as [->|Hne]; [exfalso; apply Hk; left; reflexivity|].
  apply IH. intros H. apply Hk. right. exact H.
Qed.

Lemma set_app_absent {V : Type} (k : Z) (v v' : V) (d : dict V) :
  ~ In k (keys d) -> set k v' (d ++ [(k, v)]) = d ++ [(k, v')].
Proof.
  induction d as [|[k0 v0] d IH]; simpl; intros Hk.
  - rewrite Z.eqb_refl. reflexivity.
  - destruct (Z.eqb_spec k0 k) as [->|Hne]; [exfalso; apply Hk; left; reflexivity|].
    rewrite IH; [reflexivity|]. intros H. apply Hk. right. exact H.
Qed.

(** The rows of one box score, added to the entry of the game. *)
Lemma add_pitchers_entries (int : string -> result Z) (game : Z)
      (count : box_pitcher -> Z) (box_pitchers : list box_pitcher) :
  forall (done : dict (list (Z * Z))) (entries : list (Z * Z)),
    ~ In game (keys done) ->
    (forall bp, In bp box_pitchers -> personId bp <> 0 -> int (p bp) = Ok (count bp)) ->
    for_each (add_pitcher int game) box_pitchers (done ++ [(game, entries)])
    = Ok (done ++ [(game,
                    entries
                      ++ map (fun bp => (personId bp, count bp))
                             (filter (fun bp => negb (personId bp =? 0))
                                     box_pitchers))]).
Proof.
  induction box_pitchers as [|bp bps IH]; intros done entries Hnew Hint; simpl.
  - rewrite app_nil_r. reflexivity.
  - assert (Hint' : forall bp', In bp' bps -> personId bp' <> 0 ->
                                int (p bp') = Ok (count bp'))
      by (intros bp' Hin; apply Hint; right; exact Hin).
    unfold add_pitcher at 1.
    destruct (Z.eqb_spec (personId bp) 0) as [Hz|Hnz]; simpl.
    + apply (IH _ _ Hnew Hint').
    + rewrite (Hint bp (or_introl eq_refl) Hnz). simpl.
      unfold update, item. rewrite (get_app_absent _ _ _ Hnew). simpl.
      rewrite Z.eqb_refl. simpl. rewrite (set_app_absent _ _ _ _ Hnew).
      rewrite (IH _ _ Hnew Hint'), <- app_assoc. reflexivity.
Qed.

Lemma get_pitch_counts_loop
      (boxscore_data : Z -> boxscore) (int : string -> result Z) (team_id : Z)
      (pitchers_of : Z -> list box_pitcher) (count : box_pitcher -> Z)
      (games : list Z) :
  forall done : dict (list (Z * Z)),
    NoDup games ->
    (forall game, In game games -> ~ In game (keys done)) ->
    (forall game, In game games ->
                  team_pitchers team_id game (boxscore_data game)
                  = Ok (pitchers_of game)) ->
    (forall game bp, In game games -> In bp (pitchers_of game) ->
                     personId bp <> 0 -> int (p bp) = Ok (count bp)) ->
    for_each
      (fun games_pitches game =>
         box_pitchers <- team_pitchers team_id game (boxscore_data game) ;;
         for_each (add_pitcher int game) box_pitchers (set game [] games_pitches))
      games done
    = Ok (done
            ++ map (fun game =>
                      (game,
                       map (fun bp => (personId bp, count bp))
                           (filter (fun bp => negb (personId bp =? 0))
                                   (pitchers_of game))))
                   games).
Proof.
  induction games as [|game games IH]; intros done Hnd Hnew Hteam Hint.
  - simpl. rewrite app_nil_r. reflexivity.
  - apply NoDup_cons_iff in Hnd. destruct Hnd as [Hgame Hnd].
    simpl for_each. rewrite (Hteam game (or_introl eq_refl)). simpl bind.
    rewrite (set_absent _ _ _ (Hnew game (or_introl eq_refl))).
    rewrite (add_pitchers_entries int game count).
    + simpl bind. rewrite IH.
      * simpl. rewrite <- app_assoc. reflexivity.
      * exact Hnd.
      * intros g Hg Hin. unfold keys in Hin. rewrite map_app in Hin.
        apply in_app_or in Hin. destruct Hin as [Hin|[Hin|[]]].
        -- apply (Hnew g (or_intror Hg) Hin).
        -- simpl in Hin. subst g. contradiction.
      * intros g Hg. apply Hteam. right. exact Hg.
      * intros g bp Hg. apply Hint. right. exact Hg.
    + apply Hnew. left. reflexivity.
    + intros bp. apply Hint. left. reflexivity.
Qed.

(** X6. When the team plays in every game and the pitch counts of the real
    rows are numbers, [get_pitch_counts] returns the games in the order of
    the input, each with the pitchers of the team in the order of the box
    score and the rows of identifier 0 (whose text is never read as a
    number) left out. *)
Theorem get_pitch_counts_entries
        (boxscore_data : Z -> boxscore) (int : string -> result Z) (team_id : Z)
        (games : dict (string * Z))
        (pitchers_of : Z -> list box_pitcher) (count : box_pitcher -> Z) :
  NoDup (keys games) ->
  (forall game, In game (keys games) ->
                team_pitchers team_id game (boxscore_data game)
                = Ok (pitchers_of game)) ->
  (forall game bp, In game (keys games) -> In bp (pitchers_of game) ->
                   personId bp <> 0 -> int (p bp) = Ok (count bp)) ->
  get_pitch_counts boxscore_data int team_id games
  = Ok (map (fun game =>
               (game,
                map (fun bp => (personId bp, count bp))
                    (filter (fun bp => negb (personId bp =? 0)) (pitchers_of game))))
            (keys games)).
Proof.
  intros Hnd Hteam Hint. unfold get_pitch_counts.
  rewrite (get_pitch_counts_loop boxscore_data int team_id pitchers_of count);
    try assumption; [reflexivity|].
  intros game _ [].
Qed.

(** X7. A game in which the team is neither the away nor the home side
    makes [get_pitch_counts] raise, with the identifier of the game in the
    message, whatever the games after it are. *)
Theorem get_pitch_counts_team_not_found
        (boxscore_data : Z -> boxscore) (int : string -> result Z) (team_id : Z)
        (done : dict (string * Z)) (game : Z) (row : string * Z)
        (rest : dict (string * Z)) (games_pitches : dict (list (Z * Z))) :
  get_pitch_counts boxscore_data int team_id done = Ok games_pitches ->
  away_id (boxscore_data game) <> team_id ->
  home_id (boxscore_data game) <> team_id ->
  get_pitch_counts boxscore_data int team_id (done ++ (game, row) :: rest)
  = Raise (Exception ("Team ID not found in game " ++ str game)%string).
Proof.
  intros Hdone Haway Hhome. unfold get_pitch_counts in *.
  unfold keys. rewrite map_app. simpl map.
  rewrite for_each_app. fold (keys done). rewrite Hdone. simpl.
  unfold team_pitchers.
  rewrite (proj2 (Z.eqb_neq _ _) Haway), (proj2 (Z.eqb_neq _ _) Hhome).
  reflexivity.
Qed.

(** ** sort_pitcher_table, continued *)

Lemma comprehension_KeyError {A B : Type} (f : A -> result B) (xs : list A) :
  (forall x, In x xs -> f x = Raise KeyError \/ exists y, f x = Ok y) ->
  (exists x, In x xs /\ f x = Raise KeyError) ->
  comprehension f xs = Raise KeyError.
Proof.
  induction xs as [|x xs IH]; intros Hall (x0 & Hin & Hraise); [destruct Hin|].
  simpl. destruct (Hall x (or_introl eq_refl)) as [Hx|[y Hx]]; rewrite Hx; simpl.
  - reflexivity.
  - rewrite IH; [reflexivity| |].
    + intros x' Hx'. apply Hall. right. exact Hx'.
    + destruct Hin as [->|Hin]; [congruence|]. exists x0. split; assumption.
Qed.

(** X8. A pitcher with a timeline and no start count makes
    [sort_pitcher_table] raise [KeyError]. *)
Theorem sort_pitcher_table_missing_start
        (pitcher_games : dict (list cell)) (pitcher_starts : dict Z) (k : Z) :
  In k (keys pitcher_games) -> ~ In k (keys pitcher_starts) ->
  sort_pitcher_table pitcher_games pitcher_starts = Raise KeyError.
Proof.
  intros Hin Hout. unfold sort_pitcher_table, sorted.
  rewrite comprehension_KeyError; [reflexivity| |].
  - intros x _. unfold item. destruct (get x pitcher_starts); simpl; eauto.
  - exists k. split; [exact Hin|]. unfold item.
    destruct (get k pitcher_starts) eqn:E; [|reflexivity].
    exfalso. apply Hout. apply get_In_keys. eauto.
Qed.

Lemma sort_pitcher_table_missing_start_witness :
  sort_pitcher_table [(1, [Pitches 30]); (2, [NO_PITCHES])] [(1, 0)] = Raise KeyError.
Proof.
  apply (sort_pitcher_table_missing_start _ _ 2).
  - simpl. right. left. reflexivity.
  - simpl. intros [H|[]]. discriminate H.
Defined.

Lemma get_pitch_counts_entries_witness :
  get_pitch_counts BoxFixture.boxscore_data BoxFixture.int 111
                   [Fixture.game 100 "2024-05-01" 1]
  = Ok [(100, [(7, 88); (9, 14)])].
Proof.
  apply (get_pitch_counts_entries
           BoxFixture.boxscore_data BoxFixture.int 111
           [Fixture.game 100 "2024-05-01" 1]
           (fun game => awayPitchers (BoxFixture.boxscore_data game))
           BoxFixture.count).
  - repeat constructor. simpl. intros [].
  - intros game [<-|[]]. reflexivity.
  - intros game bp [<-|[]] [<-|[<-|[<-|[]]]] Hreal;
      [exfalso; apply Hreal| |]; reflexivity.
Defined.

Lemma get_pitch_counts_team_not_found_witness :
  get_pitch_counts BoxFixture.boxscore_data BoxFixture.int 111
                   ([Fixture.game 100 "2024-05-01" 1]
                      ++ Fixture.game 101 "2024-05-02" 1
                      :: [Fixture.game 102 "2024-05-03" 1])
  = Raise (Exception "Team ID not found in game 101").
Proof.
  apply (get_pitch_counts_team_not_found
           BoxFixture.boxscore_data BoxFixture.int 111
           [Fixture.game 100 "2024-05-01" 1] 101 ("2024-05-02", 1)
           [Fixture.game 102 "2024-05-03" 1]
           [(100, [(7, 88); (9, 14)])]).
  - reflexivity.
  - simpl. lia.
  - simpl. lia.
Defined.

(** ** build_pitcher_table, continued *)

(** The tables [build_pitcher_table] returns, in closed form. *)
Lemma build_pitcher_table_closed
      (pitchers : list Z) (games_pitches : dict (list (Z * Z))) :
  exists roster,
    Permutation roster (keys (fst (init_tables pitchers)))
    /\ build_pitcher_table pitchers games_pitches
       = Ok (map (fun k => (k, after_games 0 k games_pitches [])) roster,
             map (fun k => (k, games_started k games_pitches)) roster).
Proof.
  destruct (init_tables_spec pitchers) as (Hkeys & Hnd & Hroster & _ & _).
  cbv zeta in Hkeys, Hnd, Hroster.
  set (pg := map (fun e => (fst e, after_games 0 (fst e) games_pitches []))
                 (fst (init_tables pitchers))).
  set (ps := map (fun e => (fst e, games_started (fst e) games_pitches))
                 (snd (init_tables pitchers))).
  assert (Hkpg : keys pg = keys (fst (init_tables pitchers)))
    by (unfold pg; apply keys_map_value).
  assert (Hkps : keys ps = keys pg)
    by (unfold ps; rewrite keys_map_value, Hkpg; exact Hkeys).
  exists (sorted_roster ps (keys pg)).
  pose proof (sorted_roster_perm ps (keys pg)) as Hperm.
  split; [rewrite <- Hkpg; exact Hperm|].
  unfold build_pitcher_table. rewrite process_games_spec. simpl bind.
  fold pg ps. simpl fst. simpl snd.
  rewrite sort_pitcher_table_spec.
  - apply f_equal. apply f_equal2; apply map_ext_in; intros k Hk; apply f_equal;
      apply (Permutation_in _ Hperm) in Hk.
    + unfold timeline_of, pg.
      rewrite (get_map_value (fun k _ => after_games 0 k games_pitches [])).
      rewrite Hkpg in Hk. apply get_In_keys in Hk. destruct Hk as [v Hv].
      rewrite Hv. reflexivity.
    + unfold starts_of, ps.
      rewrite (get_map_value (fun k _ => games_started k games_pitches)).
      rewrite Hkpg, <- Hkeys in Hk. apply get_In_keys in Hk. destruct Hk as [v Hv].
      rewrite Hv. reflexivity.
  - rewrite Hkpg. exact Hnd.
  - intros k Hk. rewrite Hkps. exact Hk.
Qed.

(** X9. [build_pitcher_table] never raises, and the two tables it returns
    list the same pitchers in the same order: the pitchers of the roster,
    each once, and no one else. *)
Theorem build_pitcher_table_roster
        (pitchers : list Z) (games_pitches : dict (list (Z * Z))) :
  exists pitcher_games pitcher_starts,
    build_pitcher_table pitchers games_pitches = Ok (pitcher_games, pitcher_starts)
    /\ keys pitcher_starts = keys pitcher_games
    /\ NoDup (keys pitcher_games)
    /\ (forall k, In k (keys pitcher_games) <-> In k pitchers).
Proof.
  destruct (build_pitcher_table_closed pitchers games_pitches) as (roster & Hperm & Hb).
  destruct (init_tables_spec pitchers) as (_ & Hnd & Hroster & _ & _).
  cbv zeta in Hnd, Hroster.
  eexists. eexists. split; [exact Hb|]. rewrite !keys_map_keys.
  split; [reflexivity|split].
  - apply (Permutation_NoDup (Permutation_sym Hperm) Hnd).
  - intros k. rewrite <- Hroster. split; apply Permutation_in;
      [exact Hperm|apply Permutation_sym, Hperm].
Qed.

Lemma appearances_nil_not_started (k : Z) (items : list (Z * Z)) :
  appearances k items = [] -> started k items = false.
Proof.
  destruct items as [|it items]; [reflexivity|].
  rewrite appearances_cons. simpl. destruct (fst it =? k); [discriminate|reflexivity].
Qed.

Lemma after_games_idle (k : Z) (games : dict (list (Z * Z))) :
  forall (counter : Z) (tl : list cell),
    Z.of_nat (length tl) = counter ->
    all_appearances k games = [] ->
    after_games counter k games tl = tl ++ repeat NO_PITCHES (length games)
    /\ games_started k games = 0.
Proof.
  induction games as [|game games IH]; intros counter tl Hlen Hidle.
  - simpl. rewrite app_nil_r. split; reflexivity.
  - unfold all_appearances in Hidle. simpl in Hidle.
    apply app_eq_nil in Hidle. destruct Hidle as [Hgame Hrest].
    change (after_games counter k (game :: games) tl)
      with (after_games (counter + 1) k games (after_game counter k (snd game) tl)).
    rewrite after_game_once by (rewrite ?Hgame; simpl; lia).
    unfold new_cell. rewrite Hgame.
    destruct (IH (counter + 1) (tl ++ [NO_PITCHES])) as [H1 H2].
    + rewrite length_app. simpl. lia.
    + exact Hrest.
    + rewrite H1, <- app_assoc. split; [reflexivity|].
      unfold games_started in *. simpl.
      rewrite (appearances_nil_not_started _ _ Hgame). exact H2.
Qed.

(** X10. A pitcher of the roster who appears in no game gets a timeline of
    one sentinel per game and the start count 0. *)
Theorem build_pitcher_table_idle
        (pitchers : list Z) (games_pitches : dict (list (Z * Z))) (k : Z) :
  In k pitchers ->
  all_appearances k games_pitches = [] ->
  exists pitcher_games pitcher_starts,
    build_pitcher_table pitchers games_pitches = Ok (pitcher_games, pitcher_starts)
    /\ get k pitcher_games = Some (repeat NO_PITCHES (length games_pitches))
    /\ get k pitcher_starts = Some 0.
Proof.
  intros Hk Hidle.
  destruct (build_pitcher_table_closed pitchers games_pitches) as (roster & Hperm & Hb).
  destruct (init_tables_spec pitchers) as (_ & _ & Hroster & _ & _).
  cbv zeta in Hroster.
  assert (Hin : In k roster).
  { apply (Permutation_in _ (Permutation_sym Hperm)), Hroster, Hk. }
  destruct (after_games_idle k games_pitches 0 [] eq_refl Hidle) as [Htl Hst].
  eexists. eexists. split; [exact Hb|]. rewrite !get_map_keys.
  destruct (in_dec Z.eq_dec k roster); [|contradiction].
  rewrite Htl, Hst. split; reflexivity.
Qed.

Lemma build_pitcher_table_idle_witness :
  exists pitcher_games pitcher_starts,
    build_pitcher_table [7; 8] [(100, [(7, 88); (9, 14)]); (101, [(7, 60)])]
    = Ok (pitcher_games, pitcher_starts)
    /\ get 8 pitcher_games = Some (repeat NO_PITCHES 2)
    /\ get 8 pitcher_starts = Some 0.
Proof.
  apply (build_pitcher_table_idle
           [7; 8] [(100, [(7, 88); (9, 14)]); (101, [(7, 60)])] 8).
  - simpl. right. left. reflexivity.
  - reflexivity.
Defined.

(** X11. When no pitcher of the roster is listed twice in one game, every
    timeline [build_pitcher_table] returns has exactly one cell per game. *)
Theorem build_pitcher_table_one_cell_per_game
        (pitchers : list Z) (games_pitches : dict (list (Z * Z))) :
  (forall game k,
      In game games_pitches -> In k pitchers ->
      (length (appearances k (snd game)) <= 1)%nat) ->
  exists pitcher_games pitcher_starts,
    build_pitcher_table pitchers games_pitches = Ok (pitcher_games, pitcher_starts)
    /\ (forall k timeline,
           In (k, timeline) pitcher_games ->
           length timeline = length games_pitches).
Proof.
  intros Honce.
  destruct (build_pitcher_table_closed pitchers games_pitches) as (roster & Hperm & Hb).
  destruct (init_tables_spec pitchers) as (_ & _ & Hroster & _ & _).
  cbv zeta in Hroster.
  eexists. eexists. split; [exact Hb|].
  intros k timeline Hin. apply in_map_iff in Hin.
  destruct Hin as (k' & Heq & Hin). injection Heq as -> <-.
  apply Nat2Z.inj. rewrite after_games_length; [lia|reflexivity|].
  intros game Hgame. apply Honce; [exact Hgame|].
  apply Hroster, (Permutation_in _ Hperm), Hin.
Qed.

Lemma build_pitcher_table_one_cell_per_game_witness :
  exists pitcher_games pitcher_starts,
    build_pitcher_table [7; 8; 9] [(100, [(7, 88); (9, 14)]); (101, [(9, 60)])]
    = Ok (pitcher_games, pitcher_starts)
    /\ (forall k timeline,
           In (k, timeline) pitcher_games -> length timeline = 2%nat).
Proof.
  apply (build_pitcher_table_one_cell_per_game
           [7; 8; 9] [(100, [(7, 88); (9, 14)]); (101, [(9, 60)])]).
  intros game k [<-|[<-|[]]] [<-|[<-|[<-|[]]]]; simpl; lia.
Defined.

(** ** pad_dates, continued *)

Lemma fill_after_no_gap (rest : list Z) :
  forall a,
    (forall j x y,
        nth_error (a :: rest) j = Some x -> nth_error (a :: rest) (S j) = Some y ->
        y - x <= 1) ->
    fill_after a rest = map (pair false) rest.
Proof.
  induction rest as [|b rest IH]; intros a Hnear; [reflexivity|].
  rewrite fill_after_near by (apply (Hnear 0%nat a b); reflexivity).
  simpl. f_equal. apply IH. intros j x y Hx Hy. apply (Hnear (S j) x y); assumption.
Qed.

Lemma expand_all_real {A : Type} (slots : list A) :
  forall timeline, expand (map (fun _ => false) slots) timeline = timeline.
Proof.
  induction slots as [|x slots IH]; intros timeline; [reflexivity|].
  simpl. destruct timeline as [|c timeline]; [apply IH|].
  rewrite IH. reflexivity.
Qed.

(** X13. When no two games that follow each other are more than one day
    apart (no game, one game and games out of order included), [pad_dates]
    returns the dates of the games and the timelines as they are. *)
Theorem pad_dates_without_gaps
        (strptime : string -> result Z) (games : dict (string * Z))
        (pitcher_games : dict (list cell)) (gamedays : list Z) :
  comprehension (fun game => strptime (fst (snd game))) games = Ok gamedays ->
  (forall j x y,
      nth_error gamedays j = Some x -> nth_error gamedays (S j) = Some y ->
      y - x <= 1) ->
  forall fuel,
    (length gamedays <= fuel)%nat ->
    pad_dates strptime fuel games pitcher_games = Some (Ok (gamedays, pitcher_games)).
Proof.
  intros Hparse Hnear fuel Hfuel.
  assert (Hpad : padded gamedays = map (pair false) gamedays).
  { destruct gamedays as [|a rest]; [reflexivity|].
    simpl. rewrite (fill_after_no_gap rest a Hnear). reflexivity. }
  rewrite (pad_dates_padded _ _ _ _ _ Hparse)
    by (unfold pad_fuel; rewrite Hpad, length_map; exact Hfuel).
  rewrite Hpad, !map_map. simpl. rewrite map_id.
  apply f_equal, f_equal, f_equal.
  rewrite <- (map_id pitcher_games) at 2. apply map_ext. intros [k tl]. simpl.
  rewrite expand_all_real. reflexivity.
Qed.

Lemma pad_dates_without_gaps_witness :
  pad_dates Fixture.strptime 3
            [Fixture.game 1 "2024-05-02" 1; Fixture.game 2 "2024-05-03" 1;
             Fixture.game 3 "2024-05-03" 2]
            [(10, [Pitches 9; NO_PITCHES; Pitches 4])]
  = Some (Ok ([Fixture.may 2; Fixture.may 3; Fixture.may 3],
              [(10, [Pitches 9; NO_PITCHES; Pitches 4])])).
Proof.
  apply (pad_dates_without_gaps
           Fixture.strptime _ _ [Fixture.may 2; Fixture.may 3; Fixture.may 3]).
  - reflexivity.
  - intros [|[|[|j]]] x y Hx Hy; simpl in Hx, Hy;
      try discriminate; injection Hx as <-; injection Hy as <-;
      unfold Fixture.may; lia.
  - simpl. lia.
Defined.

Lemma last_cons_default {A : Type} (l : list A) (x d d' : A) :
  last (x :: l) d = last (x :: l) d'.
Proof.
  revert x. induction l as [|y l IH]; intros x; [reflexivity|].
  change (last (y :: l) d = last (y :: l) d'). apply IH.
Qed.

Lemma last_cons_same {A : Type} (l : list A) (x : A) :
  last (x :: l) x = last l x.
Proof. destruct l as [|y l]; reflexivity. Qed.

Lemma fill_after_days (a : Z) (rest : list Z) :
  Sorted Z.le (a :: rest) ->
  Sorted Z.le (a :: map snd (fill_after a rest))
  /\ a <= last rest a
  /\ (forall d, In d (a :: map snd (fill_after a rest)) <-> a <= d <= last rest a).
Proof.
  apply (fill_after_scheme
           (fun a rest slots =>
              Sorted Z.le (a :: rest) ->
              Sorted Z.le (a :: map snd slots)
              /\ a <= last rest a
              /\ (forall d, In d (a :: map snd slots) <-> a <= d <= last rest a))).
  - intros x _. simpl. split; [repeat constructor|split; [lia|]].
    intros d. split; [intros [H|[]]; lia|intros H; left; lia].
  - intros x b r Hnear IH Hs.
    apply Sorted_inv in Hs. destruct Hs as [Hs Hhd]. apply HdRel_inv in Hhd.
    destruct (IH Hs) as (H1 & H2 & H3).
    rewrite (last_cons_default r b x b), last_cons_same.
    split; [|split].
    + simpl. constructor; [exact H1|constructor; exact Hhd].
    + lia.
    + intros d. simpl map. split.
      * intros [H|H]; [lia|]. apply H3 in H. lia.
      * intros H. destruct (Z.eq_dec x d) as [Heq|Hne]; [left; exact Heq|].
        right. apply H3. lia.
  - intros x b r Hgap IH Hs.
    assert (Hs' : Sorted Z.le (x + 1 :: b :: r)).
    { apply Sorted_inv in Hs. destruct Hs as [Hs _].
      constructor; [exact Hs|constructor; lia]. }
    destruct (IH Hs') as (H1 & H2 & H3).
    rewrite (last_cons_default r b (x + 1) x) in H2, H3.
    split; [|split].
    + simpl. constructor; [exact H1|constructor; lia].
    + lia.
    + intros d. simpl map. split.
      * intros [H|H]; [lia|]. apply H3 in H. lia.
      * intros H. destruct (Z.eq_dec x d) as [Heq|Hne]; [left; exact Heq|].
        right. apply H3. lia.
Qed.

(** X14. For games in chronological order the calendar [pad_dates] returns
    is in chronological order too, and its dates are exactly the days from
    the first game to the last one: no day in between is missing and none
    outside is added. *)
Theorem pad_dates_covers_every_day
        (strptime : string -> result Z) (games : dict (string * Z))
        (pitcher_games : dict (list cell)) (first : Z) (rest : list Z) :
  comprehension (fun game => strptime (fst (snd game))) games = Ok (first :: rest) ->
  Sorted Z.le (first :: rest) ->
  exists dates pitcher_dates,
    (forall fuel, (pad_fuel (first :: rest) <= fuel)%nat ->
                  pad_dates strptime fuel games pitcher_games
                  = Some (Ok (dates, pitcher_dates)))
    /\ Sorted Z.le dates
    /\ (forall d, In d dates <-> first <= d <= last rest first).
Proof.
  intros Hparse Hsorted.
  destruct (fill_after_days first rest Hsorted) as (H1 & _ & H3).
  eexists. eexists. split; [|split].
  - intros fuel Hfuel. apply (pad_dates_padded _ _ _ _ _ Hparse Hfuel).
  - exact H1.
  - exact H3.
Qed.

Lemma pad_dates_covers_every_day_witness :
  exists dates pitcher_dates,
    (forall fuel,
        (pad_fuel (Fixture.may 1 :: [Fixture.may 5]) <= fuel)%nat ->
        pad_dates Fixture.strptime fuel
                  [Fixture.game 1 "2024-05-01" 1; Fixture.game 2 "2024-05-05" 1]
                  [(10, [Pitches 9; Pitches 4])]
        = Some (Ok (dates, pitcher_dates)))
    /\ Sorted Z.le dates
    /\ (forall d, In d dates
                  <-> Fixture.may 1 <= d <= last [Fixture.may 5] (Fixture.may 1)).
Proof.
  apply (pad_dates_covers_every_day
           Fixture.strptime _ _ (Fixture.may 1) [Fixture.may 5]).
  - reflexivity.
  - repeat constructor. unfold Fixture.may. lia.
Defined.

Lemma int_cells_expand (mask : list bool) :
  forall timeline, int_cells (expand mask timeline) = int_cells timeline.
Proof.
  induction mask as [|[|] mask IH]; intros timeline; simpl; [reflexivity|apply IH|].
  destruct timeline as [|[n|] timeline]; simpl; rewrite IH; reflexivity.
Qed.

Lemma sentinels_added_refl (timeline : list cell) :
  sentinels_added timeline timeline.
Proof. induction timeline; constructor; assumption. Qed.

Lemma sentinels_added_expand (mask : list bool) :
  forall timeline, sentinels_added timeline (expand mask timeline).
Proof.
  induction mask as [|[|] mask IH]; intros timeline; simpl.
  - apply sentinels_added_refl.
  - constructor. apply IH.
  - destruct timeline as [|c timeline]; [apply IH|constructor; apply IH].
Qed.

(** A timeline grows by one cell per slot flagged as added. *)
Lemma length_expand (mask : list bool) :
  forall timeline,
    length (expand mask timeline)
    = (length timeline + length (filter (fun added => added) mask))%nat.
Proof.
  induction mask as [|[|] mask IH]; intros timeline; simpl.
  - lia.
  - rewrite IH. lia.
  - destruct timeline as [|c timeline]; simpl; rewrite IH; simpl; lia.
Qed.

Lemma length_real_slots {A : Type} (mask : list bool) :
  forall slots : list A,
    length mask = length slots ->
    (length (filter (fun added => added) mask) + length (real_slots mask slots))%nat
    = length slots.
Proof.
  induction mask as [|[|] mask IH]; intros [|x slots] Hlen;
    simpl in *; try discriminate; try reflexivity.
  - rewrite IH by lia. reflexivity.
  - rewrite Nat.add_succ_r, IH by lia. reflexivity.
Qed.

(** X15. [pad_dates] adds sentinels to the timelines and nothing else,
    whatever the lengths of the timelines are: every timeline it returns is
    the timeline it was given with sentinels put in, as many of them as
    slots were added to the calendar, so that the cells given stay, in
    their order, and so do the pitch counts. *)
Theorem pad_dates_keeps_pitch_counts
        (strptime : string -> result Z) (games : dict (string * Z))
        (pitcher_games : dict (list cell)) (gamedays : list Z) :
  comprehension (fun game => strptime (fst (snd game))) games = Ok gamedays ->
  exists dates pitcher_dates,
    (forall fuel, (pad_fuel gamedays <= fuel)%nat ->
                  pad_dates strptime fuel games pitcher_games
                  = Some (Ok (dates, pitcher_dates)))
    /\ Forall2 (fun before after =>
                  fst after = fst before
                  /\ sentinels_added (snd before) (snd after)
                  /\ (length (snd after) + length gamedays
                      = length (snd before) + length dates)%nat
                  /\ int_cells (snd after) = int_cells (snd before))
               pitcher_games pitcher_dates.
Proof.
  intros Hparse.
  exists (map snd (padded gamedays)),
    (map (fun entry => (fst entry, expand (map fst (padded gamedays)) (snd entry)))
         pitcher_games).
  split.
  - intros fuel Hfuel. apply (pad_dates_padded _ _ _ _ _ Hparse Hfuel).
  - apply Forall2_map_in. intros [k tl] _. simpl.
    split; [reflexivity|].
    split; [apply sentinels_added_expand|].
    split; [|apply int_cells_expand].
    rewrite length_expand.
    pose proof (length_real_slots (map fst (padded gamedays))
                                  (map snd (padded gamedays))) as Hcount.
    rewrite real_slots_padded in Hcount.
    rewrite <- Hcount by (rewrite !length_map; reflexivity). lia.
Qed.

Lemma pad_dates_keeps_pitch_counts_witness :
  exists dates pitcher_dates,
    (forall fuel,
        (pad_fuel [Fixture.may 1; Fixture.may 4] <= fuel)%nat ->
        pad_dates Fixture.strptime fuel
                  [Fixture.game 1 "2024-05-01" 1; Fixture.game 2 "2024-05-04" 1]
                  [(10, [Pitches 12]); (11, [NO_PITCHES; Pitches 30; Pitches 2])]
        = Some (Ok (dates, pitcher_dates)))
    /\ Forall2 (fun before after =>
                  fst after = fst before
                  /\ sentinels_added (snd before) (snd after)
                  /\ (length (snd after) + length [Fixture.may 1; Fixture.may 4]
                      = length (snd before) + length dates)%nat
                  /\ int_cells (snd after) = int_cells (snd before))
               [(10, [Pitches 12]); (11, [NO_PITCHES; Pitches 30; Pitches 2])]
               pitcher_dates.
Proof.
  apply (pad_dates_keeps_pitch_counts
           Fixture.strptime _ _ [Fixture.may 1; Fixture.may 4]).
  reflexivity.
Defined.

(** Timelines of other lengths than the schedule on the run: the two days
    added go behind the first cell, or last where the timeline is short. *)
Example pad_dates_uneven_timelines :
  pad_dates Fixture.strptime 4
            [Fixture.game 1 "2024-05-01" 1; Fixture.game 2 "2024-05-04" 1]
            [(10, [Pitches 12]); (11, [NO_PITCHES; Pitches 30; Pitches 2])]
  = Some (Ok ([Fixture.may 1; Fixture.may 2; Fixture.may 3; Fixture.may 4],
              [(10, [Pitches 12; NO_PITCHES; NO_PITCHES]);
               (11, [NO_PITCHES; NO_PITCHES; NO_PITCHES; Pitches 30; Pitches 2])])).
Proof. reflexivity. Qed.

(** ** From the box scores to the padded table *)

Lemma add_pitchers_keys (int : string -> result Z) (game : Z)
      (box_pitchers : list box_pitcher) :
  forall d d' : dict (list (Z * Z)),
    for_each (add_pitcher int game) box_pitchers d = Ok d' -> keys d' = keys d.
Proof.
  induction box_pitchers as [|bp bps IH]; intros d d' H; simpl in H.
  - injection H as <-. reflexivity.
  - unfold add_pitcher at 1 in H.
    destruct (negb (personId bp =? 0)); simpl in H; [|apply IH, H].
    destruct (int (p bp)) as [n|e]; simpl in H; [|discriminate].
    unfold update, item in H. destruct (get game d) as [l|] eqn:E; simpl in H;
      [|discriminate].
    rewrite (IH _ _ H). apply keys_set_present. apply get_In_keys. eauto.
Qed.

Lemma get_pitch_counts_loop_keys
      (boxscore_data : Z -> boxscore) (int : string -> result Z) (team_id : Z)
      (games : list Z) :
  forall done games_pitches : dict (list (Z * Z)),
    NoDup games ->
    (forall game, In game games -> ~ In game (keys done)) ->
    for_each
      (fun games_pitches game =>
         box_pitchers <- team_pitchers team_id game (boxscore_data game) ;;
         for_each (add_pitcher int game) box_pitchers (set game [] games_pitches))
      games done
    = Ok games_pitches ->
    keys games_pitches = keys done ++ games.
Proof.
  induction games as [|game games IH]; intros done gp Hnd Hnew H.
  - simpl in H. injection H as <-. rewrite app_nil_r. reflexivity.
  - apply NoDup_cons_iff in Hnd. destruct Hnd as [Hgame Hnd].
    simpl in H.
    destruct (team_pitchers team_id game (boxscore_data game)) as [bps|e];
      simpl in H; [|discriminate].
    destruct (for_each (add_pitcher int game) bps (set game [] done)) as [d1|e] eqn:E;
      simpl in H; [|discriminate].
    apply add_pitchers_keys in E.
    rewrite (set_absent _ _ _ (Hnew game (or_introl eq_refl))) in E.
    unfold keys in E. rewrite map_app in E. simpl in E. fold (keys d1) (keys done) in E.
    rewrite (IH d1 gp Hnd); [rewrite E, <- app_assoc; reflexivity| |exact H].
    intros g Hg Hin. rewrite E in Hin. apply in_app_or in Hin.
    destruct Hin as [Hin|[Hin|[]]].
    + apply (Hnew g (or_intror Hg) Hin).
    + subst g. contradiction.
Qed.

(** X12. The chain of [produce_table]: the games [get_pitch_counts] returns
    are the games asked for; when no pitcher of the roster is listed twice in
    a game, [build_pitcher_table] on them followed by [pad_dates] on the
    games gives a calendar and timelines of one common length. *)
Theorem tables_aligned_with_calendar
        (boxscore_data : Z -> boxscore) (int : string -> result Z)
        (strptime : string -> result Z) (team_id : Z)
        (pitchers : list Z) (games : dict (string * Z))
        (games_pitches : dict (list (Z * Z))) (gamedays : list Z) :
  NoDup (keys games) ->
  get_pitch_counts boxscore_data int team_id games = Ok games_pitches ->
  comprehension (fun game => strptime (fst (snd game))) games = Ok gamedays ->
  (forall game k,
      In game games_pitches -> In k pitchers ->
      (length (appearances k (snd game)) <= 1)%nat) ->
  exists pitcher_games pitcher_starts dates pitcher_dates,
    keys games_pitches = keys games
    /\ build_pitcher_table pitchers games_pitches = Ok (pitcher_games, pitcher_starts)
    /\ (forall fuel, (pad_fuel gamedays <= fuel)%nat ->
                     pad_dates strptime fuel games pitcher_games
                     = Some (Ok (dates, pitcher_dates)))
    /\ keys pitcher_dates = keys pitcher_games
    /\ (forall k timeline,
           In (k, timeline) pitcher_dates -> length timeline = length dates).
Proof.
  intros Hnd Hcounts Hparse Honce.
  assert (Hkeys : keys games_pitches = keys games).
  { unfold get_pitch_counts in Hcounts.
    apply get_pitch_counts_loop_keys in Hcounts; [exact Hcounts|exact Hnd|].
    intros g _ []. }
  assert (Hsame : length games_pitches = length gamedays).
  { rewrite (comprehension_length _ _ _ Hparse).
    rewrite <- (length_map fst games_pitches), <- (length_map fst games).
    fold (keys games_pitches) (keys games). rewrite Hkeys. reflexivity. }
  destruct (build_pitcher_table_closed pitchers games_pitches) as (roster & Hperm & Hb).
  destruct (init_tables_spec pitchers) as (_ & _ & Hroster & _ & _).
  cbv zeta in Hroster.
  eexists. eexists. eexists. eexists.
  split; [exact Hkeys|split; [exact Hb|split; [|split]]].
  - intros fuel Hfuel. apply (pad_dates_padded _ _ _ _ _ Hparse Hfuel).
  - rewrite keys_map_value. reflexivity.
  - intros k timeline Hin. apply in_map_iff in Hin.
    destruct Hin as ([k' tl] & Heq & Hin). simpl in Heq. injection Heq as <- <-.
    apply in_map_iff in Hin. destruct Hin as (k & Heq & Hin). injection Heq as <- <-.
    destruct (expand_aligned (map fst (padded gamedays)) (map snd (padded gamedays))
                             (after_games 0 k games_pitches []))
      as (Hlen & _).
    + rewrite !length_map. reflexivity.
    + rewrite real_slots_padded, <- Hsame. symmetry.
      apply Nat2Z.inj. rewrite after_games_length; [lia|reflexivity|].
      intros game Hgame. apply Honce; [exact Hgame|].
      apply Hroster, (Permutation_in _ Hperm), Hin.
    + rewrite Hlen, !length_map. reflexivity.
Qed.

Lemma tables_aligned_with_calendar_witness :
  exists pitcher_games pitcher_starts dates pitcher_dates,
    keys [(100, [(7, 88); (9, 14)]); (102, [(7, 88); (9, 14)])]
    = keys [Fixture.game 100 "2024-05-01" 1; Fixture.game 102 "2024-05-04" 1]
    /\ build_pitcher_table [7; 8] [(100, [(7, 88); (9, 14)]); (102, [(7, 88); (9, 14)])]
       = Ok (pitcher_games, pitcher_starts)
    /\ (forall fuel,
           (pad_fuel [Fixture.may 1; Fixture.may 4] <= fuel)%nat ->
           pad_dates Fixture.strptime fuel
                     [Fixture.game 100 "2024-05-01" 1; Fixture.game 102 "2024-05-04" 1]
                     pitcher_games
           = Some (Ok (dates, pitcher_dates)))
    /\ keys pitcher_dates = keys pitcher_games
    /\ (forall k timeline,
           In (k, timeline) pitcher_dates -> length timeline = length dates).
Proof.
  apply (tables_aligned_with_calendar
           BoxFixture.boxscore_data BoxFixture.int Fixture.strptime 111 [7; 8]
           [Fixture.game 100 "2024-05-01" 1; Fixture.game 102 "2024-05-04" 1]
           [(100, [(7, 88); (9, 14)]); (102, [(7, 88); (9, 14)])]
           [Fixture.may 1; Fixture.may 4]).
  - repeat constructor; simpl; intuition lia.
  - reflexivity.
  - reflexivity.
  - intros game k [<-|[<-|[]]] [<-|[<-|[]]]; simpl; lia.
Defined.

(** ** sum_recents and format_none, continued *)

Lemma last_entries_app {A : Type} (older window : list A) :
  last_entries (length window) (older ++ window) = window.
Proof.
  unfold last_entries. rewrite length_app.
  replace (length older + length window - length window)%nat with (length older) by lia.
  rewrite skipn_app, skipn_all, Nat.sub_diag. reflexivity.
Qed.

(** X16. The trailing sum depends on the window only: the entries older
    than the last [N] do not change it. *)
Theorem sum_recents_window_only (older window : list cell) :
  window <> [] ->
  sum_recents (older ++ window) (Z.of_nat (length window))
  = sum_recents window (Z.of_nat (length window)).
Proof.
  intros Hne.
  assert (Hpos : (1 <= length window)%nat) by (destruct window; [contradiction|simpl; lia]).
  rewrite !sum_recents_in_range by (rewrite ?length_app; lia).
  rewrite Nat2Z.id, last_entries_app.
  unfold last_entries. rewrite Nat.sub_diag. reflexivity.
Qed.

Lemma sum_recents_window_only_witness :
  sum_recents ([Pitches 40; NO_PITCHES] ++ [Pitches 20; NO_PITCHES; Pitches 15]) 3
  = sum_recents [Pitches 20; NO_PITCHES; Pitches 15] 3.
Proof.
  apply (sum_recents_window_only
           [Pitches 40; NO_PITCHES] [Pitches 20; NO_PITCHES; Pitches 15]).
  discriminate.
Defined.

Lemma int_cells_sum_app (l1 l2 : list cell) :
  int_cells_sum (l1 ++ l2) = int_cells_sum l1 + int_cells_sum l2.
Proof.
  induction l1 as [|[n|] l1 IH]; simpl; rewrite ?IH; lia.
Qed.

Lemma int_cells_sum_nonneg (l : list cell) :
  Forall nonneg_cell l -> 0 <= int_cells_sum l.
Proof.
  induction 1 as [|[n|] l Hc Hl IH]; simpl in *; lia.
Qed.

Lemma Forall_skipn_cells (P : cell -> Prop) (n : nat) (l : list cell) :
  Forall P l -> Forall P (skipn n l).
Proof.
  intros H. rewrite <- (firstn_skipn n l) in H. apply Forall_app in H. apply H.
Qed.

Lemma Forall_firstn_cells (P : cell -> Prop) (n : nat) (l : list cell) :
  Forall P l -> Forall P (firstn n l).
Proof.
  intros H. rewrite <- (firstn_skipn n l) in H. apply Forall_app in H. apply H.
Qed.

(** X17. With no negative pitch count in the timeline, a longer window
    never gives a smaller trailing sum, and no trailing sum is negative. *)
Theorem sum_recents_monotone (timeline : list cell) (N M : Z) :
  Forall nonneg_cell timeline ->
  1 <= N <= M -> M <= Z.of_nat (length timeline) ->
  exists short long,
    sum_recents timeline N = Ok short
    /\ sum_recents timeline M = Ok long
    /\ 0 <= short <= long.
Proof.
  intros Hpos HN HM.
  rewrite !sum_recents_in_range by lia.
  eexists. eexists. split; [reflexivity|split; [reflexivity|]].
  unfold last_entries.
  set (n := Z.to_nat N). set (m := Z.to_nat M).
  assert (Hsplit : skipn (length timeline - n) timeline
                   = skipn (m - n) (skipn (length timeline - m) timeline)).
  { rewrite skipn_skipn. f_equal. unfold n, m. lia. }
  rewrite Hsplit.
  set (window := skipn (length timeline - m) timeline).
  assert (Hwin : Forall nonneg_cell window) by (apply Forall_skipn_cells, Hpos).
  pose proof (int_cells_sum_nonneg _ (Forall_skipn_cells _ (m - n) _ Hwin)).
  pose proof (int_cells_sum_nonneg _ (Forall_firstn_cells _ (m - n) _ Hwin)).
  assert (Hsum : int_cells_sum window
                 = int_cells_sum (firstn (m - n) window)
                   + int_cells_sum (skipn (m - n) window))
    by (rewrite <- int_cells_sum_app, firstn_skipn; reflexivity).
  lia.
Qed.

Lemma sum_recents_monotone_witness :
  exists short long,
    sum_recents [Pitches 31; Pitches 20; NO_PITCHES; Pitches 15; Pitches 0] LAST_SHORT
    = Ok short
    /\ sum_recents [Pitches 31; Pitches 20; NO_PITCHES; Pitches 15; Pitches 0] LAST_LONG
       = Ok long
    /\ 0 <= short <= long.
Proof.
  apply (sum_recents_monotone
           [Pitches 31; Pitches 20; NO_PITCHES; Pitches 15; Pitches 0]
           LAST_SHORT LAST_LONG).
  - repeat constructor; simpl; lia.
  - unfold LAST_SHORT, LAST_LONG. lia.
  - unfold LAST_LONG. simpl. lia.
Defined.

Lemma int_cells_sum_zero (l : list cell) :
  Forall nonneg_cell l -> (int_cells_sum l = 0 <-> Forall idle_cell l).
Proof.
  induction 1 as [|c l Hc Hl IH]; [split; [constructor|reflexivity]|].
  pose proof (int_cells_sum_nonneg l Hl) as Hsum.
  destruct c as [n|]; simpl in *.
  - split.
    + intros H. constructor; [right; f_equal; lia|apply IH; lia].
    + intros H. apply Forall_cons_iff in H. destruct H as [[H|H] Hrest];
        [discriminate|]. injection H as ->. apply IH in Hrest. lia.
  - split.
    + intros H. constructor; [left; reflexivity|apply IH, H].
    + intros H. apply Forall_cons_iff in H. apply IH, H.
Qed.

(** X18. [format_none] never returns the count 0; with no negative pitch
    count in the timeline, the cell shown for a trailing sum is the sentinel
    exactly when every cell of the window is a sentinel or the count 0, and
    the sum itself otherwise. *)
Theorem format_none_of_sum (timeline : list cell) (N : Z) :
  Forall nonneg_cell timeline ->
  1 <= N <= Z.of_nat (length timeline) ->
  exists total,
    sum_recents timeline N = Ok total
    /\ format_none total <> Pitches 0
    /\ (format_none total = NO_PITCHES
        <-> Forall idle_cell (last_entries (Z.to_nat N) timeline))
    /\ (format_none total = Pitches total
        <-> ~ Forall idle_cell (last_entries (Z.to_nat N) timeline)).
Proof.
  intros Hpos HN. rewrite sum_recents_in_range by exact HN.
  eexists. split; [reflexivity|].
  assert (Hwin : Forall nonneg_cell (last_entries (Z.to_nat N) timeline))
    by (apply Forall_skipn_cells, Hpos).
  pose proof (int_cells_sum_zero _ Hwin) as Hzero.
  unfold format_none.
  destruct (Z.eqb_spec (int_cells_sum (last_entries (Z.to_nat N) timeline)) 0)
    as [Heq|Hne].
  - split; [discriminate|split].
    + split; [intros _; apply Hzero, Heq|reflexivity].
    + split; [discriminate|]. intros H. exfalso. apply H, Hzero, Heq.
  - split; [intros H; injection H as H; contradiction|split].
    + split; [discriminate|]. intros H. apply Hzero in H. contradiction.
    + split; [intros _ H; apply Hzero in H; contradiction|reflexivity].
Qed.

Lemma format_none_of_sum_witness :
  exists total,
    sum_recents [Pitches 31; NO_PITCHES; Pitches 0; NO_PITCHES] 3 = Ok total
    /\ format_none total <> Pitches 0
    /\ (format_none total = NO_PITCHES
        <-> Forall idle_cell
                   (last_entries (Z.to_nat 3)
                                 [Pitches 31; NO_PITCHES; Pitches 0; NO_PITCHES]))
    /\ (format_none total = Pitches total
        <-> ~ Forall idle_cell
                     (last_entries (Z.to_nat 3)
                                   [Pitches 31; NO_PITCHES; Pitches 0; NO_PITCHES])).
Proof.
  apply (format_none_of_sum [Pitches 31; NO_PITCHES; Pitches 0; NO_PITCHES] 3).
  - repeat constructor; simpl; lia.
  - simpl. lia.
Defined.

(** ** label_dates, continued *)

Lemma length_adjust {A : Type} (f : A -> A) (l : list A) :
  forall i, length (adjust i f l) = length l.
Proof.
  induction l as [|x l IH]; intros [|i]; simpl; try reflexivity.
  rewrite IH. reflexivity.
Qed.

Lemma length_label_passes (dates : list Z) (indices : list nat) :
  forall labels, length (fold_left (label_step dates) indices labels) = length labels.
Proof.
  induction indices as [|i indices IH]; intros labels; simpl; [reflexivity|].
  rewrite IH, label_step_same_at.
  destruct (same_at dates i); [rewrite !length_adjust|]; reflexivity.
Qed.

Lemma length_label_dates (strftime : Z -> string) (dates : list Z) :
  length (label_dates strftime dates) = length dates.
Proof.
  unfold label_dates. cbv zeta. rewrite length_label_passes. apply length_map.
Qed.

(** X19. [label_dates] gives one label per slot: the date as text, followed
    by ["(2)"] when the slot before carries the same date, followed by
    ["(1)"] when the slot after carries the same date. *)
Theorem label_dates_labels (strftime : Z -> string) (dates : list Z) :
  length (label_dates strftime dates) = length dates
  /\ forall j d,
      nth_error dates j = Some d ->
      nth_error (label_dates strftime dates) j
      = Some (strftime d
                ++ (if match j with O => false | S j' => same_at dates j' end
                    then "(2)" else "")
                ++ (if same_at dates j then "(1)" else ""))%string.
Proof.
  split; [apply length_label_dates|apply label_dates_nth].
Qed.

(** X20. When no two slots that follow each other carry the same date, the
    labels are the dates as text, with no suffix. *)
Theorem label_dates_plain (strftime : Z -> string) (dates : list Z) :
  (forall j x y,
      nth_error dates j = Some x -> nth_error dates (S j) = Some y -> x <> y) ->
  label_dates strftime dates = map strftime dates.
Proof.
  intros Hdiff.
  assert (Hsame : forall j, same_at dates j = false).
  { intros j. unfold same_at.
    destruct (nth_error dates j) as [x|] eqn:Ex; [|reflexivity].
    destruct (nth_error dates (S j)) as [y|] eqn:Ey; [|reflexivity].
    apply Z.eqb_neq. apply (Hdiff j); assumption. }
  apply nth_error_ext. intros j. rewrite nth_error_map.
  destruct (nth_error dates j) as [d|] eqn:Ej.
  - rewrite (label_dates_nth strftime dates j d Ej), Hsame.
    destruct j; [|rewrite Hsame]; simpl; rewrite string_app_empty; reflexivity.
  - simpl. apply nth_error_None. rewrite length_label_dates.
    apply nth_error_None, Ej.
Qed.

Lemma label_dates_plain_witness :
  label_dates Fixture.strftime [Fixture.may 1; Fixture.may 2; Fixture.may 1]
  = map Fixture.strftime [Fixture.may 1; Fixture.may 2; Fixture.may 1].
Proof.
  apply label_dates_plain.
  intros [|[|[|j]]] x y Hx Hy; simpl in Hx, Hy;
    try discriminate; injection Hx as <-; injection Hy as <-;
    unfold Fixture.may; lia.
Defined.

Lemma label_dates_labels_witness :
  nth_error (label_dates Fixture.strftime [Fixture.may 2; Fixture.may 3; Fixture.may 3]) 2
  = Some "05-03(2)".
Proof.
  destruct (label_dates_labels
              Fixture.strftime [Fixture.may 2; Fixture.may 3; Fixture.may 3])
    as [_ H].
  exact (H 2%nat (Fixture.may 3) eq_refl).
Defined.

(** ** print_pitches *)

Lemma and_then_computed {A B : Type} (a : A) (k : A -> printing B) :
  and_then (computed (Ok a)) k = k a.
Proof. unfold and_then, computed. simpl. destruct (k a). reflexivity. Qed.

Lemma and_then_raised {A B : Type} (e : exn) (k : A -> printing B) :
  and_then (computed (Raise e)) k = ([], Raise e).
Proof. reflexivity. Qed.

Lemma and_then_print {B : Type} (line : string) (k : unit -> printing B) :
  and_then (print line) k = (line :: fst (k tt), snd (k tt)).
Proof. reflexivity. Qed.

(** Characters and bytes: the length and the cut of a string count its
    characters; on ASCII text they are the length and the cut in bytes. *)
Lemma len_app (s t : string) : len (s ++ t) = (len s + len t)%nat.
Proof.
  induction s as [|c s IH]; [reflexivity|].
  simpl. destruct (continuation c); rewrite IH; reflexivity.
Qed.

Lemma len_times_space (n : nat) : len (times " " n) = n.
Proof. induction n as [|n IH]; [reflexivity|]. simpl. rewrite IH. reflexivity. Qed.

Lemma len_slice_to (s : string) :
  forall n, len (slice_to n s) = Nat.min n (len s).
Proof.
  induction s as [|c s IH]; intros n.
  - simpl. rewrite Nat.min_0_r. reflexivity.
  - simpl. destruct (continuation c) eqn:E.
    + simpl. rewrite E. apply IH.
    + destruct n as [|n]; [reflexivity|].
      simpl. rewrite E, IH. reflexivity.
Qed.

Lemma slice_to_all (s : string) :
  forall n, (len s <= n)%nat -> slice_to n s = s.
Proof.
  induction s as [|c s IH]; intros n Hn; [reflexivity|].
  simpl in *. destruct (continuation c).
  - rewrite IH by exact Hn. reflexivity.
  - destruct n as [|n]; [lia|]. rewrite IH by lia. reflexivity.
Qed.

(** A field is as wide as asked, in characters, unless its text is wider. *)
Lemma len_format_left (width : nat) (v : value) :
  len (format_left width v)
  = Nat.max width (len match v with Int n => str n | Text s => s end).
Proof.
  unfold format_left. cbv zeta. rewrite len_app, len_times_space. lia.
Qed.

Example len_counts_characters :
  len "José Ramírez" = 12%nat /\ String.length "José Ramírez" = 14%nat.
Proof. split; reflexivity. Qed.

Example slice_to_counts_characters :
  slice_to 20 "José Ramírez de la Cruz Fernández" = "José Ramírez de la C".
Proof. reflexivity. Qed.

Example format_left_counts_characters :
  format_left 20 (Text "José Ramírez") = "José Ramírez        ".
Proof. reflexivity. Qed.

Lemma format_fields_complete (widths : list nat) :
  forall args,
    (length widths <= length args)%nat ->
    format_fields widths args
    = Ok (map (fun wv => format_left (fst wv) (snd wv)) (combine widths args)).
Proof.
  induction widths as [|w widths IH]; intros args Hlen; [reflexivity|].
  destruct args as [|v args]; [simpl in Hlen; lia|].
  simpl in Hlen. simpl. rewrite IH by lia. reflexivity.
Qed.

Lemma format_complete (widths : list nat) (args : list value) :
  (length widths <= length args)%nat ->
  format widths args = Ok (line_of widths args).
Proof.
  intros Hlen. unfold format. rewrite format_fields_complete by exact Hlen.
  reflexivity.
Qed.

Lemma length_format_str (date_labels : list string) :
  length (format_str date_labels) = (length date_labels + 4)%nat.
Proof. unfold format_str. simpl. rewrite length_app, length_map. simpl. lia. Qed.

Lemma length_col_labels (date_labels : list string) :
  length (col_labels date_labels) = (length date_labels + 4)%nat.
Proof. unfold col_labels. simpl. rewrite length_app, length_map. simpl. lia. Qed.

Lemma length_row_breaks (date_labels : list string) :
  length (row_breaks date_labels) = (length date_labels + 4)%nat.
Proof. unfold row_breaks. simpl. rewrite length_app, length_map. simpl. lia. Qed.

Lemma length_row_values (pitcher_names : dict string) (entry : Z * list cell) :
  length (row_values pitcher_names entry) = (length (snd entry) + 4)%nat.
Proof. unfold row_values. simpl. rewrite length_app, length_map. simpl. lia. Qed.

Lemma sum_recents_beyond (pitch_counts : list cell) (n_days : Z) :
  Z.of_nat (length pitch_counts) < n_days ->
  sum_recents pitch_counts n_days
  = Raise (Exception "Cannot sum more games than available in player data pull").
Proof.
  intros H. unfold sum_recents.
  destruct (Z.ltb_spec n_days 1); [lia|].
  destruct (n_days >? Z.of_nat (length pitch_counts)) eqn:E; [reflexivity|].
  rewrite Z.gtb_ltb in E. apply Z.ltb_ge in E. lia.
Qed.

(** One row, for a pitcher with a name and a timeline as long as the
    calendar and the long window. *)
Lemma print_row_line (date_labels : list string)
      (pitcher_starts : dict Z) (pitcher_names : dict string)
      (starter : Z) (entry : Z * list cell) :
  In (fst entry) (keys pitcher_names) ->
  (starter = 0 -> In (fst entry) (keys pitcher_starts)) ->
  length (snd entry) = length date_labels ->
  LAST_LONG <= Z.of_nat (length (snd entry)) ->
  print_row date_labels pitcher_starts pitcher_names starter entry
  = if (starter =? 0) && (starts_of pitcher_starts (fst entry) >? 0) then
      ([line_of (format_str date_labels) (row_breaks date_labels);
        line_of (format_str date_labels) (row_values pitcher_names entry)],
       Ok 1)
    else ([line_of (format_str date_labels) (row_values pitcher_names entry)],
          Ok starter).
Proof.
  intros Hname Hstart Hlen Hlong. unfold print_row. cbv zeta.
  apply get_In_keys in Hname. destruct Hname as [full_name Hname].
  unfold item at 1. rewrite Hname, and_then_computed.
  rewrite sum_recents_in_range by (unfold LAST_SHORT, LAST_LONG in *; lia).
  rewrite and_then_computed.
  rewrite sum_recents_in_range by (unfold LAST_LONG in *; lia).
  rewrite and_then_computed.
  assert (Hrow : [Text (slice_to 20 full_name)]
                   ++ map cell_value (snd entry) ++ [Text VERT_BREAK]
                   ++ [cell_value
                         (format_none
                            (int_cells_sum
                               (last_entries (Z.to_nat LAST_SHORT) (snd entry))))]
                   ++ [cell_value
                         (format_none
                            (int_cells_sum
                               (last_entries (Z.to_nat LAST_LONG) (snd entry))))]
                 = row_values pitcher_names entry).
  { unfold row_values, name_of. rewrite Hname. reflexivity. }
  rewrite Hrow.
  assert (Hfmt : format (format_str date_labels) (row_values pitcher_names entry)
                 = Ok (line_of (format_str date_labels)
                               (row_values pitcher_names entry))).
  { apply format_complete. rewrite length_format_str, length_row_values. lia. }
  assert (Hbrk : format (format_str date_labels) (row_breaks date_labels)
                 = Ok (line_of (format_str date_labels) (row_breaks date_labels))).
  { apply format_complete. rewrite length_format_str, length_row_breaks. lia. }
  destruct (Z.eqb_spec starter 0) as [Hs|Hs]; simpl andb.
  - apply Hstart, get_In_keys in Hs. destruct Hs as [n Hn].
    unfold item, starts_of. rewrite Hn, and_then_computed.
    destruct (n >? 0).
    + rewrite Hbrk, Hfmt. reflexivity.
    + rewrite Hfmt. reflexivity.
  - rewrite Hfmt. reflexivity.
Qed.

Lemma printing_each_app {A S : Type} (body : S -> A -> printing S) (xs ys : list A) :
  forall st,
    printing_each body (xs ++ ys) st
    = and_then (printing_each body xs st) (printing_each body ys).
Proof.
  induction xs as [|x xs IH]; intros st; simpl.
  - unfold and_then. simpl. destruct (printing_each body ys st). reflexivity.
  - unfold and_then at 1 3. destruct (body st x) as [lines [st'|e]]; simpl.
    + rewrite IH. unfold and_then.
      destruct (printing_each body xs st') as [lines' [st''|e]]; simpl.
      * rewrite app_assoc. reflexivity.
      * reflexivity.
    + reflexivity.
Qed.

(** The rows once the rule between relievers and starters is printed. *)
Lemma print_rows_after_rule (date_labels : list string)
      (pitcher_starts : dict Z) (pitcher_names : dict string)
      (starter : Z) (entries : dict (list cell)) :
  starter <> 0 ->
  (forall e, In e entries ->
             In (fst e) (keys pitcher_names)
             /\ length (snd e) = length date_labels
             /\ LAST_LONG <= Z.of_nat (length (snd e))) ->
  printing_each (print_row date_labels pitcher_starts pitcher_names) entries starter
  = (map (fun e => line_of (format_str date_labels) (row_values pitcher_names e))
         entries,
     Ok starter).
Proof.
  intros Hs. induction entries as [|e entries IH]; intros Hok; [reflexivity|].
  destruct (Hok e (or_introl eq_refl)) as (Hname & Hlen & Hlong).
  simpl. rewrite print_row_line; try assumption; [|intros H; contradiction].
  rewrite (proj2 (Z.eqb_neq _ _) Hs). simpl andb. cbv iota.
  unfold and_then. simpl.
  rewrite IH by (intros e' He'; apply Hok; right; exact He'). reflexivity.
Qed.

(** The rows of the pitchers without a start, before any rule. *)
Lemma print_rows_before_rule (date_labels : list string)
      (pitcher_starts : dict Z) (pitcher_names : dict string)
      (entries : dict (list cell)) :
  (forall e, In e entries ->
             In (fst e) (keys pitcher_names)
             /\ In (fst e) (keys pitcher_starts)
             /\ length (snd e) = length date_labels
             /\ LAST_LONG <= Z.of_nat (length (snd e))) ->
  (forall e, In e entries -> starts_of pitcher_starts (fst e) <= 0) ->
  printing_each (print_row date_labels pitcher_starts pitcher_names) entries 0
  = (map (fun e => line_of (format_str date_labels) (row_values pitcher_names e))
         entries,
     Ok 0).
Proof.
  induction entries as [|e entries IH]; intros Hok Hrel; [reflexivity|].
  destruct (Hok e (or_introl eq_refl)) as (Hname & Hstart & Hlen & Hlong).
  simpl. rewrite print_row_line; try assumption; [|intros _; exact Hstart].
  replace (starts_of pitcher_starts (fst e) >? 0) with false.
  - simpl andb. cbv iota. unfold and_then. simpl.
    rewrite IH; [reflexivity| |].
    + intros e' He'. apply Hok. right. exact He'.
    + intros e' He'. apply Hrel. right. exact He'.
  - symmetry. rewrite Z.gtb_ltb. apply Z.ltb_ge. apply Hrel. left. reflexivity.
Qed.

(** The table, for pitchers with a name, a start count and a timeline as
    long as the calendar and the long window. *)
Lemma print_pitches_closed
      (strftime : Z -> string) (dates : list Z)
      (pitcher_starts : dict Z) (pitcher_names : dict string)
      (before after : dict (list cell)) :
  (forall e, In e (before ++ after) ->
             In (fst e) (keys pitcher_names)
             /\ In (fst e) (keys pitcher_starts)
             /\ length (snd e) = length dates
             /\ LAST_LONG <= Z.of_nat (length (snd e))) ->
  (forall e, In e before -> starts_of pitcher_starts (fst e) <= 0) ->
  (forall e rest, after = e :: rest -> starts_of pitcher_starts (fst e) > 0) ->
  let date_labels := label_dates strftime dates in
  let rule := line_of (format_str date_labels) (row_breaks date_labels) in
  let row := fun e => line_of (format_str date_labels) (row_values pitcher_names e) in
  print_pitches strftime dates (before ++ after) pitcher_starts pitcher_names
  = (line_of (format_str date_labels) (col_labels date_labels)
       :: rule
       :: map row before ++ match after with
                            | [] => []
                            | _ :: _ => rule :: map row after
                            end,
     Ok (match after with [] => 0 | _ :: _ => 1 end)).
Proof.
  intros Hok Hrel Hfirst date_labels rule row.
  assert (Hok' : forall e, In e (before ++ after) ->
                           In (fst e) (keys pitcher_names)
                           /\ In (fst e) (keys pitcher_starts)
                           /\ length (snd e) = length date_labels
                           /\ LAST_LONG <= Z.of_nat (length (snd e))).
  { intros e He. destruct (Hok e He) as (H1 & H2 & H3 & H4).
    unfold date_labels. rewrite length_label_dates. auto. }
  unfold print_pitches. cbv zeta. fold date_labels.
  rewrite format_complete by (rewrite length_format_str, length_col_labels; lia).
  rewrite and_then_computed, and_then_print.
  rewrite format_complete by (rewrite length_format_str, length_row_breaks; lia).
  rewrite and_then_computed, and_then_print.
  rewrite printing_each_app.
  rewrite print_rows_before_rule;
    [|intros e He; apply Hok', in_or_app; left; exact He|exact Hrel].
  unfold and_then at 1. simpl fst. simpl snd. fold rule row.
  destruct after as [|e rest].
  - simpl. reflexivity.
  - assert (Hin : forall e', In e' (e :: rest) -> In e' (before ++ e :: rest))
      by (intros e' He'; apply in_or_app; right; exact He').
    destruct (Hok' e (Hin e (or_introl eq_refl)))
      as (Hname & Hstart & Hlen & Hlong).
    simpl printing_each.
    rewrite print_row_line; try assumption; [|intros _; exact Hstart].
    replace (starts_of pitcher_starts (fst e) >? 0) with true
      by (symmetry; apply Z.gtb_lt; specialize (Hfirst e rest eq_refl); lia).
    simpl andb. cbv iota. unfold and_then at 1. simpl fst. simpl snd.
    rewrite print_rows_after_rule; [reflexivity|discriminate|].
    intros e' He'.
    destruct (Hok' e' (Hin e' (or_intror He'))) as (H1 & _ & H3 & H4).
    auto.
Qed.

(** X21. For pitchers who all have a name, a start count and a timeline as
    long as the calendar and at least as long as the long window,
    [print_pitches] raises nothing and prints the heading, a rule, one row
    per pitcher in the order of the table, and one more rule in front of the
    first pitcher with a start, if there is one.  A row holds the name cut
    at 20 characters, the cells and the two trailing sums, each followed by
    spaces up to the width of its column, counted in characters. *)
Theorem print_pitches_lines
        (strftime : Z -> string) (dates : list Z)
        (pitcher_starts : dict Z) (pitcher_names : dict string)
        (before after : dict (list cell)) :
  (forall e, In e (before ++ after) ->
             In (fst e) (keys pitcher_names)
             /\ In (fst e) (keys pitcher_starts)
             /\ length (snd e) = length dates
             /\ LAST_LONG <= Z.of_nat (length (snd e))) ->
  (forall e, In e before -> starts_of pitcher_starts (fst e) <= 0) ->
  (forall e rest, after = e :: rest -> starts_of pitcher_starts (fst e) > 0) ->
  print_pitches strftime dates (before ++ after) pitcher_starts pitcher_names
  = (line_of (format_str (label_dates strftime dates))
             (col_labels (label_dates strftime dates))
       :: line_of (format_str (label_dates strftime dates))
                  (row_breaks (label_dates strftime dates))
       :: map (fun e => line_of (format_str (label_dates strftime dates))
                                (row_values pitcher_names e))
              before
       ++ match after with
          | [] => []
          | _ :: _ =>
              line_of (format_str (label_dates strftime dates))
                      (row_breaks (label_dates strftime dates))
                :: map (fun e => line_of (format_str (label_dates strftime dates))
                                         (row_values pitcher_names e))
                       after
          end,
     Ok (match after with [] => 0 | _ :: _ => 1 end)).
Proof.
  intros Hok Hrel Hfirst.
  exact (print_pitches_closed strftime dates pitcher_starts pitcher_names
                              before after Hok Hrel Hfirst).
Qed.

Lemma print_pitches_lines_witness :
  print_pitches Fixture.strftime
                [Fixture.may 1; Fixture.may 2; Fixture.may 3; Fixture.may 3;
                 Fixture.may 4]
                ([(8, [NO_PITCHES; Pitches 12; NO_PITCHES; NO_PITCHES; NO_PITCHES])]
                   ++ [(7, [Pitches 88; NO_PITCHES; NO_PITCHES; Pitches 101;
                            NO_PITCHES])])
                [(8, 0); (7, 2)]
                [(7, "José Ramírez de la Cruz Fernández"); (8, "Néstor Cortés")]
  = (["Pitcher              05-01    05-02    05-03(1) 05-03(2) 05-04       Last 3 Last 5";
      "-------------------- -------- -------- -------- -------- --------    ------ ------";
      "Néstor Cortés        -        12       -        -        -           -      12    ";
      "-------------------- -------- -------- -------- -------- --------    ------ ------";
      "José Ramírez de la C 88       -        -        101      -           101    189   "],
     Ok 1).
Proof.
  apply (print_pitches_lines
           Fixture.strftime
           [Fixture.may 1; Fixture.may 2; Fixture.may 3; Fixture.may 3; Fixture.may 4]
           [(8, 0); (7, 2)]
           [(7, "José Ramírez de la Cruz Fernández"); (8, "Néstor Cortés")]
           [(8, [NO_PITCHES; Pitches 12; NO_PITCHES; NO_PITCHES; NO_PITCHES])]
           [(7, [Pitches 88; NO_PITCHES; NO_PITCHES; Pitches 101; NO_PITCHES])]).
  - intros e [<-|[<-|[]]]; simpl; unfold LAST_LONG; intuition lia.
  - intros e [<-|[]]. simpl. unfold starts_of. simpl. lia.
  - intros e rest H. injection H as <- _. unfold starts_of. simpl. lia.
Defined.

Lemma print_pitches_heading
      (strftime : Z -> string) (dates : list Z) (pitcher_dates : dict (list cell))
      (pitcher_starts : dict Z) (pitcher_names : dict string) :
  print_pitches strftime dates pitcher_dates pitcher_starts pitcher_names
  = (line_of (format_str (label_dates strftime dates))
             (col_labels (label_dates strftime dates))
       :: line_of (format_str (label_dates strftime dates))
                  (row_breaks (label_dates strftime dates))
       :: fst (printing_each
                 (print_row (label_dates strftime dates) pitcher_starts pitcher_names)
                 pitcher_dates 0),
     snd (printing_each
            (print_row (label_dates strftime dates) pitcher_starts pitcher_names)
            pitcher_dates 0)).
Proof.
  unfold print_pitches. cbv zeta.
  rewrite format_complete by (rewrite length_format_str, length_col_labels; lia).
  rewrite and_then_computed, and_then_print.
  rewrite format_complete by (rewrite length_format_str, length_row_breaks; lia).
  rewrite and_then_computed, and_then_print. reflexivity.
Qed.

(** X22. When the first pitcher of the table has a name and a timeline
    shorter than the long window, [print_pitches] prints the heading and the
    rule and then raises: no row is printed. *)
Theorem print_pitches_short_timeline
        (strftime : Z -> string) (dates : list Z)
        (k : Z) (timeline : list cell) (rest : dict (list cell))
        (pitcher_starts : dict Z) (pitcher_names : dict string) :
  In k (keys pitcher_names) ->
  Z.of_nat (length timeline) < LAST_LONG ->
  print_pitches strftime dates ((k, timeline) :: rest) pitcher_starts pitcher_names
  = ([line_of (format_str (label_dates strftime dates))
              (col_labels (label_dates strftime dates));
      line_of (format_str (label_dates strftime dates))
              (row_breaks (label_dates strftime dates))],
     Raise (Exception "Cannot sum more games than available in player data pull")).
Proof.
  intros Hname Hshort. rewrite print_pitches_heading.
  apply get_In_keys in Hname. destruct Hname as [full_name Hname].
  assert (Hrow : print_row (label_dates strftime dates) pitcher_starts pitcher_names
                           0 (k, timeline)
                 = ([], Raise (Exception
                                 "Cannot sum more games than available in player data pull"))).
  { unfold print_row. cbv zeta. simpl fst. simpl snd.
    unfold item at 1. rewrite Hname, and_then_computed.
    destruct (Z_lt_ge_dec (Z.of_nat (length timeline)) LAST_SHORT) as [Hlt|Hge].
    - rewrite (sum_recents_beyond _ _ Hlt). reflexivity.
    - rewrite sum_recents_in_range by (unfold LAST_SHORT in *; lia).
      rewrite and_then_computed, (sum_recents_beyond _ _ Hshort). reflexivity. }
  simpl printing_each. rewrite Hrow. reflexivity.
Qed.

Lemma print_pitches_short_timeline_witness :
  print_pitches Fixture.strftime [Fixture.may 1; Fixture.may 2; Fixture.may 3]
                ((8, [NO_PITCHES; Pitches 12; NO_PITCHES])
                   :: [(7, [Pitches 88; NO_PITCHES; NO_PITCHES])])
                [(8, 0); (7, 1)] [(7, "Al Fa"); (8, "Bo Li")]
  = (["Pitcher              05-01    05-02    05-03       Last 3 Last 5";
      "-------------------- -------- -------- --------    ------ ------"],
     Raise (Exception "Cannot sum more games than available in player data pull")).
Proof.
  apply (print_pitches_short_timeline
           Fixture.strftime [Fixture.may 1; Fixture.may 2; Fixture.may 3]
           8 [NO_PITCHES; Pitches 12; NO_PITCHES]
           [(7, [Pitches 88; NO_PITCHES; NO_PITCHES])]
           [(8, 0); (7, 1)] [(7, "Al Fa"); (8, "Bo Li")]).
  - simpl. right. left. reflexivity.
  - unfold LAST_LONG. simpl. lia.
Defined.

(** X23. When the first pitcher of the table has no name, [print_pitches]
    prints the heading and the rule and then raises [KeyError]. *)
Theorem print_pitches_missing_name
        (strftime : Z -> string) (dates : list Z)
        (k : Z) (timeline : list cell) (rest : dict (list cell))
        (pitcher_starts : dict Z) (pitcher_names : dict string) :
  ~ In k (keys pitcher_names) ->
  print_pitches strftime dates ((k, timeline) :: rest) pitcher_starts pitcher_names
  = ([line_of (format_str (label_dates strftime dates))
              (col_labels (label_dates strftime dates));
      line_of (format_str (label_dates strftime dates))
              (row_breaks (label_dates strftime dates))],
     Raise KeyError).
Proof.
  intros Hname. rewrite print_pitches_heading.
  assert (Hget : get k pitcher_names = None).
  { destruct (get k pitcher_names) eqn:E; [|reflexivity].
    exfalso. apply Hname, get_In_keys. eauto. }
  assert (Hrow : print_row (label_dates strftime dates) pitcher_starts pitcher_names
                           0 (k, timeline)
                 = ([], Raise KeyError)).
  { unfold print_row. cbv zeta. simpl fst. simpl snd.
    unfold item at 1. rewrite Hget. reflexivity. }
  simpl printing_each. rewrite Hrow. reflexivity.
Qed.

Lemma print_pitches_missing_name_witness :
  print_pitches Fixture.strftime [Fixture.may 1]
                ((8, [Pitches 12]) :: []) [(8, 0)] [(7, "Al Fa")]
  = (["Pitcher              05-01       Last 3 Last 5";
      "-------------------- --------    ------ ------"],
     Raise KeyError).
Proof.
  apply (print_pitches_missing_name
           Fixture.strftime [Fixture.may 1] 8 [Pitches 12] [] [(8, 0)] [(7, "Al Fa")]).
  simpl. intros [H|[]]. discriminate H.
Defined.

(** ** The whole chain *)

Lemma split_at_first_starter (pitcher_starts : dict Z) (entries : dict (list cell)) :
  exists before after,
    entries = before ++ after
    /\ (forall e, In e before -> starts_of pitcher_starts (fst e) <= 0)
    /\ (forall e rest, after = e :: rest -> starts_of pitcher_starts (fst e) > 0).
Proof.
  induction entries as [|e entries (before & after & Heq & Hrel & Hfirst)].
  - exists [], []. repeat split; [intros e []|intros e rest H; discriminate H].
  - destruct (Z_le_gt_dec (starts_of pitcher_starts (fst e)) 0) as [Hle|Hgt].
    + exists (e :: before), after. rewrite Heq. repeat split; [|exact Hfirst].
      intros e' [<-|He']; [exact Hle|apply Hrel, He'].
    + exists [], (e :: entries). repeat split; [intros e' []|].
      intros e' rest H. injection H as <- _. exact Hgt.
Qed.

(** X24. The chain of [produce_table] after the data is fetched: for the
    pitchers of [get_position], box scores that list no pitcher twice and a
    calendar of at least [LAST_LONG] slots, the tables are built, padded and
    printed without an exception, in two heading lines, one row per pitcher
    and at most one more rule. *)
Theorem table_printed
        (boxscore_data : Z -> boxscore) (int : string -> result Z)
        (strptime : string -> result Z) (strftime : Z -> string)
        (team_id : Z) (roster : list roster_player) (position_id : string)
        (games : dict (string * Z)) (games_pitches : dict (list (Z * Z)))
        (gamedays : list Z) :
  NoDup (keys games) ->
  get_pitch_counts boxscore_data int team_id games = Ok games_pitches ->
  comprehension (fun game => strptime (fst (snd game))) games = Ok gamedays ->
  (forall game k,
      In game games_pitches -> In k (fst (get_position roster position_id)) ->
      (length (appearances k (snd game)) <= 1)%nat) ->
  LAST_LONG <= Z.of_nat (pad_fuel gamedays) ->
  exists pitcher_games pitcher_starts dates pitcher_dates lines starter,
    build_pitcher_table (fst (get_position roster position_id)) games_pitches
    = Ok (pitcher_games, pitcher_starts)
    /\ (forall fuel, (pad_fuel gamedays <= fuel)%nat ->
                     pad_dates strptime fuel games pitcher_games
                     = Some (Ok (dates, pitcher_dates)))
    /\ length dates = pad_fuel gamedays
    /\ print_pitches strftime dates pitcher_dates pitcher_starts
                     (snd (get_position roster position_id))
       = (lines, Ok starter)
    /\ 0 <= starter <= 1
    /\ length lines = (2 + length pitcher_dates + Z.to_nat starter)%nat.
Proof.
  intros Hnd Hcounts Hparse Honce Hslots.
  set (pitchers := fst (get_position roster position_id)) in *.
  set (names := snd (get_position roster position_id)).
  assert (Hnames : forall k, In k pitchers -> In k (keys names)).
  { intros k Hk.
    destruct (get_position_fold position_id roster ([], [])) as (H1 & _ & H3).
    cbv zeta in H1, H3. simpl in H1, H3.
    unfold names, get_position. apply H3. right.
    unfold pitchers, get_position in Hk. rewrite H1 in Hk. exact Hk. }
  assert (Hkeys : keys games_pitches = keys games).
  { unfold get_pitch_counts in Hcounts.
    apply get_pitch_counts_loop_keys in Hcounts; [exact Hcounts|exact Hnd|].
    intros g _ []. }
  assert (Hsame : length games_pitches = length gamedays).
  { rewrite (comprehension_length _ _ _ Hparse).
    rewrite <- (length_map fst games_pitches), <- (length_map fst games).
    fold (keys games_pitches) (keys games). rewrite Hkeys. reflexivity. }
  destruct (build_pitcher_table_closed pitchers games_pitches) as (roster' & Hperm & Hb).
  destruct (init_tables_spec pitchers) as (_ & _ & Hroster & _ & _).
  cbv zeta in Hroster.
  set (pg := map (fun k => (k, after_games 0 k games_pitches [])) roster') in *.
  set (ps := map (fun k => (k, games_started k games_pitches)) roster') in *.
  set (dates := map snd (padded gamedays)).
  set (pd := map (fun entry => (fst entry, expand (map fst (padded gamedays)) (snd entry)))
                 pg).
  assert (Hdates : length dates = pad_fuel gamedays)
    by (unfold dates, pad_fuel; apply length_map).
  assert (Hok : forall e, In e pd ->
                          In (fst e) (keys names)
                          /\ In (fst e) (keys ps)
                          /\ length (snd e) = length dates
                          /\ LAST_LONG <= Z.of_nat (length (snd e))).
  { intros e He. unfold pd, pg in He. rewrite map_map in He. apply in_map_iff in He.
    destruct He as (k & <- & Hk). simpl.
    assert (Hkp : In k pitchers) by (apply Hroster, (Permutation_in _ Hperm), Hk).
    destruct (expand_aligned (map fst (padded gamedays)) (map snd (padded gamedays))
                             (after_games 0 k games_pitches []))
      as (Hlen & _).
    - rewrite !length_map. reflexivity.
    - rewrite real_slots_padded, <- Hsame. symmetry.
      apply Nat2Z.inj. rewrite after_games_length; [lia|reflexivity|].
      intros game Hgame. apply Honce; assumption.
    - rewrite length_map in Hlen. fold (pad_fuel gamedays) in Hlen.
      split; [apply Hnames, Hkp|split; [|split]].
      + unfold ps. rewrite keys_map_keys. exact Hk.
      + rewrite Hlen, Hdates. reflexivity.
      + rewrite Hlen. exact Hslots. }
  destruct (split_at_first_starter ps pd) as (before & after & Hsplit & Hrel & Hfirst).
  rewrite Hsplit in Hok.
  pose proof (print_pitches_closed strftime dates ps names before after Hok Hrel Hfirst)
    as Hprint.
  cbv zeta in Hprint. rewrite <- Hsplit in Hprint.
  eexists pg, ps, dates, pd, _, _.
  split; [exact Hb|split; [|split; [exact Hdates|split; [exact Hprint|split]]]].
  - intros fuel Hfuel. apply (pad_dates_padded _ _ _ _ _ Hparse Hfuel).
  - destruct after; lia.
  - rewrite Hsplit. simpl length. rewrite !length_app, !length_map.
    destruct after as [|e rest]; simpl; rewrite ?length_map; lia.
Qed.

Lemma table_printed_witness :
  exists pitcher_games pitcher_starts dates pitcher_dates lines starter,
    build_pitcher_table
      (fst (get_position
              [ {| position_code := "1"; person_id := 7; person_fullName := "Al Fa" |};
                {| position_code := "2"; person_id := 3; person_fullName := "Ca Tch" |};
                {| position_code := "1"; person_id := 8; person_fullName := "Bo Li" |} ]
              "1"))
      [(100, [(7, 88); (9, 14)]); (102, [(7, 88); (9, 14)])]
    = Ok (pitcher_games, pitcher_starts)
    /\ (forall fuel,
           (pad_fuel [Fixture.may 1; Fixture.may 5] <= fuel)%nat ->
           pad_dates Fixture.strptime fuel
                     [Fixture.game 100 "2024-05-01" 1; Fixture.game 102 "2024-05-05" 1]
                     pitcher_games
           = Some (Ok (dates, pitcher_dates)))
    /\ length dates = pad_fuel [Fixture.may 1; Fixture.may 5]
    /\ print_pitches
         Fixture.strftime dates pitcher_dates pitcher_starts
         (snd (get_position
                 [ {| position_code := "1"; person_id := 7; person_fullName := "Al Fa" |};
                   {| position_code := "2"; person_id := 3; person_fullName := "Ca Tch" |};
                   {| position_code := "1"; person_id := 8; person_fullName := "Bo Li" |} ]
                 "1"))
       = (lines, Ok starter)
    /\ 0 <= starter <= 1
    /\ length lines = (2 + length pitcher_dates + Z.to_nat starter)%nat.
Proof.
  apply (table_printed
           BoxFixture.boxscore_data BoxFixture.int Fixture.strptime Fixture.strftime
           111 _ "1"
           [Fixture.game 100 "2024-05-01" 1; Fixture.game 102 "2024-05-05" 1]
           [(100, [(7, 88); (9, 14)]); (102, [(7, 88); (9, 14)])]
           [Fixture.may 1; Fixture.may 5]).
  - repeat constructor; simpl; intuition lia.
  - reflexivity.
  - reflexivity.
  - intros game k [<-|[<-|[]]] Hk; simpl in Hk;
      destruct Hk as [<-|[<-|[]]]; simpl; lia.
  - unfold LAST_LONG. simpl. lia.
Defined.

(** The table of the example above, as printed. *)
Example table_of_two_games :
  print_pitches Fixture.strftime
                [Fixture.may 1; Fixture.may 2; Fixture.may 3; Fixture.may 4;
                 Fixture.may 5]
                [(8, [NO_PITCHES; NO_PITCHES; NO_PITCHES; NO_PITCHES; NO_PITCHES]);
                 (7, [Pitches 88; NO_PITCHES; NO_PITCHES; NO_PITCHES; Pitches 88])]
                [(8, 0); (7, 2)] [(7, "Al Fa"); (8, "Bo Li")]
  = (["Pitcher              05-01    05-02    05-03    05-04    05-05       Last 3 Last 5";
      "-------------------- -------- -------- -------- -------- --------    ------ ------";
      "Bo Li                -        -        -        -        -           -      -     ";
      "-------------------- -------- -------- -------- -------- --------    ------ ------";
      "Al Fa                88       -        -        -        88          88     176   "],
     Ok 1).
Proof. reflexivity. Qed.
